(** * F1-Dash: the telemetry alignment and analysis core

    A shallow embedding of the algorithmic parts of the D3 charts

      - [BaseChart]           ([init], [update]),
      - [TelemetryChart]      (scales, speed lines, the crosshair lookup),
      - [MultiTelemetryChart] (channel layout, channel traces, delta
                               estimation, DRS regions, reference lap,
                               crosshair lookup),
      - [TrackMapChart]       (track projection, corner detection, outline,
                               lap traces, distance marker lookup),

    and of the part of the application that updates the three charts,
    together with the properties the design document states about them and
    further properties of the code: when it raises, what it draws and where.

    JavaScript numbers are IEEE-754 doubles.  The model is written once,
    over an interface [JsNumber] of the arithmetic the charts use, and is
    instantiated twice: with the rationals [Q] (exact arithmetic, on which
    the general theorems are stated) and with Rocq's primitive binary64
    floats (the arithmetic the browser really performs, used to evaluate the
    code on concrete inputs, in particular where a division by zero yields
    [Infinity] or [NaN]).  Division by zero is total on [Q] as well, with
    result 0: no theorem on rationals relies on a quotient with a zero
    divisor. *)

From Stdlib Require Import String ZArith QArith Qabs Lqa Lia Bool List Sorted.
From Stdlib Require Import Uint63 Floats.
Import ListNotations.

Set Implicit Arguments.

(** ** JavaScript numbers *)

Declare Scope js_scope.
Delimit Scope js_scope with js.

Class JsNumber (N : Type) : Type := {
  num    : Z -> N;            (* an integer literal *)
  nadd   : N -> N -> N;
  nsub   : N -> N -> N;
  nmul   : N -> N -> N;
  ndiv   : N -> N -> N;
  nltb   : N -> N -> bool;    (* a < b *)
  nleb   : N -> N -> bool;    (* a <= b *)
  nabs   : N -> N;            (* Math.abs *)
  truthy : N -> bool          (* ToBoolean: false on 0 and on NaN *)
}.

Infix "+" := nadd : js_scope.
Infix "-" := nsub : js_scope.
Infix "*" := nmul : js_scope.
Infix "/" := ndiv : js_scope.
Infix "<?" := nltb : js_scope.
Infix "<=?" := nleb : js_scope.
Notation "a >? b" := (nltb b a) (at level 70) : js_scope.
Notation "a >=? b" := (nleb b a) (at level 70) : js_scope.

(** A decimal literal [n/d], e.g. [0.85] is [dec 85 100].  On doubles the
    quotient of two exactly representable integers is correctly rounded, so
    this is the double the JavaScript literal denotes. *)
Definition dec {N} `{JsNumber N} (n d : Z) : N := (num n / num d)%js.

Definition Qltb (a b : Q) : bool := negb (Qle_bool b a).

#[export] Instance Q_JsNumber : JsNumber Q := {|
  num    := inject_Z;
  nadd   := Qplus;
  nsub   := Qminus;
  nmul   := Qmult;
  ndiv   := Qdiv;
  nltb   := Qltb;
  nleb   := Qle_bool;
  nabs   := Qabs;
  truthy := fun q => negb (Qeq_bool q 0)
|}.

Definition float_of_Z (z : Z) : float :=
  match z with
  | Z0 => PrimFloat.zero
  | Zpos _ => PrimFloat.of_uint63 (Uint63.of_Z z)
  | Zneg p => PrimFloat.opp (PrimFloat.of_uint63 (Uint63.of_Z (Zpos p)))
  end.

#[export] Instance float_JsNumber : JsNumber float := {|
  num    := float_of_Z;
  nadd   := PrimFloat.add;
  nsub   := PrimFloat.sub;
  nmul   := PrimFloat.mul;
  ndiv   := PrimFloat.div;
  nltb   := PrimFloat.ltb;
  nleb   := PrimFloat.leb;
  nabs   := PrimFloat.abs;
  truthy := fun f => negb (PrimFloat.eqb f PrimFloat.zero || PrimFloat.is_nan f)
|}.

(** ** Exceptions

    The only exception the modelled code can raise is a [TypeError]: from
    [Array.prototype.reduce] called on an empty array without an initial
    value, and from reading a property of [undefined] (an array read out of
    range followed by a field access). *)

Inductive outcome (A : Type) : Type :=
| Ok (a : A)
| TypeError.
Arguments TypeError {A}.

Definition bind {A B} (m : outcome A) (k : A -> outcome B) : outcome B :=
  match m with
  | Ok a => k a
  | TypeError => TypeError
  end.

Notation "'let*' a ':=' m 'in' k" := (bind m (fun a => k))
  (at level 10, a name, m at level 100, k at level 200).

(** [arr.reduce(f)]: the first element is the initial accumulator. *)
Definition reduce1 {A} (f : A -> A -> A) (arr : list A) : outcome A :=
  match arr with
  | [] => TypeError
  | a :: rest => Ok (fold_left f rest a)
  end.

(** [arr[i]] where a field of the element is read next. *)
Definition at_index {A} (arr : list A) (i : nat) : outcome A :=
  match nth_error arr i with
  | Some a => Ok a
  | None => TypeError
  end.

(** [for (const i of idxs) s = body(s, i)], stopping at the first
    exception. *)
Fixpoint for_each {S I} (body : S -> I -> outcome S) (idxs : list I) (s : S)
  : outcome S :=
  match idxs with
  | [] => Ok s
  | i :: rest => let* s' := body s i in for_each body rest s'
  end.

(** [arr.map(f)] and [arr.forEach(f)] for an [f] that may raise: the results
    in order, or the first exception. *)
Fixpoint map_outcome {A B} (f : A -> outcome B) (arr : list A) : outcome (list B) :=
  match arr with
  | [] => Ok []
  | a :: rest =>
      let* b := f a in
      let* bs := map_outcome f rest in
      Ok (b :: bs)
  end.

(** The elements of an array with their indices, as [forEach((e, i) => ...)]
    passes them. *)
Definition indexed {A} (arr : list A) : list (nat * A) :=
  combine (seq 0 (List.length arr)) arr.

(** [arr[arr.length - 1]], [undefined] ([None]) on the empty array. *)
Definition last_element {A} (arr : list A) : option A :=
  nth_error arr (List.length arr - 1).

(** ** The parts of d3 the charts call

    d3 is a third-party library; these definitions follow the documented
    behaviour of [d3-array] and [d3-scale]. *)

Section D3.
Context {N : Type} `{JsNumber N}.
Local Open Scope js_scope.

(** [d3.max(arr, f)]: the greatest value, [null] ([None]) and NaN values
    ignored; [undefined] ([None]) when nothing is left. *)
Definition d3_max {A} (f : A -> option N) (arr : list A) : option N :=
  fold_left
    (fun mx a =>
       match f a, mx with
       | None, _ => mx
       | Some v, None => if v >=? v then Some v else None
       | Some v, Some m => if m <? v then Some v else mx
       end) arr None.

(** [d3.extent(arr, f)] on the values that are not [null]. *)
Definition d3_extent (vs : list N) : option (N * N) :=
  fold_left
    (fun e v =>
       match e with
       | None => if v >=? v then Some (v, v) else None
       | Some (mn, mx) =>
           Some (if mn >? v then v else mn, if mx <? v then v else mx)
       end) vs None.

(** [v || dflt] on an optional number. *)
Definition or_default (v : option N) (dflt : N) : N :=
  match v with
  | Some n => if truthy n then n else dflt
  | None => dflt
  end.

(** [d3.scaleLinear().domain([d0, d1]).range([r0, r1])] *)
Record LinearScale : Type := mkScale {
  domain0 : N; domain1 : N;
  range0  : N; range1  : N
}.

(** Calling the scale: the value is normalised over the domain (a domain of
    zero width normalises everything to [0.5]) and interpolated over the
    range. *)
Definition scale_apply (s : LinearScale) (v : N) : N :=
  let b := domain1 s - domain0 s in
  let t := if truthy b then (v - domain0 s) / b
           else if b <=? b then dec 5 10 else b in
  range0 s * (num 1 - t) + range1 s * t.

(** [scale.invert(y)]: the same map from the range back to the domain. *)
Definition scale_invert (s : LinearScale) (v : N) : N :=
  scale_apply (mkScale (range0 s) (range1 s) (domain0 s) (domain1 s)) v.

(** [this.someScale(v)] on a field that holds a scale or is still [null]:
    calling [null] raises. *)
Definition call_scale (s : option LinearScale) (v : N) : outcome N :=
  match s with
  | Some sc => Ok (scale_apply sc v)
  | None => TypeError
  end.

(** The same on an optional value.  What a d3 scale returns for a missing
    value differs between d3 versions (it is read as 0, or mapped to
    [undefined]); the model keeps such a coordinate apart as [None]. *)
Definition call_scale_opt (s : option LinearScale) (v : option N)
  : outcome (option N) :=
  match s with
  | Some sc => Ok (option_map (scale_apply sc) v)
  | None => TypeError
  end.

End D3.

Arguments LinearScale N : clear implicits.

(** ** Data model *)

Section Model.
Context {N : Type} `{JsNumber N}.
Local Open Scope js_scope.

(** One telemetry sample as the API delivers it.  The fields the charts test
    against [null] before use are optional. *)
Record TelemetryPoint : Type := mkPoint {
  distance : N;
  time_ms  : option N;
  speed    : option N;
  throttle : N;
  brake    : bool;
  rpm      : N;
  gear     : N;
  drs      : N;
  x        : option N;
  y        : option N
}.

(** A lap object.  [obj_id] stands for the identity of the JavaScript object:
    [a === b] on laps is equality of [obj_id]. *)
Record Lap : Type := mkLap {
  obj_id     : nat;
  driver_id  : string;
  lap_number : Z;
  telemetry  : option (list TelemetryPoint)
}.

Definition same_object (a b : Lap) : bool := Nat.eqb (obj_id a) (obj_id b).

Record ChartData : Type := mkData {
  laps : option (list Lap);
  selectedDistance : option N
}.

(** [lap.telemetry || []] *)
Definition telemetry_or_empty (l : Lap) : list TelemetryPoint :=
  match telemetry l with Some t => t | None => [] end.

(** [!data || !data.laps || data.laps.length === 0]: the guard every
    [setupScales] and [render] starts with.  [Some ls] is returned when the
    guard is false. *)
Definition loaded_laps (data : option ChartData) : option (list Lap) :=
  match data with
  | None => None
  | Some d =>
      match laps d with
      | None | Some [] => None
      | Some ls => Some ls
      end
  end.

(** ** Nearest-sample lookup

    [lap.telemetry.reduce((prev, curr) =>
        Math.abs(curr.distance - distance) < Math.abs(prev.distance - distance)
            ? curr : prev)] *)

Definition closer (target : N) (prev curr : TelemetryPoint) : TelemetryPoint :=
  if nabs (distance curr - target) <? nabs (distance prev - target)
  then curr else prev.

Definition nearestPoint (target : N) (tel : list TelemetryPoint)
  : outcome TelemetryPoint :=
  reduce1 (closer target) tel.

(** The per-lap body of [handleMouseMove] (both telemetry charts) and of
    [drawDistanceMarker]: laps without samples are skipped ([None]),
    otherwise the nearest sample is looked up. *)
Definition lapPointAt (target : N) (lap : Lap) : option (outcome TelemetryPoint) :=
  match telemetry lap with
  | None | Some [] => None
  | Some tel => Some (nearestPoint target tel)
  end.

End Model.

Arguments TelemetryPoint N : clear implicits.
Arguments Lap N : clear implicits.
Arguments ChartData N : clear implicits.

(** ** BaseChart *)

Section Base.
Context {N : Type} `{JsNumber N}.
Local Open Scope js_scope.

Record Margin : Type := mkMargin {
  margin_top : N; margin_right : N; margin_bottom : N; margin_left : N
}.

(** The fields of [BaseChart] the analysis depends on.  [container_width] and
    [container_height] are what [getBoundingClientRect()] reports for the
    container; [lastData] is [_lastData] ([None] while it is undefined or
    null). *)
Record BaseChart : Type := mkBase {
  margin           : Margin;
  container_width  : N;
  container_height : N;
  width            : N;
  height           : N;
  lastData         : option (ChartData N)
}.

(** [new BaseChart(container, {margin})] *)
Definition new_base (m : Margin) (cw ch : N) : BaseChart :=
  mkBase m cw ch (num 0) (num 0) None.

(** [init()]: the drawing area is the container minus the margins. *)
Definition init (c : BaseChart) : BaseChart :=
  let totalWidth :=
    if truthy (container_width c) then container_width c else num 800 in
  let totalHeight :=
    if truthy (container_height c) then container_height c else num 400 in
  mkBase (margin c) (container_width c) (container_height c)
    (totalWidth - margin_left (margin c) - margin_right (margin c))
    (totalHeight - margin_top (margin c) - margin_bottom (margin c))
    (lastData c).

Definition set_lastData (c : BaseChart) (data : option (ChartData N)) : BaseChart :=
  mkBase (margin c) (container_width c) (container_height c)
    (width c) (height c) data.

(** [v1 && v2] on optional numbers, as a condition. *)
Definition truthy_opt (v : option N) : bool :=
  match v with
  | Some n => truthy n
  | None => false
  end.

(** A missing field arrives as JSON [null], which arithmetic reads as 0. *)
Definition to_number (v : option N) : N :=
  match v with
  | Some n => n
  | None => num 0
  end.

End Base.

Arguments Margin N : clear implicits.
Arguments BaseChart N : clear implicits.

(** ** TelemetryChart *)

Module TelemetryChart.

Section Chart.
Context {N : Type} `{JsNumber N}.
Local Open Scope js_scope.

Record Chart : Type := mkChart {
  base        : BaseChart N;
  xScale      : option (LinearScale N);
  ySpeedScale : option (LinearScale N)
}.

(** [new TelemetryChart(container)] in a container of the given size. *)
Definition new_chart (cw ch : N) : Chart :=
  mkChart (new_base (mkMargin (num 30) (num 80) (num 50) (num 70)) cw ch)
    None None.

Definition setupScales (chart : Chart) (data : option (ChartData N)) : Chart :=
  match loaded_laps data with
  | None => chart
  | Some ls =>
      let allPoints := flat_map (@telemetry_or_empty N) ls in
      let maxDistance :=
        or_default (d3_max (fun d => Some (distance d)) allPoints) (num 5000) in
      let maxSpeed := or_default (d3_max (@speed N) allPoints) (num 350) in
      mkChart (base chart)
        (Some (mkScale (num 0) maxDistance (num 0) (width (base chart))))
        (Some (mkScale (num 0) (maxSpeed * dec 105 100)
                       (height (base chart)) (num 0)))
  end.

(** The vertices of the speed line of one lap: [d3.line()] calls both
    accessors on every sample. *)
Definition speedLine (chart : Chart) (tel : list (TelemetryPoint N))
  : outcome (list (N * option N)) :=
  map_outcome
    (fun d =>
       let* px := call_scale (xScale chart) (distance d) in
       let* py := call_scale_opt (ySpeedScale chart) (speed d) in
       Ok (px, py))
    tel.

(** What [render] leaves on the chart: the no-data message, or one speed
    line per lap that has samples. *)
Inductive Drawing : Type :=
| NoData
| Lines (paths : list (list (N * option N))).

(** [render(data)].  The grid and the axes are drawn from the two scales
    before any line, which raises while a scale is [null]. *)
Definition render (chart : Chart) (data : option (ChartData N)) : outcome Drawing :=
  match loaded_laps data with
  | None => Ok NoData
  | Some ls =>
      match xScale chart, ySpeedScale chart with
      | Some _, Some _ =>
          let* paths :=
            map_outcome
              (fun lap =>
                 match telemetry lap with
                 | None | Some [] => Ok []
                 | Some tel => let* path := speedLine chart tel in Ok [path]
                 end)
              ls in
          Ok (Lines (concat paths))
      | _, _ => TypeError
      end
  end.

(** [update(data)] of [BaseChart]: the chart when [setupScales] is done, on
    which [render] then draws. *)
Definition update (chart : Chart) (data : option (ChartData N)) : Chart :=
  setupScales
    (mkChart (init (set_lastData (base chart) data)) (xScale chart)
             (ySpeedScale chart))
    data.

(** A circle and its label put on the crosshair by [handleMouseMove]. *)
Record CrosshairMarker : Type := mkMarker {
  marker_lap   : nat;
  marker_point : TelemetryPoint N;
  marker_cx    : N;
  marker_cy    : option N;
  label_x      : N;
  label_y      : option N
}.

(** [handleMouseMove(event, data, crosshairGroup)] with the pointer at
    [mouseX], for the laps [ls] of the data the overlay was installed for. *)
Definition handleMouseMove (chart : Chart) (ls : list (Lap N)) (mouseX : N)
  : outcome (list CrosshairMarker) :=
  match xScale chart with
  | None => TypeError
  | Some xs =>
      let distance := scale_invert xs mouseX in
      let* markers :=
        map_outcome
          (fun il =>
             match lapPointAt distance (snd il) with
             | None => Ok []
             | Some found =>
                 let* point := found in
                 let* cy := call_scale_opt (ySpeedScale chart) (speed point) in
                 Ok [mkMarker (fst il) point mouseX cy (mouseX + num 10)
                       (option_map
                          (fun v => v + num (Z.of_nat (fst il)) * num 15 - num 5)
                          cy)]
             end)
          (indexed ls) in
      Ok (concat markers)
  end.

End Chart.

Arguments Chart N : clear implicits.
Arguments Drawing N : clear implicits.
Arguments CrosshairMarker N : clear implicits.

End TelemetryChart.

(** ** MultiTelemetryChart *)

Module MultiTelemetry.

Inductive Channel : Type := Speed | Delta | Throttle | Rpm | Gear | Drs.

Definition Channel_eqb (a b : Channel) : bool :=
  match a, b with
  | Speed, Speed | Delta, Delta | Throttle, Throttle
  | Rpm, Rpm | Gear, Gear | Drs, Drs => true
  | _, _ => false
  end.

Section Chart.
Context {N : Type} `{JsNumber N}.
Local Open Scope js_scope.

(** An entry of [channelScales]. *)
Record Band : Type := mkBand {
  band_y      : LinearScale N;
  band_height : N;
  band_offset : N
}.

Record Chart : Type := mkChart {
  base           : BaseChart N;
  channels       : list Channel;
  channelHeights : Channel -> N;
  xScale         : option (LinearScale N);
  channelScales  : Channel -> option Band;
  referenceLap   : option (Lap N)
}.

Definition default_channels : list Channel :=
  [Speed; Delta; Throttle; Rpm; Gear; Drs].

Definition default_channelHeights (c : Channel) : N :=
  match c with
  | Speed => dec 35 100
  | Delta => dec 15 100
  | Throttle => dec 15 100
  | Rpm => dec 15 100
  | Gear => dec 1 10
  | Drs => dec 1 10
  end.

(** [new MultiTelemetryChart(container)] in a container of the given size. *)
Definition new_chart (cw ch : N) : Chart :=
  mkChart (new_base (mkMargin (num 20) (num 80) (num 30) (num 60)) cw ch)
    default_channels default_channelHeights None (fun _ => None) None.

Definition getChannelDomain (channel : Channel) (points : list (TelemetryPoint N))
  : N * N :=
  match channel with
  | Speed => (num 0, or_default (d3_max (@speed N) points) (num 350) * dec 105 100)
  | Delta => (num (-2), num 2)
  | Throttle => (num 0, num 100)
  | Rpm => (num 0, or_default (d3_max (fun d => Some (rpm d)) points) (num 15000)
                    * dec 105 100)
  | Gear => (num 0, num 8)
  | Drs => (num 0, num 1)
  end.

Definition padding : N := num 10.

(** One round of [this.channels.forEach(channel => ...)] in [setupScales]:
    the state is the running [yOffset] and the bands assigned so far. *)
Definition layout_step (totalHeight : N) (heights : Channel -> N)
    (allPoints : list (TelemetryPoint N))
    (st : N * list (Channel * Band)) (channel : Channel)
  : N * list (Channel * Band) :=
  let yOffset := fst st in
  let channelHeight := totalHeight * heights channel - padding in
  let domain := getChannelDomain channel allPoints in
  let band :=
    mkBand (mkScale (fst domain) (snd domain) (yOffset + channelHeight) yOffset)
           channelHeight yOffset in
  (yOffset + (channelHeight + padding), snd st ++ [(channel, band)]).

Definition layoutBands (totalHeight : N) (heights : Channel -> N)
    (chans : list Channel) (allPoints : list (TelemetryPoint N))
  : list (Channel * Band) :=
  snd (fold_left (layout_step totalHeight heights allPoints) chans (num 0, [])).

(** [this.channelScales[channel] = band] *)
Definition assign_scale (m : Channel -> option Band) (cb : Channel * Band)
  : Channel -> option Band :=
  fun c => if Channel_eqb c (fst cb) then Some (snd cb) else m c.

Definition setupScales (chart : Chart) (data : option (ChartData N)) : Chart :=
  match loaded_laps data with
  | None => chart
  | Some ls =>
      let allPoints := flat_map (@telemetry_or_empty N) ls in
      let maxDistance :=
        or_default (d3_max (fun d => Some (distance d)) allPoints) (num 5000) in
      let bands :=
        layoutBands (height (base chart)) (channelHeights chart)
                    (channels chart) allPoints in
      mkChart (base chart) (channels chart) (channelHeights chart)
        (Some (mkScale (num 0) maxDistance (num 0) (width (base chart))))
        (fold_left assign_scale bands (channelScales chart))
        (match ls with
         | first :: _ => Some first
         | [] => referenceLap chart
         end)
  end.

(** [calculateDelta(point, lap, data)] *)
Definition calculateDelta (chart : Chart) (point : TelemetryPoint N) (lap : Lap N)
  : outcome N :=
  match referenceLap chart with
  | None => Ok (num 0)
  | Some ref =>
      match telemetry ref with
      | None => Ok (num 0)
      | Some refTelemetry =>
          if same_object lap ref then Ok (num 0)
          else
            let* refPoint := nearestPoint (distance point) refTelemetry in
            if truthy_opt (time_ms point) && truthy_opt (time_ms refPoint)
            then Ok ((to_number (time_ms point) - to_number (time_ms refPoint))
                     / num 1000)
            else
              let speedDiff := to_number (speed refPoint) - to_number (speed point) in
              Ok (speedDiff * dec 1 100)
      end
  end.

(** The values of the delta channel that [drawChannelData] plots for a lap:
    [getValue] of every sample, in order. *)
Fixpoint deltaTrace (chart : Chart) (lap : Lap N) (tel : list (TelemetryPoint N))
  : outcome (list N) :=
  match tel with
  | [] => Ok []
  | point :: rest =>
      let* d := calculateDelta chart point lap in
      let* ds := deltaTrace chart lap rest in
      Ok (d :: ds)
  end.

(** A rectangle appended to the DRS channel. *)
Record Rect : Type := mkRect {
  rect_x : N; rect_y : N; rect_width : N; rect_height : N
}.

Definition drsOn (point : TelemetryPoint N) : bool :=
  truthy (drs point) && (drs point >? num 0).

(** One round of [lap.telemetry.forEach] in the DRS branch of
    [drawChannelData]: the state is [drsStart] and the rectangles appended so
    far. *)
Definition drs_step (xs : LinearScale N) (scale : Band)
    (st : option N * list Rect) (point : TelemetryPoint N)
  : option N * list Rect :=
  match drsOn point, fst st with
  | true, None => (Some (distance point), snd st)
  | false, Some drsStart =>
      (None,
       snd st ++ [mkRect (scale_apply xs drsStart) (band_offset scale)
                    (scale_apply xs (distance point) - scale_apply xs drsStart)
                    (band_height scale)])
  | _, _ => st
  end.

Definition drawDrs (xs : LinearScale N) (scale : Band)
    (tel : list (TelemetryPoint N)) : list Rect :=
  snd (fold_left (drs_step xs scale) tel (None, [])).

(** [update(data)] of [BaseChart] with this class's [setupScales].  [render]
    only appends SVG elements; the result is the state of the fields when
    [update] is left. *)
Definition update (chart : Chart) (data : option (ChartData N)) : Chart :=
  let c1 := mkChart (init (set_lastData (base chart) data)) (channels chart)
              (channelHeights chart) (xScale chart) (channelScales chart)
              (referenceLap chart) in
  setupScales c1 data.

(** [setReferenceLap(lap)] *)
Definition setReferenceLap (chart : Chart) (lap : option (Lap N)) : Chart :=
  let c1 := mkChart (base chart) (channels chart) (channelHeights chart)
              (xScale chart) (channelScales chart) lap in
  match lastData (base c1) with
  | Some d => update c1 (Some d)
  | None => c1
  end.

(** *** Rendering *)

(** What [drawChannelData] appends for one lap: the throttle area with the
    brake overlay (the upper edge of each, per sample), the DRS rectangles, or
    the vertices of a line (stepped for the gear). *)
Inductive Trace : Type :=
| Area (throttleEdge brakeEdge : list (N * N))
| Rects (rects : list Rect)
| StepLine (vertices : list (N * option N))
| Line (vertices : list (N * option N)).

(** The y coordinate of a sample on a line channel: [scale.y(getValue(d))]. *)
Definition lineY (chart : Chart) (channel : Channel) (scale : Band) (lap : Lap N)
    (d : TelemetryPoint N) : outcome (option N) :=
  match channel with
  | Speed => Ok (option_map (scale_apply (band_y scale)) (speed d))
  | Throttle => Ok (Some (scale_apply (band_y scale) (throttle d)))
  | Rpm => Ok (Some (scale_apply (band_y scale) (rpm d)))
  | Gear => Ok (Some (scale_apply (band_y scale) (gear d)))
  | Drs => Ok (Some (scale_apply (band_y scale)
                       (if truthy (drs d) then num 1 else num 0)))
  | Delta =>
      let* v := calculateDelta chart d lap in
      Ok (Some (scale_apply (band_y scale) v))
  end.

Definition lineVertices (chart : Chart) (channel : Channel) (scale : Band)
    (lap : Lap N) (tel : list (TelemetryPoint N)) : outcome (list (N * option N)) :=
  map_outcome
    (fun d =>
       let* px := call_scale (xScale chart) (distance d) in
       let* py := lineY chart channel scale lap d in
       Ok (px, py))
    tel.

(** [drawChannelData(g, channel, lap, index, data)] for a lap with samples
    [tel]; [scale] is [this.channelScales[channel]].  The DRS branch calls
    the x scale only when it appends a rectangle. *)
Definition drawChannelData (chart : Chart) (channel : Channel) (scale : Band)
    (lap : Lap N) (tel : list (TelemetryPoint N)) : outcome Trace :=
  match channel with
  | Throttle =>
      let* throttleEdge :=
        map_outcome
          (fun d =>
             let* px := call_scale (xScale chart) (distance d) in
             Ok (px, scale_apply (band_y scale) (throttle d)))
          tel in
      let* brakeEdge :=
        map_outcome
          (fun d =>
             let* px := call_scale (xScale chart) (distance d) in
             Ok (px, scale_apply (band_y scale)
                       (if brake d then num 100 else num 0)))
          tel in
      Ok (Area throttleEdge brakeEdge)
  | Drs =>
      match xScale chart with
      | Some xs => Ok (Rects (drawDrs xs scale tel))
      | None =>
          match drawDrs (mkScale (num 0) (num 0) (num 0) (num 0)) scale tel with
          | [] => Ok (Rects [])
          | _ :: _ => TypeError
          end
      end
  | Gear =>
      let* vertices := lineVertices chart channel scale lap tel in
      Ok (StepLine vertices)
  | Speed | Rpm | Delta =>
      let* vertices := lineVertices chart channel scale lap tel in
      Ok (Line vertices)
  end.

(** [drawChannel(channel, data)]: the band's scale is read first (reading
    [offset] of an unassigned entry raises), then every lap that has samples
    is drawn. *)
Definition drawChannel (chart : Chart) (ls : list (Lap N)) (channel : Channel)
  : outcome (list Trace) :=
  match channelScales chart channel with
  | None => TypeError
  | Some scale =>
      let* traces :=
        map_outcome
          (fun lap =>
             match telemetry lap with
             | None | Some [] => Ok []
             | Some tel =>
                 let* trace := drawChannelData chart channel scale lap tel in
                 Ok [trace]
             end)
          ls in
      Ok (concat traces)
  end.

(** What [render] leaves on the chart: the no-data message, or the traces of
    every channel, in the order of [channels]. *)
Inductive Drawing : Type :=
| NoData
| Channels (traces : list (Channel * list Trace)).

Definition render (chart : Chart) (data : option (ChartData N)) : outcome Drawing :=
  match loaded_laps data with
  | None => Ok NoData
  | Some ls =>
      let* traces :=
        map_outcome
          (fun channel =>
             let* ts := drawChannel chart ls channel in Ok (channel, ts))
          (channels chart) in
      Ok (Channels traces)
  end.

(** A circle put on the speed band by [handleMouseMove], and the line of
    its first label. *)
Record CrosshairMarker : Type := mkMarker {
  marker_lap   : nat;
  marker_point : TelemetryPoint N;
  marker_cx    : N;
  marker_cy    : option N;
  label_y      : N
}.

(** [handleMouseMove(event, data, crosshairGroup)] with the pointer at
    [mouseX], for the laps [ls] of the data the overlay was installed for. *)
Definition handleMouseMove (chart : Chart) (ls : list (Lap N)) (mouseX : N)
  : outcome (list CrosshairMarker) :=
  match xScale chart with
  | None => TypeError
  | Some xs =>
      let distance := scale_invert xs mouseX in
      let* markers :=
        map_outcome
          (fun il =>
             match lapPointAt distance (snd il) with
             | None => Ok []
             | Some found =>
                 let* point := found in
                 match channelScales chart Speed with
                 | None => TypeError
                 | Some speedScale =>
                     Ok [mkMarker (fst il) point mouseX
                           (option_map (scale_apply (band_y speedScale))
                                       (speed point))
                           (band_offset speedScale + num 15
                            + num (Z.of_nat (fst il)) * num 45)]
                 end
             end)
          (indexed ls) in
      Ok (concat markers)
  end.

End Chart.

Arguments Band N : clear implicits.
Arguments Chart N : clear implicits.
Arguments Rect N : clear implicits.
Arguments Trace N : clear implicits.
Arguments Drawing N : clear implicits.
Arguments CrosshairMarker N : clear implicits.

End MultiTelemetry.

(** ** TrackMapChart *)

Module TrackMap.

Section Chart.
Context {N : Type} `{JsNumber N}.
Local Open Scope js_scope.

(** [p.x != null && p.y != null] *)
Definition has_position (p : TelemetryPoint N) : bool :=
  match x p, y p with
  | Some _, Some _ => true
  | _, _ => false
  end.

(** The non-null values of an optional field over a sample list: what
    [d3.extent(points, accessor)] looks at. *)
Definition values (f : TelemetryPoint N -> option N) (points : list (TelemetryPoint N))
  : list N :=
  flat_map (fun p => match f p with Some v => [v] | None => [] end) points.

(** A sample that passed the filter of [detectAndDrawTurns]: position and
    speed are all present. *)
Record TrackPoint : Type := mkTrackPoint {
  tp_x : N; tp_y : N; tp_distance : N; tp_speed : N
}.

(** [telemetry.filter(p => p.x != null && p.y != null && p.speed != null)] *)
Definition track_points (tel : list (TelemetryPoint N)) : list TrackPoint :=
  flat_map
    (fun p =>
       match x p, y p, speed p with
       | Some px, Some py, Some ps => [mkTrackPoint px py (distance p) ps]
       | _, _, _ => []
       end) tel.

(** An entry of [turns]. *)
Record Turn : Type := mkTurn {
  turn_x : N; turn_y : N; turn_distance : N; turn_speed : N; turn_index : nat
}.

Record Chart : Type := mkChart {
  base        : BaseChart N;
  xScale      : option (LinearScale N);
  yScale      : option (LinearScale N);
  turnMarkers : list Turn
}.

(** [new TrackMapChart(container)] in a container of the given size. *)
Definition new_chart (cw ch : N) : Chart :=
  mkChart (new_base (mkMargin (num 20) (num 20) (num 20) (num 20)) cw ch)
    None None [].

(** The arithmetic of [setupScales] once the extents are known, with every
    intermediate value kept. *)
Record Projection : Type := mkProjection {
  dataWidth   : N;
  dataHeight  : N;
  dataAspect  : N;
  chartAspect : N;
  scale       : N;
  offsetX     : N;
  offsetY     : N;
  proj_x      : LinearScale N;
  proj_y      : LinearScale N
}.

Definition project (w h : N) (xExtent yExtent : N * N) : Projection :=
  let dataWidth := snd xExtent - fst xExtent in
  let dataHeight := snd yExtent - fst yExtent in
  let dataAspect := dataWidth / dataHeight in
  let chartAspect := w / h in
  let scale :=
    if dataAspect >? chartAspect then w / dataWidth else h / dataHeight in
  let offsetX := (w - dataWidth * scale) / num 2 in
  let offsetY := (h - dataHeight * scale) / num 2 in
  mkProjection dataWidth dataHeight dataAspect chartAspect scale offsetX offsetY
    (mkScale (fst xExtent) (snd xExtent) offsetX (offsetX + dataWidth * scale))
    (mkScale (fst yExtent) (snd yExtent) (h - offsetY) offsetY).

(** What a call of [setupScales] does: it returns early, at one of its two
    guards, or it reaches the arithmetic. *)
Inductive Setup : Type :=
| NoLaps
| NoPositions
| Projected (p : Projection).

(** [d3.extent] is given a non-empty list of non-null numbers here; it
    leaves both ends undefined only when every value is NaN, and the
    arithmetic done on undefined ends is not modelled: that case is filed
    under [NoPositions]. *)
Definition setup (chart : Chart) (data : option (ChartData N)) : Setup :=
  match loaded_laps data with
  | None => NoLaps
  | Some ls =>
      let allPoints :=
        flat_map (fun l => filter has_position (telemetry_or_empty l)) ls in
      match allPoints with
      | [] => NoPositions
      | _ :: _ =>
          match d3_extent (values (@x N) allPoints),
                d3_extent (values (@y N) allPoints) with
          | Some xExtent, Some yExtent =>
              Projected (project (width (base chart)) (height (base chart))
                                 xExtent yExtent)
          | _, _ => NoPositions
          end
      end
  end.

Definition setupScales (chart : Chart) (data : option (ChartData N)) : Chart :=
  match setup chart data with
  | Projected p =>
      mkChart (base chart) (Some (proj_x p)) (Some (proj_y p)) (turnMarkers chart)
  | _ => chart
  end.

(** *** Corner detection *)

Definition windowSize : nat := 20.
Definition speedThreshold : N := dec 85 100.

(** [for (let j = i - windowSize; j <= i + windowSize; j++)
       if (j !== i) surroundingSpeeds.push(points[j].speed)] *)
Definition surrounding (points : list TrackPoint) (i : nat) : outcome (list N) :=
  for_each
    (fun speeds j =>
       if Nat.eqb j i then Ok speeds
       else let* pj := at_index points j in Ok (speeds ++ [tp_speed pj]))
    (seq (i - windowSize) (2 * windowSize + 1)) [].

(** [surroundingSpeeds.reduce((a, b) => a + b, 0) / surroundingSpeeds.length] *)
Definition average (speeds : list N) : N :=
  fold_left nadd speeds (num 0) / num (Z.of_nat (List.length speeds)).

(** The inner loop over [i - 5 .. i + 5]: no sample other than [i] in range
    is strictly slower.  [j >= 0] always holds, since [i >= windowSize];
    [j < points.length] is the [None] case of the lookup. *)
Definition isMinimum (points : list TrackPoint) (i : nat) (currentSpeed : N) : bool :=
  forallb
    (fun j =>
       negb (negb (Nat.eqb j i) &&
             match nth_error points j with
             | Some pj => tp_speed pj <? currentSpeed
             | None => false
             end))
    (seq (i - 5) 11).

(** The body of the main loop at index [i]. *)
Definition turn_step (points : list TrackPoint) (turns : list Turn) (i : nat)
  : outcome (list Turn) :=
  let* pi := at_index points i in
  let currentSpeed := tp_speed pi in
  let* surroundingSpeeds := surrounding points i in
  let avgSurrounding := average surroundingSpeeds in
  if currentSpeed <? avgSurrounding * speedThreshold then
    if isMinimum points i currentSpeed then
      let push :=
        turns ++ [mkTurn (tp_x pi) (tp_y pi) (tp_distance pi) currentSpeed
                         (List.length turns + 1)] in
      match last_element turns with
      | None => Ok push
      | Some lastTurn =>
          if nabs (tp_distance pi - turn_distance lastTurn) >? num 200
          then Ok push else Ok turns
      end
    else Ok turns
  else Ok turns.

(** [for (let i = windowSize; i < points.length - windowSize; i++)] *)
Definition detectTurns (points : list TrackPoint) : outcome (list Turn) :=
  for_each (turn_step points)
    (seq windowSize (List.length points - windowSize - windowSize)) [].

(** A numbered circle at a corner. *)
Record TurnMarker : Type := mkTurnMarker {
  marker_x : N; marker_y : N; marker_text : nat
}.

(** [turns.forEach(turn => ...)], the loop that draws the markers: both
    scales are called for every corner, which raises while one of them is
    [null]. *)
Definition drawTurnMarkers (chart : Chart) (turns : list Turn)
  : outcome (list TurnMarker) :=
  map_outcome
    (fun turn =>
       let* px := call_scale (xScale chart) (turn_x turn) in
       let* py := call_scale (yScale chart) (turn_y turn) in
       Ok (mkTurnMarker px py (turn_index turn)))
    turns.

(** [detectAndDrawTurns(telemetry)]: the corners found, the circles drawn
    for them, and the chart afterwards.  [this.turnMarkers] is assigned last,
    after the drawing loop; with fewer than 10 kept samples the function
    returns before anything is found, drawn or assigned. *)
Definition detectAndDrawTurns (chart : Chart) (tel : list (TelemetryPoint N))
  : outcome (list Turn * list TurnMarker * Chart) :=
  let points := track_points tel in
  if (List.length points <? 10)%nat then Ok ([], [], chart)
  else
    let* turns := detectTurns points in
    let* circles := drawTurnMarkers chart turns in
    Ok (turns, circles, mkChart (base chart) (xScale chart) (yScale chart) turns).

(** *** Drawing *)

(** [telemetry.filter(p => p.x != null && p.y != null)]: the kept samples,
    each with the two coordinates the line accessors read. *)
Definition positions (tel : list (TelemetryPoint N)) : list (N * N) :=
  flat_map
    (fun p =>
       match x p, y p with
       | Some px, Some py => [(px, py)]
       | _, _ => []
       end) tel.

(** [d3.line().x(d => this.xScale(d.x)).y(d => this.yScale(d.y))] applied to
    the kept samples: the vertices the curve is drawn through. *)
Definition line (chart : Chart) (points : list (N * N)) : outcome (list (N * N)) :=
  map_outcome
    (fun d =>
       let* px := call_scale (xScale chart) (fst d) in
       let* py := call_scale (yScale chart) (snd d) in
       Ok (px, py))
    points.

(** [drawTrackOutline(telemetry)]: nothing, or the same path twice (the wide
    outline and the centre line). *)
Definition drawTrackOutline (chart : Chart) (tel : list (TelemetryPoint N))
  : outcome (list (list (N * N))) :=
  match positions tel with
  | [] => Ok []
  | points =>
      let* outline := line chart points in
      let* center := line chart points in
      Ok [outline; center]
  end.

(** [drawLapTrace(lap, index, selectedDistance)]: nothing, or one path.  The
    speed range computed on the way is not used. *)
Definition drawLapTrace (chart : Chart) (tel : list (TelemetryPoint N))
  : outcome (list (list (N * N))) :=
  match positions tel with
  | [] => Ok []
  | points => let* path := line chart points in Ok [path]
  end.

(** [addLegend(laps)]: one entry per lap, 20 apart. *)
Definition addLegend (ls : list (Lap N)) : list (N * string * Z) :=
  map (fun il => (num (Z.of_nat (fst il)) * num 20,
                  driver_id (snd il), lap_number (snd il)))
      (indexed ls).

(** [drawDistanceMarker(data)]: for every lap with samples, a circle at the
    sample nearest to the selected distance, unless that sample has no
    position. *)
Definition drawDistanceMarker (chart : Chart) (ls : list (Lap N)) (distance : N)
  : outcome (list (nat * N * N)) :=
  let* circles :=
    map_outcome
      (fun il =>
         match lapPointAt distance (snd il) with
         | None => Ok []
         | Some found =>
             let* point := found in
             match x point, y point with
             | Some px, Some py =>
                 let* cx := call_scale (xScale chart) px in
                 let* cy := call_scale (yScale chart) py in
                 Ok [(fst il, cx, cy)]
             | _, _ => Ok []
             end
         end)
      (indexed ls) in
  Ok (concat circles).

Record Drawing : Type := mkDrawing {
  trackOutline    : list (list (N * N));
  turnCircles     : list TurnMarker;
  lapTraces       : list (list (N * N));
  legend          : list (N * string * Z);
  positionMarkers : list (nat * N * N)
}.

(** What [render] leaves on the chart: one of its two messages, or the
    drawing. *)
Inductive Rendered : Type :=
| NoTrackData
| NoPositionData
| Drawn (d : Drawing).

(** [l => (l.telemetry || []).some(p => p.x != null && p.y != null)] *)
Definition has_positions (l : Lap N) : bool :=
  existsb has_position (telemetry_or_empty l).

(** [render(data)]: what is drawn, and the chart afterwards. *)
Definition render (chart : Chart) (data : option (ChartData N))
  : outcome (Rendered * Chart) :=
  match loaded_laps data with
  | None => Ok (NoTrackData, chart)
  | Some ls =>
      if negb (existsb has_positions ls) then Ok (NoPositionData, chart)
      else
        let* firstDrawn :=
          match find has_positions ls with
          | Some firstLap =>
              match telemetry firstLap with
              | Some tel =>
                  let* outline := drawTrackOutline chart tel in
                  let* detected := detectAndDrawTurns chart tel in
                  Ok (outline, snd (fst detected), snd detected)
              | None => Ok ([], [], chart)
              end
          | None => Ok ([], [], chart)
          end in
        let '(outline, circles, chart1) := firstDrawn in
        let* traces :=
          map_outcome
            (fun lap =>
               match telemetry lap with
               | None | Some [] => Ok []
               | Some tel => drawLapTrace chart1 tel
               end)
            ls in
        let* circlesAt :=
          match data with
          | Some d =>
              match selectedDistance d with
              | Some distance => drawDistanceMarker chart1 ls distance
              | None => Ok []
              end
          | None => Ok []
          end in
        Ok (Drawn (mkDrawing outline circles (concat traces) (addLegend ls)
                             circlesAt),
            chart1)
  end.

(** [update(data)] of [BaseChart]: the chart when [setupScales] is done, on
    which [render] then draws. *)
Definition update (chart : Chart) (data : option (ChartData N)) : Chart :=
  setupScales
    (mkChart (init (set_lastData (base chart) data)) (xScale chart)
             (yScale chart) (turnMarkers chart))
    data.

End Chart.

Arguments TrackPoint N : clear implicits.
Arguments Turn N : clear implicits.
Arguments Chart N : clear implicits.
Arguments Projection N : clear implicits.
Arguments Setup N : clear implicits.
Arguments TurnMarker N : clear implicits.
Arguments Drawing N : clear implicits.
Arguments Rendered N : clear implicits.

End TrackMap.

(** ** The application: updating the three telemetry charts *)

Module App.

Section Charts.
Context {N : Type} `{JsNumber N}.

(** [this.charts.telemetry], [this.charts.multiTelemetry] and
    [this.charts.trackMap]. *)
Record Charts : Type := mkCharts {
  telemetry      : TelemetryChart.Chart N;
  multiTelemetry : MultiTelemetry.Chart N;
  trackMap       : TrackMap.Chart N
}.

(** The three [update] calls that [loadSingleLapTelemetry] and
    [loadTelemetryComparison] make in their [try] block, one after the
    other: the charts afterwards, and whether the [catch] branch was taken.
    An [update] that raises in [render] has replaced the scales of its chart
    before; the charts after it are not reached. *)
Definition updateCharts (charts : Charts) (telemetryData : option (ChartData N))
  : Charts * bool :=
  let t1 := TelemetryChart.update (telemetry charts) telemetryData in
  match TelemetryChart.render t1 telemetryData with
  | TypeError => (mkCharts t1 (multiTelemetry charts) (trackMap charts), true)
  | Ok _ =>
      let m1 := MultiTelemetry.update (multiTelemetry charts) telemetryData in
      match MultiTelemetry.render m1 telemetryData with
      | TypeError => (mkCharts t1 m1 (trackMap charts), true)
      | Ok _ =>
          let k1 := TrackMap.update (trackMap charts) telemetryData in
          match TrackMap.render k1 telemetryData with
          | TypeError => (mkCharts t1 m1 k1, true)
          | Ok drawn => (mkCharts t1 m1 (snd drawn), false)
          end
      end
  end.

End Charts.

Arguments Charts N : clear implicits.

End App.

(** * Specification vocabulary

    Everything below is stated on the rational instance of the model. *)

Unset Implicit Arguments.
Local Open Scope Q_scope.

Abbreviation PointQ := (TelemetryPoint Q).
Abbreviation LapQ := (Lap Q).

(** A sample with the given distance and speed, the other channels at rest. *)
Definition sample (d s : Q) : PointQ :=
  mkPoint d None (Some s) 0 false 0 0 0 None None.

(** The same with a position. *)
Definition sample_at (d s px py : Q) : PointQ :=
  mkPoint d None (Some s) 0 false 0 0 0 (Some px) (Some py).

(** The same with a time offset. *)
Definition timed_sample (d s t : Q) : PointQ :=
  mkPoint d (Some t) (Some s) 0 false 0 0 0 None None.

Section FirstMin.
Context {A : Type}.
Variable cost : A -> Q.

Definition keep_lower (prev curr : A) : A :=
  if Qltb (cost curr) (cost prev) then curr else prev.

(** [p] sits at index [i] of [l], nothing in [l] is cheaper, and everything
    before [i] is strictly more expensive. *)
Definition first_min (l : list A) (i : nat) (p : A) : Prop :=
  nth_error l i = Some p /\
  (forall j q, nth_error l j = Some q -> cost p <= cost q) /\
  (forall j q, (j < i)%nat -> nth_error l j = Some q -> cost p < cost q).

End FirstMin.

(** The cost the locator minimises. *)
Definition gap (target : Q) (p : PointQ) : Q :=
  Qabs (distance p - target).

(** ** Vocabulary of the channel layout *)

Abbreviation BandQ := (MultiTelemetry.Band Q).

(** The stack the design document describes, as (offset, height) pairs: each
    band is [totalHeight * weight - padding] high and starts at the previous
    band's end plus the padding. *)
Fixpoint stacked (totalHeight : Q) (weight : MultiTelemetry.Channel -> Q)
    (chans : list MultiTelemetry.Channel) (start : Q) : list (Q * Q) :=
  match chans with
  | [] => []
  | c :: rest =>
      let h := totalHeight * weight c - 10 in
      (start, h) :: stacked totalHeight weight rest ((start + h) + 10)
  end.

Definition same_geometry (cb : MultiTelemetry.Channel * BandQ) (e : Q * Q) : Prop :=
  MultiTelemetry.band_offset (snd cb) == fst e /\
  MultiTelemetry.band_height (snd cb) == snd e.

Definition heights_sum (bands : list (MultiTelemetry.Channel * BandQ)) : Q :=
  fold_right (fun cb acc => MultiTelemetry.band_height (snd cb) + acc) 0 bands.

Definition weights_sum (weight : MultiTelemetry.Channel -> Q)
    (chans : list MultiTelemetry.Channel) : Q :=
  fold_right (fun c acc => weight c + acc) 0 chans.

Definition count {A : Type} (l : list A) : Q :=
  inject_Z (Z.of_nat (List.length l)).

(** ** Two laps on a chart

    Lap A is loaded first, lap B second; B's first sample is taken at the
    start of the lap, at time offset 0. *)

Definition lapA : LapQ :=
  mkLap 1 "VER" 12 (Some [timed_sample 5 280 100; timed_sample 60 290 900]).

Definition lapB : LapQ :=
  mkLap 2 "NOR" 14 (Some [timed_sample 0 300 0; timed_sample 55 310 800]).

Definition two_laps : ChartData Q := mkData (Some [lapA; lapB]) None.

(** The chart after [new MultiTelemetryChart(container).update(two_laps)] in
    a container of 800 by 450. *)
Definition chartAB : MultiTelemetry.Chart Q :=
  MultiTelemetry.update (MultiTelemetry.new_chart 800 450) (Some two_laps).

(** The same laps and chart on doubles. *)
Definition timed_sampleF (d s t : float) : TelemetryPoint float :=
  mkPoint d (Some t) (Some s) 0%float false 0%float 0%float 0%float None None.

Definition lapAF : Lap float :=
  mkLap 1 "VER" 12 (Some [timed_sampleF 5 280 100; timed_sampleF 60 290 900]).

Definition lapBF : Lap float :=
  mkLap 2 "NOR" 14 (Some [timed_sampleF 0 300 0; timed_sampleF 55 310 800]).

Definition chartABF : MultiTelemetry.Chart float :=
  MultiTelemetry.update (MultiTelemetry.new_chart 800%float 450%float)
    (Some (mkData (Some [lapAF; lapBF]) None)).

(** ** Vocabulary of the DRS channel *)

(** The rectangle from an activating sample to a closing sample. *)
Definition drs_rect (xs : LinearScale Q) (scale : BandQ) (opening closing : PointQ)
  : MultiTelemetry.Rect Q :=
  MultiTelemetry.mkRect
    (scale_apply xs (distance opening))
    (MultiTelemetry.band_offset scale)
    (scale_apply xs (distance closing) - scale_apply xs (distance opening))
    (MultiTelemetry.band_height scale).

(** [r] spans from a sample with DRS active to a later sample with DRS
    inactive. *)
Definition closed_by_inactive (xs : LinearScale Q) (scale : BandQ)
    (tel : list PointQ) (r : MultiTelemetry.Rect Q) : Prop :=
  exists i j opening closing,
    (i < j)%nat /\
    nth_error tel i = Some opening /\ nth_error tel j = Some closing /\
    0 < drs opening /\ ~ 0 < drs closing /\
    r = drs_rect xs scale opening closing.

(** Six samples, 10 apart, with DRS open on the second and third and again
    on the last two; an x scale over them and a band to draw into. *)
Definition drs_sample (d code : Q) : PointQ :=
  mkPoint d None (Some 300) 100 false 11000 8 code None None.

Definition drs_body : list PointQ :=
  [drs_sample 0 0; drs_sample 10 12; drs_sample 20 12; drs_sample 30 0;
   drs_sample 40 12].

Definition drs_final : PointQ := drs_sample 50 14.

Definition drs_xScale : LinearScale Q := mkScale 0 50 0 760.

Definition drs_band : BandQ :=
  MultiTelemetry.mkBand (mkScale 0 1 400 370) 30 370.

(** ** Vocabulary of the track projection *)

(** The samples [setupScales] of the track map keeps: those of all laps that
    carry a position. *)
Definition positioned (ls : list LapQ) : list PointQ :=
  flat_map (fun l => filter TrackMap.has_position (telemetry_or_empty l)) ls.

(** Two kept samples differ in [x], in [y]: the bounding box has a positive
    width, height. *)
Definition spans_x (ls : list LapQ) : Prop :=
  exists a b va vb,
    In a (positioned ls) /\ In b (positioned ls) /\
    x a = Some va /\ x b = Some vb /\ va < vb.

Definition spans_y (ls : list LapQ) : Prop :=
  exists a b va vb,
    In a (positioned ls) /\ In b (positioned ls) /\
    y a = Some va /\ y b = Some vb /\ va < vb.

(** Width of the range of the x scale and, the y range running from bottom
    to top, height of the range of the y scale. *)
Definition projectedWidth (p : TrackMap.Projection Q) : Q :=
  range1 (TrackMap.proj_x p) - range0 (TrackMap.proj_x p).

Definition projectedHeight (p : TrackMap.Projection Q) : Q :=
  range0 (TrackMap.proj_y p) - range1 (TrackMap.proj_y p).

(** A track map in a container of 800 by 400, and a lap whose samples all
    sit at the same position, on doubles. *)
Definition trackF : TrackMap.Chart float :=
  TrackMap.mkChart
    (init (new_base (mkMargin 20%float 20%float 20%float 20%float)
                    800%float 400%float))
    None None [].

Definition parkedF (d : float) : TelemetryPoint float :=
  mkPoint d None (Some 0%float) 0%float false 0%float 0%float 0%float
    (Some 0%float) (Some 0%float).

Definition parked_dataF : option (ChartData float) :=
  Some (mkData (Some [mkLap 1 "VER" 1 (Some [parkedF 0; parkedF 10; parkedF 20])])
               None).

(** The same on rationals. *)
Definition trackQ : TrackMap.Chart Q :=
  TrackMap.mkChart (init (new_base (mkMargin 20 20 20 20) 800 400)) None None [].

Definition parked_dataQ : option (ChartData Q) :=
  Some (mkData (Some [mkLap 1 "VER" 1
                        (Some [sample_at 0 0 0 0; sample_at 10 0 0 0;
                               sample_at 20 0 0 0])])
               None).

(** A lap around a 400 by 100 rectangle. *)
Definition box_lapQ : LapQ :=
  mkLap 1 "VER" 1
    (Some [sample_at 0 100 0 0; sample_at 400 100 400 0;
           sample_at 500 100 400 100; sample_at 900 100 0 100]).

Definition box_dataQ : option (ChartData Q) :=
  Some (mkData (Some [box_lapQ]) None).

(** [lo] and [hi] are the least and the greatest value of the coordinate [f]
    over the kept samples of [ls]: each is the coordinate of a kept sample,
    and no kept sample lies outside. *)
Definition extent_of (f : PointQ -> option Q) (ls : list LapQ) (lo hi : Q) : Prop :=
  (exists q, In q (positioned ls) /\ f q = Some lo) /\
  (exists q, In q (positioned ls) /\ f q = Some hi) /\
  forall q v, In q (positioned ls) -> f q = Some v -> lo <= v <= hi.

(** What the design document asks of the projection [p] of the laps [ls]
    into a drawing area of [w] by [h]: the domains are the bounding box of
    the kept samples ([xMin .. xMax] and [yMin .. yMax], each end attained),
    one scale factor (picked by comparing the aspect ratios, [w / (xMax -
    xMin)] or [h / (yMax - yMin)]) serves both axes, so the aspect ratio of
    the box is kept, the projected box is centred, and the y axis runs
    upwards. *)
Definition faithful_projection (w h : Q) (ls : list LapQ) (p : TrackMap.Projection Q)
  : Prop :=
  extent_of (@x Q) ls (domain0 (TrackMap.proj_x p)) (domain1 (TrackMap.proj_x p)) /\
  extent_of (@y Q) ls (domain0 (TrackMap.proj_y p)) (domain1 (TrackMap.proj_y p)) /\
  TrackMap.dataWidth p
  = domain1 (TrackMap.proj_x p) - domain0 (TrackMap.proj_x p) /\
  TrackMap.dataHeight p
  = domain1 (TrackMap.proj_y p) - domain0 (TrackMap.proj_y p) /\
  0 < TrackMap.dataWidth p /\ 0 < TrackMap.dataHeight p /\
  (w / h < TrackMap.dataWidth p / TrackMap.dataHeight p ->
     TrackMap.scale p = w / TrackMap.dataWidth p) /\
  (~ w / h < TrackMap.dataWidth p / TrackMap.dataHeight p ->
     TrackMap.scale p = h / TrackMap.dataHeight p) /\
  0 < TrackMap.scale p /\
  projectedWidth p == TrackMap.dataWidth p * TrackMap.scale p /\
  projectedHeight p == TrackMap.dataHeight p * TrackMap.scale p /\
  projectedWidth p / projectedHeight p
  == TrackMap.dataWidth p / TrackMap.dataHeight p /\
  range0 (TrackMap.proj_x p) - 0 == w - range1 (TrackMap.proj_x p) /\
  range1 (TrackMap.proj_y p) - 0 == h - range0 (TrackMap.proj_y p) /\
  range1 (TrackMap.proj_y p) < range0 (TrackMap.proj_y p) /\
  (forall v, scale_apply (TrackMap.proj_x p) v
             == range0 (TrackMap.proj_x p)
                + (v - domain0 (TrackMap.proj_x p)) * TrackMap.scale p) /\
  (forall v, scale_apply (TrackMap.proj_y p) v
             == range0 (TrackMap.proj_y p)
                - (v - domain0 (TrackMap.proj_y p)) * TrackMap.scale p).

(** ** Vocabulary of the corner detector *)

Abbreviation TrackPointQ := (TrackMap.TrackPoint Q).
Abbreviation TurnQ := (TrackMap.Turn Q).

(** [samples[i].distance <= samples[i+1].distance] for every adjacent pair. *)
Definition sorted_by_distance (tel : list PointQ) : Prop :=
  Sorted (fun a b => distance a <= distance b) tel.

Definition strictly_ordered (markers : list TurnQ) : Prop :=
  forall j k a b,
    (j < k)%nat -> nth_error markers j = Some a -> nth_error markers k = Some b ->
    TrackMap.turn_distance a < TrackMap.turn_distance b.

Definition well_separated (markers : list TurnQ) : Prop :=
  forall k a b,
    nth_error markers k = Some a -> nth_error markers (S k) = Some b ->
    200 < TrackMap.turn_distance b - TrackMap.turn_distance a.

Definition numbered_from_one (markers : list TurnQ) : Prop :=
  forall k a, nth_error markers k = Some a -> TrackMap.turn_index a = S k.

(** Speed profiles, on the samples the detector keeps. *)
Definition constant_speed (c : Q) (points : list TrackPointQ) : Prop :=
  Forall (fun p => TrackMap.tp_speed p == c) points.

Definition strictly_increasing_speed (points : list TrackPointQ) : Prop :=
  forall k a b,
    nth_error points k = Some a -> nth_error points (S k) = Some b ->
    TrackMap.tp_speed a < TrackMap.tp_speed b.

Definition strictly_decreasing_speed (points : list TrackPointQ) : Prop :=
  forall k a b,
    nth_error points k = Some a -> nth_error points (S k) = Some b ->
    TrackMap.tp_speed b < TrackMap.tp_speed a.

(** [n] samples, 10 apart along a straight line, all at speed [v]. *)
Definition flat_profile (v : Q) (n : nat) : list PointQ :=
  map (fun k => let d := inject_Z (Z.of_nat k) * 10 in sample_at d v d 0)
      (seq 0 n).

(** [n] samples, 10 apart, at 300 except for the ten samples from index 45
    to 54, which are at 200. *)
Definition one_dip (n : nat) : list PointQ :=
  map (fun k =>
         let d := inject_Z (Z.of_nat k) * 10 in
         sample_at d (if (45 <=? k)%nat && (k <? 55)%nat then 200 else 300) d 0)
      (seq 0 n).

(** The main loop only visits indices whose whole window is in range. *)
Definition window_in_range (points : list TrackPointQ) (i : nat) : Prop :=
  (TrackMap.windowSize <= i /\ i + TrackMap.windowSize < List.length points)%nat.

(** The state of the main loop before it visits index [i]: the markers are
    separated and numbered, and the last one was taken from a sample before
    [i]. *)
Definition markers_so_far (points : list TrackPointQ) (i : nat) (turns : list TurnQ)
  : Prop :=
  well_separated turns /\ numbered_from_one turns /\
  forall lastTurn,
    last_element turns = Some lastTurn ->
    exists k pk, (k < i)%nat /\ nth_error points k = Some pk /\
                 TrackMap.turn_distance lastTurn = TrackMap.tp_distance pk.

(** A sample recorded [c] milliseconds later. *)
Definition shift_time (c : Q) (p : PointQ) : PointQ :=
  mkPoint (distance p) (option_map (fun t => t + c) (time_ms p)) (speed p)
          (throttle p) (brake p) (rpm p) (gear p) (drs p) (x p) (y p).

(** No two samples share a distance. *)
Definition distinct_distances (tel : list PointQ) : Prop :=
  forall j k a b,
    nth_error tel j = Some a -> nth_error tel k = Some b ->
    distance a == distance b -> j = k.

(** A time offset that the estimator does not take for a value: missing,
    or 0. *)
Definition no_time_offset (p : PointQ) : Prop :=
  forall t, time_ms p = Some t -> t == 0.

(** DRS is active on sample [k] of [tel]. *)
Definition active (tel : list PointQ) (k : nat) : bool :=
  match nth_error tel k with
  | Some p => MultiTelemetry.drsOn p
  | None => false
  end.

(** Samples [i .. j-1] are one whole DRS opening, closed by sample [j]: they
    are all active, the sample before them (if any) is not, and sample [j]
    exists and is not. *)
Definition closed_run (tel : list PointQ) (i j : nat) : Prop :=
  (i < j)%nat /\ (j < List.length tel)%nat /\
  (forall k, (i <= k < j)%nat -> active tel k = true) /\
  active tel j = false /\
  (i = 0%nat \/ active tel (i - 1) = false).

(** Samples [i ..] are an opening still active on the last sample. *)
Definition pending_run (tel : list PointQ) (i : nat) : Prop :=
  (i < List.length tel)%nat /\
  (forall k, (i <= k < List.length tel)%nat -> active tel k = true) /\
  (i = 0%nat \/ active tel (i - 1) = false).

(** The rectangle [r] is the one of the closed run [i .. j]. *)
Definition rect_of_run (xs : LinearScale Q) (scale : BandQ) (tel : list PointQ)
    (r : MultiTelemetry.Rect Q) (i j : nat) : Prop :=
  exists opening closing,
    nth_error tel i = Some opening /\ nth_error tel j = Some closing /\
    r = drs_rect xs scale opening closing.

(** The state of the DRS loop after the samples [tel]. *)
Definition drs_state_ok (xs : LinearScale Q) (scale : BandQ) (tel : list PointQ)
    (st : option Q * list (MultiTelemetry.Rect Q)) : Prop :=
  (forall r, In r (snd st) <->
             exists i j, closed_run tel i j /\ rect_of_run xs scale tel r i j) /\
  match fst st with
  | Some drsStart =>
      exists i opening,
        pending_run tel i /\ nth_error tel i = Some opening /\
        drsStart = distance opening
  | None => tel = [] \/ active tel (List.length tel - 1) = false
  end.

(** A scale that grows with its argument. *)
Definition increasing_scale (s : LinearScale Q) : Prop :=
  domain0 s < domain1 s /\ range0 s <= range1 s.

(** ** Vocabulary of the drawings *)

(** The sample arrays of the laps that have samples, in lap order. *)
Definition sampled (ls : list LapQ) : list (list PointQ) :=
  flat_map (fun lap => match telemetry lap with
                       | Some (a :: rest) => [a :: rest]
                       | _ => []
                       end) ls.

(** The speed trace chart in a container of 800 by 400, showing laps A and
    B. *)
Definition speedAB : TelemetryChart.Chart Q :=
  TelemetryChart.update (TelemetryChart.new_chart 800 400) (Some two_laps).

(** The shape of a band, whatever its offset is. *)
Definition band_shape (H : Q) (w : MultiTelemetry.Channel -> Q) (pts : list PointQ)
    (cb : MultiTelemetry.Channel * BandQ) : Prop :=
  MultiTelemetry.band_height (snd cb) = H * w (fst cb) - 10 /\
  MultiTelemetry.band_y (snd cb)
  = mkScale (fst (MultiTelemetry.getChannelDomain (fst cb) pts))
            (snd (MultiTelemetry.getChannelDomain (fst cb) pts))
            (MultiTelemetry.band_offset (snd cb) + MultiTelemetry.band_height (snd cb))
            (MultiTelemetry.band_offset (snd cb)).

(** The marker [m] was taken from sample [i] of [points]: the sample has its
    whole window in range, is strictly below the threshold share of the
    average of the window around it, and no sample within 5 of it is
    strictly slower. *)
Definition corner_at (points : list TrackPointQ) (i : nat) (m : TurnQ) : Prop :=
  exists pi speeds,
    window_in_range points i /\
    nth_error points i = Some pi /\
    TrackMap.turn_x m = TrackMap.tp_x pi /\
    TrackMap.turn_y m = TrackMap.tp_y pi /\
    TrackMap.turn_distance m = TrackMap.tp_distance pi /\
    TrackMap.turn_speed m = TrackMap.tp_speed pi /\
    TrackMap.surrounding points i = Ok speeds /\
    TrackMap.tp_speed pi < TrackMap.average speeds * TrackMap.speedThreshold /\
    forall j pj, (i - 5 <= j <= i + 5)%nat -> nth_error points j = Some pj ->
                 TrackMap.tp_speed pi <= TrackMap.tp_speed pj.

(** Consecutive markers are more than 200 apart, in either direction. *)
Definition apart (markers : list TurnQ) : Prop :=
  forall k a b,
    nth_error markers k = Some a -> nth_error markers (S k) = Some b ->
    200 < Qabs (TrackMap.turn_distance b - TrackMap.turn_distance a).

(** The state of the main loop before it visits index [i], on any input. *)
Definition corners_so_far (points : list TrackPointQ) (i : nat) (turns : list TurnQ)
  : Prop :=
  (forall m, In m turns -> exists k, (k < i)%nat /\ corner_at points k m) /\
  apart turns /\ numbered_from_one turns /\
  (List.length turns + TrackMap.windowSize <= i)%nat.

(** [v] is where the two scales put the position of a kept sample of [ls]. *)
Definition projected_sample (sx sy : LinearScale Q) (ls : list LapQ) (v : Q * Q)
  : Prop :=
  exists q vx vy,
    In q (positioned ls) /\ x q = Some vx /\ y q = Some vy /\
    v = (scale_apply sx vx, scale_apply sy vy).

(** One of the two scales of the track map is still [null]. *)
Definition scales_missing (chart : TrackMap.Chart Q) : Prop :=
  TrackMap.xScale chart = None \/ TrackMap.yScale chart = None.

(** Every point a drawing puts on the chart satisfies [P]: the vertices of
    the outline and of the lap traces, the corner circles and the position
    markers. *)
Definition every_drawn_point (P : Q * Q -> Prop) (d : TrackMap.Drawing Q) : Prop :=
  (forall path v, In path (TrackMap.trackOutline d) -> In v path -> P v) /\
  (forall path v, In path (TrackMap.lapTraces d) -> In v path -> P v) /\
  (forall c, In c (TrackMap.turnCircles d) ->
             P (TrackMap.marker_x c, TrackMap.marker_y c)) /\
  (forall i cx cy, In (i, cx, cy) (TrackMap.positionMarkers d) -> P (cx, cy)).

(** [v] lies in a drawing area of [w] by [h]. *)
Definition inside_area (w h : Q) (v : Q * Q) : Prop :=
  0 <= fst v <= w /\ 0 <= snd v <= h.

(** [n] samples, 10 apart along the diagonal, at 300 except for two dips of
    five samples at 200, from index 30 and from index 60. *)
Definition two_dips (n : nat) : list PointQ :=
  map (fun k =>
         let d := inject_Z (Z.of_nat k) * 10 in
         sample_at d
           (if ((30 <=? k)%nat && (k <? 35)%nat) || ((60 <=? k)%nat && (k <? 65)%nat)
            then 200 else 300)
           d d)
      (seq 0 n).

Definition two_dips_data : option (ChartData Q) :=
  Some (mkData (Some [mkLap 1 "VER" 1 (Some (two_dips 100))]) None).

(** The track map after [update(two_dips_data)] in a container of 800 by
    400: both scales are set. *)
Definition track_two_dips : TrackMap.Chart Q :=
  TrackMap.update trackQ two_dips_data.

(** The circles of the markers under the two scales: one per marker, in the
    order of the markers, with the marker's number as its text. *)
Definition circles_of (sx sy : LinearScale Q) (markers : list TurnQ)
  : list (TrackMap.TurnMarker Q) :=
  map (fun t => TrackMap.mkTurnMarker
                  (scale_apply sx (TrackMap.turn_x t))
                  (scale_apply sy (TrackMap.turn_y t))
                  (TrackMap.turn_index t)) markers.

(** [runs] lists the closed DRS openings of [tel], as pairs of the index of
    the first active sample and the index of the closing sample: every one
    of them, each once, in the order of the lap. *)
Definition closed_runs_of (tel : list PointQ) (runs : list (nat * nat)) : Prop :=
  (forall i j, In (i, j) runs <-> closed_run tel i j) /\
  StronglySorted (fun a b => (snd a < fst b)%nat) runs.

(** The rectangles [rects] are those of the runs [runs], one for one and in
    the same order. *)
Definition rects_of_runs (xs : LinearScale Q) (scale : BandQ) (tel : list PointQ)
    (rects : list (MultiTelemetry.Rect Q)) (runs : list (nat * nat)) : Prop :=
  Forall2 (fun r ij => rect_of_run xs scale tel r (fst ij) (snd ij)) rects runs.

(** The lap has samples: its telemetry is neither missing nor an empty
    array. *)
Definition has_samples (lap : LapQ) : bool :=
  match telemetry_or_empty lap with
  | [] => false
  | _ :: _ => true
  end.

(** The laps that have samples, each with its index among all laps, in lap
    order. *)
Definition laps_with_samples (ls : list LapQ) : list (nat * LapQ) :=
  filter (fun il => has_samples (snd il)) (indexed ls).

(** [m] is the crosshair marker of the lap [il] on the speed trace chart,
    with the pointer at [mouseX]: the circle sits at the pointer's x and at
    the scaled speed of the sample the lookup returns, the label 10 to the
    right of it and 15 lower for every lap before it. *)
Definition speed_marker_of (xs ys : LinearScale Q) (mouseX : Q)
    (m : TelemetryChart.CrosshairMarker Q) (il : nat * LapQ) : Prop :=
  TelemetryChart.marker_lap m = fst il /\
  lapPointAt (scale_invert xs mouseX) (snd il)
  = Some (Ok (TelemetryChart.marker_point m)) /\
  TelemetryChart.marker_cx m = mouseX /\
  TelemetryChart.marker_cy m
  = option_map (scale_apply ys) (speed (TelemetryChart.marker_point m)) /\
  TelemetryChart.label_x m = mouseX + 10 /\
  TelemetryChart.label_y m
  = option_map (fun v => v + inject_Z (Z.of_nat (fst il)) * 15 - 5)
               (TelemetryChart.marker_cy m).

(** [m] is the crosshair marker of the lap [il] on the multi-channel chart:
    the circle sits at the pointer's x, at the height the speed band gives
    the speed of the sample the lookup returns, and the first label line is
    45 lower for every lap before it. *)
Definition band_marker_of (xs : LinearScale Q) (band : BandQ) (mouseX : Q)
    (m : MultiTelemetry.CrosshairMarker Q) (il : nat * LapQ) : Prop :=
  MultiTelemetry.marker_lap m = fst il /\
  lapPointAt (scale_invert xs mouseX) (snd il)
  = Some (Ok (MultiTelemetry.marker_point m)) /\
  MultiTelemetry.marker_cx m = mouseX /\
  MultiTelemetry.marker_cy m
  = option_map (scale_apply (MultiTelemetry.band_y band))
               (speed (MultiTelemetry.marker_point m)) /\
  MultiTelemetry.label_y m
  = MultiTelemetry.band_offset band + 15 + inject_Z (Z.of_nat (fst il)) * 45.

(** * Theorems *)

(** Unfolds the [JsNumber] operations of the rational instance. *)
Ltac qnum :=
  cbv [num nadd nsub nmul ndiv nltb nleb nabs truthy dec Q_JsNumber] in *.

Lemma Qltb_lt (a b : Q) : Qltb a b = true <-> a < b.
Proof.
  unfold Qltb. rewrite negb_true_iff. split; intro Hab.
  - apply Qnot_le_lt. intro Hle. apply Qle_bool_iff in Hle. congruence.
  - destruct (Qle_bool b a) eqn:E; [|reflexivity].
    apply Qle_bool_iff in E. lra.
Qed.

Lemma Qltb_ge (a b : Q) : Qltb a b = false <-> b <= a.
Proof.
  unfold Qltb. rewrite negb_false_iff. apply Qle_bool_iff.
Qed.

(** ** Nearest-sample lookup *)

Section FirstMinFacts.
Context {A : Type}.
Variable cost : A -> Q.

Lemma first_min_snoc (l : list A) (i : nat) (p a : A) :
  first_min cost l i p ->
  exists i', first_min cost (l ++ [a]) i' (keep_lower cost p a).
Proof.
  intros (Hi & Hmin & Hfirst).
  assert (Hlen : (i < List.length l)%nat)
    by (apply nth_error_Some; congruence).
  unfold keep_lower. destruct (Qltb (cost a) (cost p)) eqn:E.
  - apply Qltb_lt in E. exists (List.length l). repeat split.
    + rewrite nth_error_app2 by lia. now rewrite Nat.sub_diag.
    + intros j q Hj. destruct (Nat.lt_ge_cases j (List.length l)) as [Hlt|Hge].
      * rewrite nth_error_app1 in Hj by exact Hlt.
        specialize (Hmin _ _ Hj). lra.
      * rewrite nth_error_app2 in Hj by exact Hge.
        destruct (j - List.length l)%nat as [|k]; simpl in Hj.
        -- injection Hj as <-. lra.
        -- destruct k; discriminate.
    + intros j q Hlt Hj. rewrite nth_error_app1 in Hj by exact Hlt.
      specialize (Hmin _ _ Hj). lra.
  - apply Qltb_ge in E. exists i. repeat split.
    + rewrite nth_error_app1 by exact Hlen. exact Hi.
    + intros j q Hj. destruct (Nat.lt_ge_cases j (List.length l)) as [Hlt|Hge].
      * rewrite nth_error_app1 in Hj by exact Hlt. eauto.
      * rewrite nth_error_app2 in Hj by exact Hge.
        destruct (j - List.length l)%nat as [|k]; simpl in Hj.
        -- injection Hj as <-. exact E.
        -- destruct k; discriminate.
    + intros j q Hlt Hj. rewrite nth_error_app1 in Hj by lia. eauto.
Qed.

Lemma fold_keep_lower_first_min (rest : list A) (a : A) :
  exists i, first_min cost (a :: rest) i (fold_left (keep_lower cost) rest a).
Proof.
  induction rest as [|b rest IH] using rev_ind.
  - exists 0%nat. repeat split.
    + intros [|j] q Hj; simpl in Hj.
      * injection Hj as <-. apply Qle_refl.
      * destruct j; discriminate.
    + intros j q Hlt. lia.
  - destruct IH as [i IH]. rewrite fold_left_app. simpl.
    change (a :: rest ++ [b]) with ((a :: rest) ++ [b]).
    eapply first_min_snoc; eassumption.
Qed.

End FirstMinFacts.

Lemma closer_keep_lower (target : Q) :
  closer target = keep_lower (gap target).
Proof. reflexivity. Qed.

(** C1: on a non-empty sample list the nearest-sample lookup returns a sample
    of the list that minimises [abs (sample.distance - target)], and every
    sample at a lower index is strictly farther from the target: among
    samples at equal absolute distance the earliest one is returned. *)
Theorem nearestPoint_first_minimiser (tel : list PointQ) (target : Q) :
  tel <> [] ->
  exists i p,
    nearestPoint target tel = Ok p /\
    nth_error tel i = Some p /\
    (forall j q, nth_error tel j = Some q ->
       Qabs (distance p - target) <= Qabs (distance q - target)) /\
    (forall j q, (j < i)%nat -> nth_error tel j = Some q ->
       Qabs (distance p - target) < Qabs (distance q - target)).
Proof.
  intros Hne. destruct tel as [|a rest]; [contradiction|].
  unfold nearestPoint, reduce1. rewrite closer_keep_lower.
  destruct (fold_keep_lower_first_min (gap target) rest a)
    as (i & Hi & Hmin & Hfirst).
  exists i, (fold_left (keep_lower (gap target)) rest a).
  repeat split; assumption.
Qed.

Lemma nearestPoint_first_minimiser_witness :
  exists i p,
    nearestPoint 15 (map (fun d => sample d 300) [0; 10; 20; 30]) = Ok p /\
    nth_error (map (fun d => sample d 300) [0; 10; 20; 30]) i = Some p /\
    (forall j q,
       nth_error (map (fun d => sample d 300) [0; 10; 20; 30]) j = Some q ->
       Qabs (distance p - 15) <= Qabs (distance q - 15)) /\
    (forall j q, (j < i)%nat ->
       nth_error (map (fun d => sample d 300) [0; 10; 20; 30]) j = Some q ->
       Qabs (distance p - 15) < Qabs (distance q - 15)).
Proof.
  apply (nearestPoint_first_minimiser
           (map (fun d => sample d 300) [0; 10; 20; 30]) 15).
  discriminate.
Defined.

(** The two lookups the design document works out; the tie also on doubles. *)
Example nearest_of_24 :
  nearestPoint 24 (map (fun d => sample d 300) [0; 10; 20; 30])
  = Ok (sample 20 300).
Proof. reflexivity. Qed.

Example nearest_of_15_tie :
  nearestPoint 15 (map (fun d => sample d 300) [0; 10; 20; 30])
  = Ok (sample 10 300).
Proof. reflexivity. Qed.

Example nearest_of_15_tie_on_doubles :
  nearestPoint 15%float
    (map (fun d => timed_sampleF d 300 0) [0; 10; 20; 30]%float)
  = Ok (timed_sampleF 10 300 0).
Proof. vm_compute. reflexivity. Qed.

(** The crosshair and the distance marker look a lap up this way whenever it
    has samples. *)
Lemma lapPointAt_nearest (target : Q) (lap : LapQ) (tel : list PointQ) :
  telemetry lap = Some tel -> tel <> [] ->
  lapPointAt target lap = Some (nearestPoint target tel).
Proof.
  unfold lapPointAt. intros -> Hne.
  destruct tel; [contradiction | reflexivity].
Qed.

(** The crosshair skips a lap without samples instead of reducing it. *)
Lemma lapPointAt_skips_empty (target : Q) (lap : LapQ) :
  telemetry lap = Some [] \/ telemetry lap = None ->
  lapPointAt target lap = None.
Proof. unfold lapPointAt. intros [-> | ->]; reflexivity. Qed.

(** ** Channel layout *)

Lemma count_cons {A : Type} (a : A) (l : list A) : count (a :: l) == 1 + count l.
Proof.
  unfold count. cbn [List.length]. rewrite Nat2Z.inj_succ, <- Z.add_1_l.
  rewrite inject_Z_plus. reflexivity.
Qed.

Lemma layout_fold (H : Q) (w : MultiTelemetry.Channel -> Q) (pts : list PointQ)
    (chans : list MultiTelemetry.Channel) :
  forall (st : Q * list (MultiTelemetry.Channel * BandQ)) (start : Q),
    fst st == start ->
    exists new,
      snd (fold_left (MultiTelemetry.layout_step H w pts) chans st) = snd st ++ new /\
      map fst new = chans /\
      Forall2 same_geometry new (stacked H w chans start) /\
      heights_sum new + count new * 10 == H * weights_sum w chans.
Proof.
  induction chans as [|c rest IH]; intros st start Hst.
  - exists []. cbn [fold_left stacked map]. repeat split.
    + now rewrite app_nil_r.
    + constructor.
    + unfold count, heights_sum, weights_sum.
      cbn [fold_right List.length Z.of_nat]. unfold inject_Z. lra.
  - cbn [fold_left].
    destruct (IH (MultiTelemetry.layout_step H w pts st c)
                 ((start + (H * w c - 10)) + 10)) as (new & Hsnd & Hch & Hgeo & Hsum).
    { unfold MultiTelemetry.layout_step, MultiTelemetry.padding. qnum.
      cbn [fst]. rewrite Hst. unfold inject_Z. lra. }
    eexists (_ :: new). repeat split.
    + rewrite Hsnd. unfold MultiTelemetry.layout_step. cbn [snd].
      rewrite <- app_assoc. reflexivity.
    + cbn. now rewrite Hch.
    + cbn [stacked]. constructor; [|exact Hgeo].
      unfold same_geometry, MultiTelemetry.padding. qnum. cbn.
      split; [exact Hst | unfold inject_Z; lra].
    + cbn [heights_sum weights_sum fold_right snd MultiTelemetry.band_height].
      fold (heights_sum new). fold (weights_sum w rest).
      rewrite count_cons. unfold MultiTelemetry.padding. qnum.
      unfold inject_Z. lra.
Qed.

(** C2 (as amended): the layout loop emits one band per channel, in input
    order; each band is [totalHeight * weight - padding] high and starts at
    the previous band's end plus the padding, the first at 0; and the band
    heights plus one padding per band add up to [totalHeight] times the sum of
    the weights. *)
Theorem layout_bands_stack (totalHeight : Q) (weight : MultiTelemetry.Channel -> Q)
    (chans : list MultiTelemetry.Channel) (pts : list PointQ) :
  map fst (MultiTelemetry.layoutBands totalHeight weight chans pts) = chans /\
  Forall2 same_geometry
    (MultiTelemetry.layoutBands totalHeight weight chans pts)
    (stacked totalHeight weight chans 0) /\
  heights_sum (MultiTelemetry.layoutBands totalHeight weight chans pts)
  + count chans * 10
  == totalHeight * weights_sum weight chans.
Proof.
  unfold MultiTelemetry.layoutBands.
  destruct (layout_fold totalHeight weight pts chans (num 0, []) 0)
    as (new & Hsnd & Hch & Hgeo & Hsum); [reflexivity|].
  rewrite Hsnd. cbn [snd app]. repeat split; try assumption.
  rewrite <- Hsum. unfold count. rewrite <- Hch at 1. now rewrite length_map.
Qed.

(** C2 (as stated) fails on the shipped configuration: the six weights sum to
    1, and at a total height of 400 the band heights are 130, 50, 50, 50, 30
    and 30, so with five paddings the sum is 390. *)
Lemma layout_sum_counterexample :
  weights_sum MultiTelemetry.default_channelHeights MultiTelemetry.default_channels <= 1 /\
  ~ (heights_sum (MultiTelemetry.layoutBands 400
                    MultiTelemetry.default_channelHeights
                    MultiTelemetry.default_channels [])
     + (count MultiTelemetry.default_channels - 1) * 10 == 400).
Proof.
  split.
  - vm_compute. discriminate.
  - intros Heq. vm_compute in Heq. discriminate.
Qed.

(** The drawing area of [chartAB] is 400 high, and its bands are the ones of
    the counterexample. *)
Example chartAB_bands :
  height (MultiTelemetry.base chartAB) == 400 /\
  map (fun c => option_map (fun b => Qred (MultiTelemetry.band_height b))
                  (MultiTelemetry.channelScales chartAB c))
      MultiTelemetry.default_channels
  = [Some 130; Some 50; Some 50; Some 50; Some 30; Some 30].
Proof. split; vm_compute; reflexivity. Qed.

(** ** Delta estimation *)

Lemma same_object_refl (lap : LapQ) : same_object lap lap = true.
Proof. unfold same_object. apply Nat.eqb_refl. Qed.

(** C8: the delta is 0 for every sample when no reference lap is set and when
    the target lap is the reference lap itself: for a single sample and for
    the whole trace of the delta channel. *)
Theorem calculateDelta_zero_without_comparison
    (chart : MultiTelemetry.Chart Q) (lap : LapQ) :
  MultiTelemetry.referenceLap chart = None \/
  MultiTelemetry.referenceLap chart = Some lap ->
  (forall point, MultiTelemetry.calculateDelta chart point lap = Ok 0) /\
  (forall tel, MultiTelemetry.deltaTrace chart lap tel
               = Ok (repeat 0 (List.length tel))).
Proof.
  intros Href.
  assert (Hpoint : forall point, MultiTelemetry.calculateDelta chart point lap = Ok 0).
  { intros point. unfold MultiTelemetry.calculateDelta.
    destruct Href as [-> | ->]; [reflexivity|].
    destruct (telemetry lap); [|reflexivity].
    now rewrite same_object_refl. }
  split; [exact Hpoint|].
  induction tel as [|point rest IH]; [reflexivity|].
  cbn [MultiTelemetry.deltaTrace List.length repeat].
  rewrite Hpoint, IH. reflexivity.
Qed.

Lemma calculateDelta_zero_without_comparison_witness :
  (forall point, MultiTelemetry.calculateDelta chartAB point lapA = Ok 0) /\
  (forall tel, MultiTelemetry.deltaTrace chartAB lapA tel
               = Ok (repeat 0 (List.length tel))).
Proof.
  apply (calculateDelta_zero_without_comparison chartAB lapA).
  right. reflexivity.
Defined.

(** The identity test is on the object, not on its contents. *)
Lemma calculateDelta_zero_same_object
    (chart : MultiTelemetry.Chart Q) (point : PointQ) (lap ref : LapQ) :
  MultiTelemetry.referenceLap chart = Some ref ->
  obj_id lap = obj_id ref ->
  MultiTelemetry.calculateDelta chart point lap = Ok 0.
Proof.
  intros Href Hid. unfold MultiTelemetry.calculateDelta. rewrite Href.
  destruct (telemetry ref); [|reflexivity].
  unfold same_object. rewrite Hid, Nat.eqb_refl. reflexivity.
Qed.

(** A reference lap that is loaded but has no samples makes the estimator
    raise for every other lap. *)
Lemma calculateDelta_empty_reference
    (chart : MultiTelemetry.Chart Q) (point : PointQ) (lap ref : LapQ) :
  MultiTelemetry.referenceLap chart = Some ref ->
  telemetry ref = Some [] ->
  same_object lap ref = false ->
  MultiTelemetry.calculateDelta chart point lap = TypeError.
Proof.
  intros Href Htel Hne. unfold MultiTelemetry.calculateDelta.
  rewrite Href, Htel, Hne. reflexivity.
Qed.

Lemma truthy_Q (q : Q) : truthy q = true <-> ~ q == 0.
Proof.
  qnum. rewrite negb_true_iff. split.
  - intros Hf Hq. apply Qeq_bool_iff in Hq. congruence.
  - intros Hq. destruct (Qeq_bool q 0) eqn:E; [|reflexivity].
    apply Qeq_bool_iff in E. contradiction.
Qed.

(** The exact branch is taken when both time offsets are present and
    neither is 0. *)
Lemma calculateDelta_exact
    (chart : MultiTelemetry.Chart Q) (point refPoint : PointQ) (lap ref : LapQ)
    (refTelemetry : list PointQ) (t tr : Q) :
  MultiTelemetry.referenceLap chart = Some ref ->
  telemetry ref = Some refTelemetry ->
  same_object lap ref = false ->
  nearestPoint (distance point) refTelemetry = Ok refPoint ->
  time_ms point = Some t -> time_ms refPoint = Some tr ->
  ~ t == 0 -> ~ tr == 0 ->
  MultiTelemetry.calculateDelta chart point lap = Ok ((t - tr) / 1000).
Proof.
  intros Href Htel Hne Hnear Ht Htr Ht0 Htr0.
  unfold MultiTelemetry.calculateDelta.
  rewrite Href, Htel, Hne, Hnear. cbn [bind].
  rewrite Ht, Htr. cbn [truthy_opt to_number].
  apply truthy_Q in Ht0, Htr0. rewrite Ht0, Htr0. reflexivity.
Qed.

(** C3: at B's first sample, whose time offset is 0, the estimator is matched
    with A's sample at distance 5 (time offset 100) and both carry a time
    offset; the value returned is the speed heuristic
    [(280 - 300) * 0.01 = -0.2], not [(0 - 100) / 1000 = -0.1]. *)
Theorem calculateDelta_zero_offset_takes_heuristic :
  nearestPoint 0 [timed_sample 5 280 100; timed_sample 60 290 900]
  = Ok (timed_sample 5 280 100) /\
  exists delta,
    MultiTelemetry.calculateDelta chartAB (timed_sample 0 300 0) lapB = Ok delta /\
    delta == (280 - 300) * (1 # 100) /\
    ~ delta == (0 - 100) / 1000.
Proof.
  split; [reflexivity|].
  eexists. split; [vm_compute; reflexivity|].
  split; [reflexivity|].
  intros Heq. vm_compute in Heq. discriminate.
Qed.

(** The same call on doubles. *)
Example calculateDelta_zero_offset_on_doubles :
  MultiTelemetry.calculateDelta chartABF (timed_sampleF 0 300 0) lapBF
  = Ok (PrimFloat.mul (-20)%float (PrimFloat.div 1 100)).
Proof. vm_compute. reflexivity. Qed.

(** B's second sample, with non-zero offsets on both sides, gets the exact
    value. *)
Example calculateDelta_second_sample :
  MultiTelemetry.calculateDelta chartAB (timed_sample 55 310 800) lapB
  = Ok ((800 - 900) / 1000).
Proof.
  apply (calculateDelta_exact chartAB (timed_sample 55 310 800)
           (timed_sample 60 290 900) lapB lapA
           [timed_sample 5 280 100; timed_sample 60 290 900] 800 900);
    try reflexivity; intros Heq; vm_compute in Heq; discriminate.
Qed.

(** ** The reference lap *)

(** Every [setupScales] on loaded laps makes the first lap the reference. *)
Lemma setupScales_resets_reference
    (chart : MultiTelemetry.Chart Q) (d : ChartData Q) (first : LapQ) (rest : list LapQ) :
  laps d = Some (first :: rest) ->
  MultiTelemetry.referenceLap (MultiTelemetry.setupScales chart (Some d)) = Some first.
Proof.
  intros Hl. unfold MultiTelemetry.setupScales, loaded_laps. rewrite Hl.
  reflexivity.
Qed.

(** Once data has been shown, [setReferenceLap] leaves the first loaded lap
    as the reference, whatever lap it was given. *)
Lemma setReferenceLap_overwritten
    (chart : MultiTelemetry.Chart Q) (lap : option LapQ) (d : ChartData Q)
    (first : LapQ) (rest : list LapQ) :
  lastData (MultiTelemetry.base chart) = Some d ->
  laps d = Some (first :: rest) ->
  MultiTelemetry.referenceLap (MultiTelemetry.setReferenceLap chart lap) = Some first.
Proof.
  intros Hd Hl. unfold MultiTelemetry.setReferenceLap.
  cbn [MultiTelemetry.base]. rewrite Hd.
  unfold MultiTelemetry.update.
  apply setupScales_resets_reference with (rest := rest). exact Hl.
Qed.

(** Before any data is shown the call does what its name says. *)
Lemma setReferenceLap_before_data
    (chart : MultiTelemetry.Chart Q) (lap : option LapQ) :
  lastData (MultiTelemetry.base chart) = None ->
  MultiTelemetry.referenceLap (MultiTelemetry.setReferenceLap chart lap) = lap.
Proof.
  intros Hd. unfold MultiTelemetry.setReferenceLap.
  cbn [MultiTelemetry.base]. rewrite Hd. reflexivity.
Qed.

(** C9: on the chart showing laps A and B, [setReferenceLap(B)] returns with
    A as the reference lap: the [update] it triggers runs [setupScales],
    which assigns the first loaded lap again.  Deltas computed afterwards
    still treat B as the comparison lap. *)
Theorem setReferenceLap_B_keeps_A :
  MultiTelemetry.referenceLap chartAB = Some lapA /\
  MultiTelemetry.referenceLap (MultiTelemetry.setReferenceLap chartAB (Some lapB))
  = Some lapA /\
  exists delta,
    MultiTelemetry.calculateDelta
      (MultiTelemetry.setReferenceLap chartAB (Some lapB))
      (timed_sample 55 310 800) lapB = Ok delta /\
    ~ delta == 0.
Proof.
  split; [reflexivity|]. split; [reflexivity|].
  eexists. split; [vm_compute; reflexivity|].
  intros Heq. vm_compute in Heq. discriminate.
Qed.

(** ** DRS regions *)

Lemma drsOn_pos (p : PointQ) : MultiTelemetry.drsOn p = true <-> 0 < drs p.
Proof.
  unfold MultiTelemetry.drsOn. rewrite andb_true_iff, truthy_Q.
  qnum. rewrite Qltb_lt. unfold inject_Z. split.
  - intros [_ Hpos]. exact Hpos.
  - intros Hpos. split; [lra | exact Hpos].
Qed.

Lemma drsOn_not_pos (p : PointQ) : MultiTelemetry.drsOn p = false <-> ~ 0 < drs p.
Proof.
  rewrite <- drsOn_pos. destruct (MultiTelemetry.drsOn p); split; congruence.
Qed.

Lemma last_element_snoc {A : Type} (l : list A) (a : A) :
  last_element (l ++ [a]) = Some a.
Proof.
  unfold last_element. rewrite length_app. cbn [List.length].
  replace (List.length l + 1 - 1)%nat with (List.length l) by lia.
  rewrite nth_error_app2 by lia. now rewrite Nat.sub_diag.
Qed.

(** Every sample list splits into a prefix that does not end on an active
    sample and the run of active samples that follows it. *)
Lemma split_trailing_run (tel : list PointQ) :
  exists pre run,
    tel = pre ++ run /\
    Forall (fun p => 0 < drs p) run /\
    (forall q, last_element pre = Some q -> ~ 0 < drs q).
Proof.
  induction tel as [|p tel IH] using rev_ind.
  - exists [], []. repeat split; [constructor|]. intros q Hq. discriminate.
  - destruct IH as (pre & run & -> & Hrun & Hpre).
    destruct (MultiTelemetry.drsOn p) eqn:E.
    + exists pre, (run ++ [p]). rewrite app_assoc. repeat split; [|exact Hpre].
      apply Forall_app. split; [exact Hrun|].
      constructor; [now apply drsOn_pos | constructor].
    + exists ((pre ++ run) ++ [p]), []. rewrite app_nil_r.
      repeat split; [constructor|].
      intros q Hq. rewrite last_element_snoc in Hq. injection Hq as <-.
      now apply drsOn_not_pos.
Qed.

(** Active samples never append a rectangle. *)
Lemma drs_run_appends_nothing (xs : LinearScale Q) (scale : BandQ) (run : list PointQ) :
  Forall (fun p => 0 < drs p) run ->
  forall st, snd (fold_left (MultiTelemetry.drs_step xs scale) run st) = snd st.
Proof.
  induction 1 as [|p run Hp _ IH]; intros st; [reflexivity|].
  cbn [fold_left]. rewrite IH. unfold MultiTelemetry.drs_step.
  apply drsOn_pos in Hp. rewrite Hp. destruct (fst st); reflexivity.
Qed.

Lemma drawDrs_ignores_trailing_run (xs : LinearScale Q) (scale : BandQ)
    (pre run : list PointQ) :
  Forall (fun p => 0 < drs p) run ->
  MultiTelemetry.drawDrs xs scale (pre ++ run) = MultiTelemetry.drawDrs xs scale pre.
Proof.
  intros Hrun. unfold MultiTelemetry.drawDrs. rewrite fold_left_app.
  now apply drs_run_appends_nothing.
Qed.

Lemma closed_by_inactive_snoc (xs : LinearScale Q) (scale : BandQ)
    (tel : list PointQ) (p : PointQ) (r : MultiTelemetry.Rect Q) :
  closed_by_inactive xs scale tel r -> closed_by_inactive xs scale (tel ++ [p]) r.
Proof.
  intros (i & j & a & b & Hij & Hi & Hj & Ha & Hb & ->).
  exists i, j, a, b. repeat split; try assumption.
  - rewrite nth_error_app1; [exact Hi|]. apply nth_error_Some. congruence.
  - rewrite nth_error_app1; [exact Hj|]. apply nth_error_Some. congruence.
Qed.

(** The state of the DRS loop after the samples [tel]: every rectangle is
    closed by an inactive sample, and a pending [drsStart] is the distance of
    an active sample. *)
Lemma drs_loop_invariant (xs : LinearScale Q) (scale : BandQ) (tel : list PointQ) :
  let st := fold_left (MultiTelemetry.drs_step xs scale) tel (None, []) in
  (forall r, In r (snd st) -> closed_by_inactive xs scale tel r) /\
  (forall d, fst st = Some d ->
     exists i opening, nth_error tel i = Some opening /\
                       0 < drs opening /\ d = distance opening).
Proof.
  induction tel as [|p tel IH] using rev_ind.
  - cbn. split; [intros r []|]. intros d Hd. discriminate.
  - cbn zeta in *. rewrite fold_left_app. cbn [fold_left].
    destruct IH as [Hrects Hstart].
    set (st := fold_left (MultiTelemetry.drs_step xs scale) tel (None, [])) in *.
    assert (Hlift : forall d, fst st = Some d ->
              exists i opening, nth_error (tel ++ [p]) i = Some opening /\
                                0 < drs opening /\ d = distance opening).
    { intros d Hd. destruct (Hstart d Hd) as (i & a & Hi & Ha & ->).
      exists i, a. repeat split; try assumption.
      rewrite nth_error_app1; [exact Hi|]. apply nth_error_Some. congruence. }
    unfold MultiTelemetry.drs_step.
    destruct (MultiTelemetry.drsOn p) eqn:Ep; destruct (fst st) as [drsStart|] eqn:Es.
    + split; [|now rewrite Es].
      intros r Hr. apply closed_by_inactive_snoc. auto.
    + cbn [fst snd]. split.
      * intros r Hr. apply closed_by_inactive_snoc. auto.
      * intros d Hd. injection Hd as <-. exists (List.length tel), p.
        repeat split; [|now apply drsOn_pos].
        rewrite nth_error_app2 by lia. now rewrite Nat.sub_diag.
    + cbn [fst snd]. split; [|intros d Hd; discriminate].
      intros r Hr. apply in_app_or in Hr. destruct Hr as [Hr | [<- | []]].
      * apply closed_by_inactive_snoc. auto.
      * destruct (Hstart drsStart eq_refl) as (i & a & Hi & Ha & ->).
        exists i, (List.length tel), a, p.
        assert (Hlt : (i < List.length tel)%nat)
          by (apply nth_error_Some; congruence).
        repeat split; try assumption.
        -- rewrite nth_error_app1 by exact Hlt. exact Hi.
        -- rewrite nth_error_app2 by lia. now rewrite Nat.sub_diag.
        -- now apply drsOn_not_pos.
    + split; [|now rewrite Es].
      intros r Hr. apply closed_by_inactive_snoc. auto.
Qed.

(** C10: a rectangle of the DRS channel always runs from an active sample to
    a later inactive one; when the telemetry ends on an active sample, the
    run of active samples it ends with appends none, so the rectangles are
    those of the telemetry with that run cut off. *)
Theorem drs_trailing_run_dropped (xs : LinearScale Q) (scale : BandQ)
    (body : list PointQ) (final : PointQ) :
  0 < drs final ->
  (forall r, In r (MultiTelemetry.drawDrs xs scale (body ++ [final])) ->
             closed_by_inactive xs scale (body ++ [final]) r) /\
  exists pre run,
    body ++ [final] = pre ++ run /\
    run <> [] /\
    Forall (fun p => 0 < drs p) run /\
    (forall q, last_element pre = Some q -> ~ 0 < drs q) /\
    MultiTelemetry.drawDrs xs scale (body ++ [final])
    = MultiTelemetry.drawDrs xs scale pre.
Proof.
  intros Hfinal. split.
  - apply (drs_loop_invariant xs scale (body ++ [final])).
  - destruct (split_trailing_run (body ++ [final])) as (pre & run & Heq & Hrun & Hpre).
    exists pre, run. repeat split; try assumption.
    + intros ->. rewrite app_nil_r in Heq. subst pre.
      apply (Hpre final); [apply last_element_snoc | exact Hfinal].
    + rewrite Heq. now apply drawDrs_ignores_trailing_run.
Qed.

Lemma drs_trailing_run_dropped_witness :
  (forall r,
     In r (MultiTelemetry.drawDrs drs_xScale drs_band (drs_body ++ [drs_final])) ->
     closed_by_inactive drs_xScale drs_band (drs_body ++ [drs_final]) r) /\
  exists pre run,
    drs_body ++ [drs_final] = pre ++ run /\
    run <> [] /\
    Forall (fun p => 0 < drs p) run /\
    (forall q, last_element pre = Some q -> ~ 0 < drs q) /\
    MultiTelemetry.drawDrs drs_xScale drs_band (drs_body ++ [drs_final])
    = MultiTelemetry.drawDrs drs_xScale drs_band pre.
Proof.
  apply (drs_trailing_run_dropped drs_xScale drs_band drs_body drs_final).
  reflexivity.
Defined.

(** On these samples one rectangle is drawn, for the first opening, from
    distance 10 to distance 30; the opening at 40 and 50 leaves no trace. *)
Example drs_one_rectangle :
  exists r,
    MultiTelemetry.drawDrs drs_xScale drs_band (drs_body ++ [drs_final]) = [r] /\
    MultiTelemetry.rect_x r == 152 /\ MultiTelemetry.rect_width r == 304 /\
    MultiTelemetry.rect_y r == 370 /\ MultiTelemetry.rect_height r == 30.
Proof.
  eexists. split; [vm_compute; reflexivity|].
  repeat split; vm_compute; reflexivity.
Qed.

(** ** Track projection *)

(** On numbers [d3_extent] is the bounding interval, or undefined on no
    values. *)
Lemma d3_extent_bounds (vs : list Q) :
  (vs = [] /\ d3_extent vs = None) \/
  (exists mn mx,
     d3_extent vs = Some (mn, mx) /\ In mn vs /\ In mx vs /\
     forall v, In v vs -> mn <= v <= mx).
Proof.
  induction vs as [|v vs IH] using rev_ind.
  - left. split; reflexivity.
  - right. unfold d3_extent in *. rewrite fold_left_app. cbn [fold_left].
    destruct IH as [[-> ->] | (mn & mx & -> & Hmn & Hmx & Hall)].
    + qnum. replace (Qle_bool v v) with true
        by (symmetry; apply Qle_bool_iff; apply Qle_refl).
      exists v, v. cbn [app In].
      split; [reflexivity|]. split; [now left|]. split; [now left|].
      intros u [<- | []]. split; apply Qle_refl.
    + qnum. eexists _, _. split; [reflexivity|].
      assert (Hv : In v (vs ++ [v])) by (apply in_or_app; right; now left).
      assert (Hmn' : In mn (vs ++ [v])) by (apply in_or_app; now left).
      assert (Hmx' : In mx (vs ++ [v])) by (apply in_or_app; now left).
      pose proof (Hall _ Hmn) as Hmnmx.
      destruct (Qltb v mn) eqn:E1; destruct (Qltb mx v) eqn:E2;
        try apply Qltb_lt in E1; try apply Qltb_ge in E1;
        try apply Qltb_lt in E2; try apply Qltb_ge in E2.
      all: split; [assumption|]; split; [assumption|].
      all: intros u Hu; apply in_app_or in Hu;
        destruct Hu as [Hu | [<- | []]];
        try (specialize (Hall _ Hu)); split; lra.
Qed.

Lemma in_values (f : PointQ -> option Q) (points : list PointQ) (p : PointQ) (v : Q) :
  In p points -> f p = Some v -> In v (TrackMap.values f points).
Proof.
  intros Hin Hf. unfold TrackMap.values. apply in_flat_map.
  exists p. split; [exact Hin|]. rewrite Hf. now left.
Qed.

Lemma values_in (f : PointQ -> option Q) (points : list PointQ) (v : Q) :
  In v (TrackMap.values f points) -> exists p, In p points /\ f p = Some v.
Proof.
  unfold TrackMap.values. intros Hin. apply in_flat_map in Hin.
  destruct Hin as (p & Hp & Hv). exists p. split; [exact Hp|].
  destruct (f p) as [u|]; [|contradiction].
  destruct Hv as [<- | []]. reflexivity.
Qed.

Lemma positioned_has_xy (ls : list LapQ) (p : PointQ) :
  In p (positioned ls) -> exists vx vy, x p = Some vx /\ y p = Some vy.
Proof.
  unfold positioned. intros Hin. apply in_flat_map in Hin.
  destruct Hin as (l & _ & Hp). apply filter_In in Hp. destruct Hp as [_ Hp].
  unfold TrackMap.has_position in Hp.
  destruct (x p), (y p); try discriminate. eauto.
Qed.

Lemma setup_reaches_extents (chart : TrackMap.Chart Q) (data : option (ChartData Q))
    (ls : list LapQ) :
  loaded_laps data = Some ls ->
  positioned ls <> [] ->
  TrackMap.setup chart data
  = match d3_extent (TrackMap.values (@x Q) (positioned ls)),
          d3_extent (TrackMap.values (@y Q) (positioned ls)) with
    | Some xExtent, Some yExtent =>
        TrackMap.Projected
          (TrackMap.project (width (TrackMap.base chart))
                            (height (TrackMap.base chart)) xExtent yExtent)
    | _, _ => TrackMap.NoPositions
    end.
Proof.
  intros Hl Hne. unfold TrackMap.setup. rewrite Hl. fold (positioned ls).
  destruct (positioned ls); [contradiction | reflexivity].
Qed.

(** With at least one positioned sample the arithmetic is reached, whatever
    the extents are, and it is done on the bounding box of the positions. *)
Lemma setup_projects (chart : TrackMap.Chart Q) (data : option (ChartData Q))
    (ls : list LapQ) :
  loaded_laps data = Some ls ->
  positioned ls <> [] ->
  exists xExtent yExtent,
    TrackMap.setup chart data
    = TrackMap.Projected
        (TrackMap.project (width (TrackMap.base chart)) (height (TrackMap.base chart))
                          xExtent yExtent) /\
    (In (fst xExtent) (TrackMap.values (@x Q) (positioned ls)) /\
     In (snd xExtent) (TrackMap.values (@x Q) (positioned ls)) /\
     forall p v, In p (positioned ls) -> x p = Some v ->
                 fst xExtent <= v <= snd xExtent) /\
    (In (fst yExtent) (TrackMap.values (@y Q) (positioned ls)) /\
     In (snd yExtent) (TrackMap.values (@y Q) (positioned ls)) /\
     forall p v, In p (positioned ls) -> y p = Some v ->
                 fst yExtent <= v <= snd yExtent).
Proof.
  intros Hl Hne. rewrite (setup_reaches_extents chart data ls Hl Hne).
  assert (Hp0 : exists p0, In p0 (positioned ls)).
  { destruct (positioned ls) as [|p0 rest]; [contradiction|].
    exists p0. now left. }
  destruct Hp0 as [p0 Hp0].
  destruct (positioned_has_xy ls p0 Hp0) as (vx & vy & Hx & Hy).
  destruct (d3_extent_bounds (TrackMap.values (@x Q) (positioned ls)))
    as [[Hnil _] | (xmn & xmx & -> & Hxmn & Hxmx & Hxall)].
  { pose proof (in_values (@x Q) _ _ _ Hp0 Hx) as Hin.
    rewrite Hnil in Hin. contradiction. }
  destruct (d3_extent_bounds (TrackMap.values (@y Q) (positioned ls)))
    as [[Hnil _] | (ymn & ymx & -> & Hymn & Hymx & Hyall)].
  { pose proof (in_values (@y Q) _ _ _ Hp0 Hy) as Hin.
    rewrite Hnil in Hin. contradiction. }
  exists (xmn, xmx), (ymn, ymx). cbn [fst snd].
  split; [reflexivity|]. split.
  - split; [exact Hxmn|]. split; [exact Hxmx|].
    intros p v Hp Hv. apply Hxall. eapply in_values; eassumption.
  - split; [exact Hymn|]. split; [exact Hymx|].
    intros p v Hp Hv. apply Hyall. eapply in_values; eassumption.
Qed.

(** Without a positioned sample nothing is computed and the chart is left
    as it is. *)
Lemma setupScales_without_positions (chart : TrackMap.Chart Q)
    (data : option (ChartData Q)) :
  loaded_laps data = None \/
  (exists ls, loaded_laps data = Some ls /\ positioned ls = []) ->
  TrackMap.setupScales chart data = chart.
Proof.
  unfold TrackMap.setupScales, TrackMap.setup.
  intros [-> | (ls & -> & Hpos)]; [reflexivity|].
  fold (positioned ls). rewrite Hpos. reflexivity.
Qed.

Lemma Qdiv_pos (a b : Q) : 0 < a -> 0 < b -> 0 < a / b.
Proof.
  intros Ha Hb. apply Qlt_shift_div_l; [exact Hb | lra].
Qed.

(** The chosen scale is positive and, whichever branch was taken, the
    projected box fits the drawing area. *)
Lemma project_scale_cases (w h x0 x1 y0 y1 : Q) :
  0 < w -> 0 < h -> x0 < x1 -> y0 < y1 ->
  let p := TrackMap.project w h (x0, x1) (y0, y1) in
  (w / h < (x1 - x0) / (y1 - y0) -> TrackMap.scale p = w / (x1 - x0)) /\
  (~ w / h < (x1 - x0) / (y1 - y0) -> TrackMap.scale p = h / (y1 - y0)) /\
  0 < TrackMap.scale p.
Proof.
  intros Hw Hh Hx Hy p. subst p. unfold TrackMap.project. qnum.
  cbn [TrackMap.scale fst snd].
  destruct (Qltb (w / h) ((x1 - x0) / (y1 - y0))) eqn:E.
  - apply Qltb_lt in E. repeat split.
    + intros Hn. contradiction.
    + apply Qdiv_pos; lra.
  - apply Qltb_ge in E. repeat split.
    + intros Hlt. lra.
    + apply Qdiv_pos; lra.
Qed.

Lemma project_geometry (w h x0 x1 y0 y1 : Q) :
  0 < w -> 0 < h -> x0 < x1 -> y0 < y1 ->
  let p := TrackMap.project w h (x0, x1) (y0, y1) in
  projectedWidth p == TrackMap.dataWidth p * TrackMap.scale p /\
  projectedHeight p == TrackMap.dataHeight p * TrackMap.scale p /\
  projectedWidth p / projectedHeight p
  == TrackMap.dataWidth p / TrackMap.dataHeight p /\
  range0 (TrackMap.proj_x p) - 0 == w - range1 (TrackMap.proj_x p) /\
  range1 (TrackMap.proj_y p) - 0 == h - range0 (TrackMap.proj_y p) /\
  range1 (TrackMap.proj_y p) < range0 (TrackMap.proj_y p) /\
  (forall v, scale_apply (TrackMap.proj_x p) v
             == range0 (TrackMap.proj_x p) + (v - x0) * TrackMap.scale p) /\
  (forall v, scale_apply (TrackMap.proj_y p) v
             == range0 (TrackMap.proj_y p) - (v - y0) * TrackMap.scale p).
Proof.
  intros Hw Hh Hx Hy p.
  destruct (project_scale_cases w h x0 x1 y0 y1 Hw Hh Hx Hy) as (_ & _ & Hs).
  fold p in Hs.
  assert (Hdw : TrackMap.dataWidth p = x1 - x0) by reflexivity.
  assert (Hdh : TrackMap.dataHeight p = y1 - y0) by reflexivity.
  assert (Hpx : TrackMap.proj_x p
                = mkScale x0 x1 ((w - (x1 - x0) * TrackMap.scale p) / 2)
                    ((w - (x1 - x0) * TrackMap.scale p) / 2
                     + (x1 - x0) * TrackMap.scale p)) by reflexivity.
  assert (Hpy : TrackMap.proj_y p
                = mkScale y0 y1 (h - (h - (y1 - y0) * TrackMap.scale p) / 2)
                    ((h - (y1 - y0) * TrackMap.scale p) / 2)) by reflexivity.
  unfold projectedWidth, projectedHeight.
  rewrite Hdw, Hdh, Hpx, Hpy. cbn [range0 range1].
  set (s := TrackMap.scale p) in *. clearbody s. clear p Hdw Hdh Hpx Hpy.
  assert (Hds : 0 < (y1 - y0) * s) by (apply Qmult_lt_0_compat; lra).
  repeat split.
  - field.
  - field.
  - field. split; lra.
  - field.
  - field.
  - set (ds := (y1 - y0) * s) in *. clearbody ds.
    setoid_replace ((h - ds) / 2) with ((h - ds) * (1 # 2)) by field. lra.
  - intros v. unfold scale_apply. cbn [domain0 domain1 range0 range1]. qnum.
    assert (Ht : negb (Qeq_bool (x1 - x0) 0) = true).
    { rewrite negb_true_iff. destruct (Qeq_bool (x1 - x0) 0) eqn:E; [|reflexivity].
      apply Qeq_bool_iff in E. lra. }
    rewrite Ht. unfold inject_Z. field. lra.
  - intros v. unfold scale_apply. cbn [domain0 domain1 range0 range1]. qnum.
    assert (Ht : negb (Qeq_bool (y1 - y0) 0) = true).
    { rewrite negb_true_iff. destruct (Qeq_bool (y1 - y0) 0) eqn:E; [|reflexivity].
      apply Qeq_bool_iff in E. lra. }
    rewrite Ht. unfold inject_Z. field. lra.
Qed.

(** C4: when the positions span a positive width and height and the drawing
    area is not empty, [setupScales] reaches its arithmetic and installs the
    two scales of a projection whose domains are the bounding box of the
    kept samples ([xMin .. xMax] and [yMin .. yMax], every end being the
    coordinate of a sample) and that uses one scale factor for both axes,
    [width / (xMax - xMin)] when the data is wider than the drawing area and
    [height / (yMax - yMin)] otherwise, so that the projected box has the
    aspect ratio of the data, is centred, and has its y axis inverted. *)
Theorem projection_preserves_aspect (chart : TrackMap.Chart Q)
    (data : option (ChartData Q)) (ls : list LapQ) :
  loaded_laps data = Some ls ->
  spans_x ls -> spans_y ls ->
  0 < width (TrackMap.base chart) -> 0 < height (TrackMap.base chart) ->
  exists p,
    TrackMap.setup chart data = TrackMap.Projected p /\
    TrackMap.xScale (TrackMap.setupScales chart data) = Some (TrackMap.proj_x p) /\
    TrackMap.yScale (TrackMap.setupScales chart data) = Some (TrackMap.proj_y p) /\
    faithful_projection (width (TrackMap.base chart)) (height (TrackMap.base chart))
                        ls p.
Proof.
  intros Hl (a & b & va & vb & Ha & Hb & Hva & Hvb & Hab)
         (c & d & vc & vd & Hc & Hd & Hvc & Hvd & Hcd) Hw Hh.
  assert (Hne : positioned ls <> []).
  { intros E. rewrite E in Ha. contradiction. }
  destruct (setup_projects chart data ls Hl Hne)
    as ([x0 x1] & [y0 y1] & Hsetup & (Hx0 & Hx1 & Hxs) & (Hy0 & Hy1 & Hys)).
  cbn [fst snd] in Hxs, Hys, Hx0, Hx1, Hy0, Hy1.
  apply values_in in Hx0, Hx1, Hy0, Hy1.
  assert (Hx : x0 < x1).
  { pose proof (Hxs _ _ Ha Hva). pose proof (Hxs _ _ Hb Hvb). lra. }
  assert (Hy : y0 < y1).
  { pose proof (Hys _ _ Hc Hvc). pose proof (Hys _ _ Hd Hvd). lra. }
  eexists. split; [exact Hsetup|].
  unfold TrackMap.setupScales. rewrite Hsetup. cbn [TrackMap.xScale TrackMap.yScale].
  split; [reflexivity|]. split; [reflexivity|].
  set (w := width (TrackMap.base chart)) in *.
  set (h := height (TrackMap.base chart)) in *.
  destruct (project_scale_cases w h x0 x1 y0 y1 Hw Hh Hx Hy) as (Hwide & Htall & Hs).
  destruct (project_geometry w h x0 x1 y0 y1 Hw Hh Hx Hy)
    as (Hpw & Hph & Hratio & Hcx & Hcy & Hinv & Hmx & Hmy).
  unfold faithful_projection, extent_of.
  split; [split; [exact Hx0 | split; [exact Hx1 | exact Hxs]]|].
  split; [split; [exact Hy0 | split; [exact Hy1 | exact Hys]]|].
  split; [reflexivity|]. split; [reflexivity|].
  split; [cbn; lra|]. split; [cbn; lra|].
  split; [exact Hwide|]. split; [exact Htall|]. split; [exact Hs|].
  split; [exact Hpw|]. split; [exact Hph|]. split; [exact Hratio|].
  split; [exact Hcx|]. split; [exact Hcy|]. split; [exact Hinv|].
  split; [exact Hmx | exact Hmy].
Qed.

Lemma projection_preserves_aspect_witness :
  exists p,
    TrackMap.setup trackQ box_dataQ = TrackMap.Projected p /\
    TrackMap.xScale (TrackMap.setupScales trackQ box_dataQ)
    = Some (TrackMap.proj_x p) /\
    TrackMap.yScale (TrackMap.setupScales trackQ box_dataQ)
    = Some (TrackMap.proj_y p) /\
    faithful_projection (width (TrackMap.base trackQ)) (height (TrackMap.base trackQ))
      [box_lapQ] p.
Proof.
  apply (projection_preserves_aspect trackQ box_dataQ [box_lapQ]).
  - reflexivity.
  - exists (sample_at 0 100 0 0), (sample_at 400 100 400 0), 0, 400.
    cbn. repeat split; auto. 
  - exists (sample_at 0 100 0 0), (sample_at 500 100 400 100), 0, 100.
    cbn. repeat split; auto. 
  - reflexivity.
  - reflexivity.
Defined.

(** The 400 by 100 box in the 760 by 360 drawing area: the data is wider, the
    scale is 760/400, and the box is drawn 760 by 190, 85 below the top. *)
Example box_projection :
  exists p,
    TrackMap.setup trackQ box_dataQ = TrackMap.Projected p /\
    TrackMap.scale p == 19 # 10 /\
    projectedWidth p == 760 /\ projectedHeight p == 190 /\
    TrackMap.offsetX p == 0 /\ TrackMap.offsetY p == 85.
Proof.
  eexists. split; [vm_compute; reflexivity|].
  repeat split; vm_compute; reflexivity.
Qed.

(** C5: with all positions at one spot the guards of [setupScales] do not
    fire.  On doubles the extents are 0 wide and 0 high, the aspect ratio is
    [0/0], the scale [height/0] is infinite, both offsets are NaN, and the
    installed scales have NaN ranges; on rationals the same call reaches the
    arithmetic with both divisors equal to 0. *)
Theorem setup_divides_by_zero_extent :
  (exists p,
     TrackMap.setup trackF parked_dataF = TrackMap.Projected p /\
     PrimFloat.eqb (TrackMap.dataWidth p) 0 = true /\
     PrimFloat.eqb (TrackMap.dataHeight p) 0 = true /\
     PrimFloat.is_nan (TrackMap.dataAspect p) = true /\
     PrimFloat.is_infinity (TrackMap.scale p) = true /\
     PrimFloat.is_nan (TrackMap.offsetX p) = true /\
     PrimFloat.is_nan (TrackMap.offsetY p) = true) /\
  (exists sx sy,
     TrackMap.xScale (TrackMap.setupScales trackF parked_dataF) = Some sx /\
     TrackMap.yScale (TrackMap.setupScales trackF parked_dataF) = Some sy /\
     PrimFloat.is_nan (range0 sx) = true /\ PrimFloat.is_nan (range1 sx) = true /\
     PrimFloat.is_nan (range0 sy) = true /\ PrimFloat.is_nan (range1 sy) = true) /\
  (exists p,
     TrackMap.setup trackQ parked_dataQ = TrackMap.Projected p /\
     TrackMap.dataWidth p == 0 /\ TrackMap.dataHeight p == 0).
Proof.
  split; [|split].
  - eexists. split; [vm_compute; reflexivity|].
    repeat split; vm_compute; reflexivity.
  - eexists _, _. split; [vm_compute; reflexivity|].
    split; [vm_compute; reflexivity|].
    repeat split; vm_compute; reflexivity.
  - eexists. split; [vm_compute; reflexivity|].
    split; vm_compute; reflexivity.
Qed.

(** Positions on a horizontal line: the box is 100 wide and 0 high, the
    guards do not fire either, the aspect ratio [100/0] is infinite, and the
    scale is taken from the width. *)
Example setup_on_horizontal_line :
  exists p,
    TrackMap.setup trackF
      (Some (mkData (Some [mkLap 1 "VER" 1
                             (Some [mkPoint 0%float None (Some 100%float) 0%float
                                      false 0%float 0%float 0%float
                                      (Some 0%float) (Some 5%float);
                                    mkPoint 100%float None (Some 100%float) 0%float
                                      false 0%float 0%float 0%float
                                      (Some 100%float) (Some 5%float)])])
                    None))
    = TrackMap.Projected p /\
    PrimFloat.eqb (TrackMap.dataHeight p) 0 = true /\
    PrimFloat.is_infinity (TrackMap.dataAspect p) = true /\
    PrimFloat.is_finite (TrackMap.scale p) = true.
Proof.
  eexists. split; [vm_compute; reflexivity|].
  repeat split; vm_compute; reflexivity.
Qed.

(** ** Corner detection *)

(** A loop over [start .. start + len - 1] whose body keeps an invariant
    indexed by the next index runs to completion and establishes it. *)
Lemma for_each_seq_invariant {S : Type} (body : S -> nat -> outcome S)
    (P : nat -> S -> Prop) (len : nat) :
  forall (start : nat) (s0 : S),
    P start s0 ->
    (forall i s, (start <= i < start + len)%nat -> P i s ->
                 exists s', body s i = Ok s' /\ P (Datatypes.S i) s') ->
    exists s', for_each body (seq start len) s0 = Ok s' /\ P (start + len)%nat s'.
Proof.
  induction len as [|len IH]; intros start s0 H0 Hstep.
  - exists s0. rewrite Nat.add_0_r. split; [reflexivity | exact H0].
  - cbn [seq for_each].
    destruct (Hstep start s0 ltac:(lia) H0) as (s1 & -> & H1). cbn [bind].
    destruct (IH (Datatypes.S start) s1 H1) as (s' & Hrun & Hs').
    { intros i s Hi. apply Hstep. lia. }
    exists s'. split; [exact Hrun|].
    replace (start + Datatypes.S len)%nat with (Datatypes.S start + len)%nat by lia.
    exact Hs'.
Qed.

Lemma at_index_in_range {A : Type} (arr : list A) (i : nat) :
  (i < List.length arr)%nat -> exists a, nth_error arr i = Some a /\ at_index arr i = Ok a.
Proof.
  intros Hi. unfold at_index.
  destruct (nth_error arr i) as [a|] eqn:E.
  - exists a. split; reflexivity.
  - apply nth_error_None in E. lia.
Qed.

(** The window is read without exception; it is not empty and holds speeds
    of samples. *)
Lemma surrounding_ok (points : list TrackPointQ) (i : nat) :
  window_in_range points i ->
  exists speeds,
    TrackMap.surrounding points i = Ok speeds /\
    speeds <> [] /\
    forall s, In s speeds -> exists p, In p points /\ s = TrackMap.tp_speed p.
Proof.
  unfold window_in_range, TrackMap.windowSize. intros [Hlo Hhi].
  unfold TrackMap.surrounding, TrackMap.windowSize.
  set (body := fun (speeds : list Q) (j : nat) =>
                 if (j =? i)%nat then Ok speeds
                 else bind (at_index points j)
                        (fun pj => Ok (speeds ++ [TrackMap.tp_speed pj]))).
  destruct (for_each_seq_invariant body
              (fun j speeds =>
                 ((i - 20 < j)%nat -> speeds <> []) /\
                 forall s, In s speeds ->
                           exists p, In p points /\ s = TrackMap.tp_speed p)
              (2 * 20 + 1) (i - 20) [])
    as (speeds & Hrun & Hne & Hall).
  - split; [lia|]. intros s [].
  - intros j speeds Hj [Hne Hall]. unfold body.
    destruct (Nat.eqb_spec j i) as [->|Hji].
    + exists speeds. split; [reflexivity|]. split; [|exact Hall].
      intros _. apply Hne. lia.
    + destruct (at_index_in_range points j ltac:(lia)) as (pj & Hnth & ->).
      cbn [bind]. eexists. split; [reflexivity|]. split.
      * intros _ E. destruct speeds; discriminate.
      * intros s Hs. apply in_app_or in Hs. destruct Hs as [Hs | [<- | []]].
        -- auto.
        -- exists pj. split; [|reflexivity]. eapply nth_error_In; eassumption.
  - exists speeds. split; [exact Hrun|]. split; [|exact Hall].
    apply Hne. lia.
Qed.

(** One round of the main loop either leaves [turns] as it is or appends the
    sample at [i], numbered with the next index, and then the last marker, if
    there is one, is more than 200 away. *)
Lemma turn_step_cases (points : list TrackPointQ) (turns : list TurnQ) (i : nat) :
  window_in_range points i ->
  exists pi,
    nth_error points i = Some pi /\
    (TrackMap.turn_step points turns i = Ok turns \/
     (TrackMap.turn_step points turns i
      = Ok (turns ++ [TrackMap.mkTurn (TrackMap.tp_x pi) (TrackMap.tp_y pi)
                        (TrackMap.tp_distance pi) (TrackMap.tp_speed pi)
                        (List.length turns + 1)]) /\
      forall lastTurn,
        last_element turns = Some lastTurn ->
        200 < Qabs (TrackMap.tp_distance pi - TrackMap.turn_distance lastTurn))).
Proof.
  intros Hwin.
  destruct (surrounding_ok points i Hwin) as (speeds & Hsur & _).
  destruct Hwin as [Hlo Hhi].
  destruct (at_index_in_range points i ltac:(lia)) as (pi & Hnth & Hat).
  exists pi. split; [exact Hnth|].
  unfold TrackMap.turn_step. rewrite Hat, Hsur. cbn [bind].
  destruct (nltb (TrackMap.tp_speed pi) _); [|now left].
  destruct (TrackMap.isMinimum points i (TrackMap.tp_speed pi)); [|now left].
  destruct (last_element turns) as [lastTurn|] eqn:Elast.
  - destruct (nltb (num 200) _) eqn:Egap; [|now left].
    right. split; [reflexivity|].
    intros lt Hlt. injection Hlt as <-. qnum. apply Qltb_lt in Egap. exact Egap.
  - right. split; [reflexivity|]. intros lt Hlt. discriminate.
Qed.

Lemma in_track_points (tel : list PointQ) (t : TrackPointQ) :
  In t (TrackMap.track_points tel) ->
  exists p, In p tel /\ TrackMap.tp_distance t = distance p /\
            speed p = Some (TrackMap.tp_speed t).
Proof.
  unfold TrackMap.track_points. intros Hin. apply in_flat_map in Hin.
  destruct Hin as (p & Hp & Ht). exists p. split; [exact Hp|].
  destruct (x p), (y p), (speed p); try contradiction.
  destruct Ht as [<- | []]. split; reflexivity.
Qed.

Lemma track_points_length (tel : list PointQ) :
  (List.length (TrackMap.track_points tel) <= List.length tel)%nat.
Proof.
  unfold TrackMap.track_points.
  induction tel as [|p tel IH]; [apply Nat.le_refl|].
  cbn [flat_map]. rewrite length_app.
  destruct (x p), (y p), (speed p); cbn [List.length]; lia.
Qed.

(** Filtering keeps the samples in distance order. *)
Lemma track_points_sorted (tel : list PointQ) :
  sorted_by_distance tel ->
  StronglySorted (fun a b => TrackMap.tp_distance a <= TrackMap.tp_distance b)
                 (TrackMap.track_points tel).
Proof.
  intros Hs. apply Sorted_StronglySorted in Hs.
  2:{ intros a b c Hab Hbc. lra. }
  induction Hs as [|p tel Hs IH Hall]; [constructor|].
  change (TrackMap.track_points (p :: tel))
    with (match x p, y p, speed p with
          | Some px, Some py, Some ps =>
              [TrackMap.mkTrackPoint px py (distance p) ps]
          | _, _, _ => []
          end ++ TrackMap.track_points tel).
  destruct (x p), (y p), (speed p); cbn [app]; try exact IH.
  constructor; [exact IH|].
  apply Forall_forall. intros t Ht.
  destruct (in_track_points tel t Ht) as (pt & Hq & -> & _).
  cbn [TrackMap.tp_distance].
  rewrite Forall_forall in Hall. auto.
Qed.

Lemma StronglySorted_nth_error {A : Type} (R : A -> A -> Prop) (l : list A) :
  StronglySorted R l ->
  forall j k a b, (j < k)%nat ->
    nth_error l j = Some a -> nth_error l k = Some b -> R a b.
Proof.
  induction 1 as [|c l Hs IH Hall]; intros j k a b Hjk Hj Hk.
  - destruct j; discriminate.
  - destruct k as [|k]; [lia|]. cbn in Hk. destruct j as [|j]; cbn in Hj.
    + injection Hj as <-. rewrite Forall_forall in Hall.
      apply Hall. eapply nth_error_In; eassumption.
    + apply (IH j k); [lia | assumption | assumption].
Qed.

(** Markers more than 200 apart one after the other are strictly ordered. *)
Lemma well_separated_ordered (markers : list TurnQ) :
  well_separated markers -> strictly_ordered markers.
Proof.
  intros Hsep j k. revert j.
  induction k as [|k IH]; intros j a b Hjk Hj Hk; [lia|].
  assert (Hlen : (k < List.length markers)%nat).
  { assert (Datatypes.S k < List.length markers)%nat
      by (apply nth_error_Some; congruence). lia. }
  assert (Hc : exists c, nth_error markers k = Some c).
  { destruct (nth_error markers k) as [c|] eqn:Hc; [now exists c|].
    apply nth_error_None in Hc. lia. }
  destruct Hc as [c Hc].
  pose proof (Hsep k c b Hc Hk) as Hcb.
  destruct (Nat.eq_dec j k) as [->|Hne].
  - assert (a = c) by congruence. subst c. lra.
  - pose proof (IH j a c ltac:(lia) Hj Hc). lra.
Qed.

(** What the main loop maintains before visiting index [i]: the markers are
    separated and numbered, and the last one was taken from a sample before
    [i]. *)
Lemma turn_loop_invariant (points : list TrackPointQ) :
  StronglySorted (fun a b => TrackMap.tp_distance a <= TrackMap.tp_distance b) points ->
  forall i turns,
    window_in_range points i ->
    markers_so_far points i turns ->
    exists turns',
      TrackMap.turn_step points turns i = Ok turns' /\
      markers_so_far points (S i) turns'.
Proof.
  intros Hsorted i turns Hwin (Hsep & Hnum & Hlast).
  destruct (turn_step_cases points turns i Hwin) as (pi & Hpi & [Hsame | [Hpush Hgap]]).
  - exists turns. split; [exact Hsame|].
    split; [exact Hsep|]. split; [exact Hnum|].
    intros lt Hlt. destruct (Hlast lt Hlt) as (k & pk & Hk & Hpk & Hd).
    exists k, pk. repeat split; try assumption. lia.
  - eexists. split; [exact Hpush|].
    set (t := TrackMap.mkTurn _ _ _ _ _).
    split; [|split].
    + intros k a b Ha Hb.
      destruct (Nat.lt_ge_cases (S k) (List.length turns)) as [Hin|Hout].
      * rewrite nth_error_app1 in Ha, Hb by lia. eauto.
      * assert (Hk : S k = List.length turns).
        { assert (S k < List.length (turns ++ [t]))%nat
            by (apply nth_error_Some; congruence).
          rewrite length_app in H. cbn in H. lia. }
        rewrite nth_error_app1 in Ha by lia.
        rewrite nth_error_app2 in Hb by lia.
        rewrite Hk, Nat.sub_diag in Hb. injection Hb as <-.
        assert (Hla : last_element turns = Some a).
        { unfold last_element. rewrite <- Hk. cbn. now rewrite Nat.sub_0_r. }
        specialize (Hgap a Hla).
        destruct (Hlast a Hla) as (j & pj & Hj & Hpj & Hd).
        pose proof (StronglySorted_nth_error _ points Hsorted j i pj pi Hj Hpj Hpi)
          as Hle. cbn beta in Hle.
        subst t. cbn [TrackMap.turn_distance]. rewrite Hd in *.
        rewrite Qabs_pos in Hgap by lra. exact Hgap.
    + intros k a Ha.
      destruct (Nat.lt_ge_cases k (List.length turns)) as [Hin|Hout].
      * rewrite nth_error_app1 in Ha by lia. auto.
      * rewrite nth_error_app2 in Ha by lia.
        destruct (k - List.length turns)%nat as [|m] eqn:Em; cbn in Ha.
        -- injection Ha as <-. subst t. cbn [TrackMap.turn_index]. lia.
        -- destruct m; discriminate.
    + intros lt Hlt. rewrite last_element_snoc in Hlt. injection Hlt as <-.
      exists i, pi. repeat split; [lia | exact Hpi].
Qed.

Lemma detectTurns_ordered (points : list TrackPointQ) :
  StronglySorted (fun a b => TrackMap.tp_distance a <= TrackMap.tp_distance b) points ->
  exists markers,
    TrackMap.detectTurns points = Ok markers /\
    strictly_ordered markers /\ well_separated markers /\ numbered_from_one markers.
Proof.
  intros Hsorted. unfold TrackMap.detectTurns.
  destruct (for_each_seq_invariant (TrackMap.turn_step points)
              (markers_so_far points)
              (List.length points - TrackMap.windowSize - TrackMap.windowSize)
              TrackMap.windowSize [])
    as (markers & Hrun & Hsep & Hnum & _).
  - split; [|split].
    + intros k a b Ha. destruct k; discriminate.
    + intros k a Ha. destruct k; discriminate.
    + intros lt Hlt. discriminate.
  - intros i turns Hi. apply turn_loop_invariant; [exact Hsorted|].
    unfold window_in_range. lia.
  - exists markers. split; [exact Hrun|].
    split; [now apply well_separated_ordered|]. split; assumption.
Qed.

Lemma drawTurnMarkers_ok (chart : TrackMap.Chart Q) (sx sy : LinearScale Q)
    (turns : list TurnQ) :
  TrackMap.xScale chart = Some sx -> TrackMap.yScale chart = Some sy ->
  TrackMap.drawTurnMarkers chart turns = Ok (circles_of sx sy turns).
Proof.
  intros Hx Hy. unfold TrackMap.drawTurnMarkers, circles_of. rewrite Hx, Hy.
  cbn [call_scale bind].
  induction turns as [|t turns IH]; [reflexivity|].
  cbn [map_outcome bind map]. rewrite IH. reflexivity.
Qed.

(** C6: on samples sorted ascending by distance, and on a chart whose two
    scales are set, the detector runs to completion; the markers it finds
    are strictly ordered by distance, each more than 200 after the one
    before, and numbered 1, 2, 3, ... in the order of detection, and one
    circle is drawn for each of them, in that order. *)
Theorem corner_markers_ordered (chart : TrackMap.Chart Q) (tel : list PointQ)
    (sx sy : LinearScale Q) :
  sorted_by_distance tel ->
  TrackMap.xScale chart = Some sx -> TrackMap.yScale chart = Some sy ->
  exists markers chart',
    TrackMap.detectAndDrawTurns chart tel
    = Ok (markers, circles_of sx sy markers, chart') /\
    strictly_ordered markers /\ well_separated markers /\ numbered_from_one markers.
Proof.
  intros Hs Hx Hy. unfold TrackMap.detectAndDrawTurns.
  destruct (List.length (TrackMap.track_points tel) <? 10)%nat.
  - exists [], chart. split; [reflexivity|]. split; [|split].
    + intros j k a b _ Ha. destruct j; discriminate.
    + intros k a b Ha. destruct k; discriminate.
    + intros k a Ha. destruct k; discriminate.
  - destruct (detectTurns_ordered _ (track_points_sorted tel Hs))
      as (markers & -> & Hord & Hsep & Hnum).
    cbn [bind]. rewrite (drawTurnMarkers_ok chart sx sy markers Hx Hy).
    cbn [bind]. eexists _, _. split; [reflexivity|]. auto.
Qed.

Lemma one_dip_sorted : sorted_by_distance (one_dip 100).
Proof.
  unfold sorted_by_distance, one_dip. cbn [seq map].
  repeat (apply Sorted_cons || apply Sorted_nil
          || apply HdRel_cons || apply HdRel_nil).
  all: vm_compute; discriminate.
Qed.

Lemma two_dips_sorted : sorted_by_distance (two_dips 100).
Proof.
  unfold sorted_by_distance, two_dips. cbn [seq map].
  repeat (apply Sorted_cons || apply Sorted_nil
          || apply HdRel_cons || apply HdRel_nil).
  all: vm_compute; discriminate.
Qed.

Lemma corner_markers_ordered_witness :
  exists sx sy,
    TrackMap.xScale track_two_dips = Some sx /\
    TrackMap.yScale track_two_dips = Some sy /\
    exists markers chart',
      TrackMap.detectAndDrawTurns track_two_dips (two_dips 100)
      = Ok (markers, circles_of sx sy markers, chart') /\
      strictly_ordered markers /\ well_separated markers /\
      numbered_from_one markers.
Proof.
  eexists _, _. split; [vm_compute; reflexivity|].
  split; [vm_compute; reflexivity|].
  apply (corner_markers_ordered track_two_dips (two_dips 100)).
  - exact two_dips_sorted.
  - vm_compute. reflexivity.
  - vm_compute. reflexivity.
Defined.

(** Both dips of [two_dips] are found, each once, at its first sample: the
    markers are at 300 and at 600, numbered 1 and 2, and two circles are
    drawn. *)
Example two_dips_two_markers :
  exists m1 m2 c1 c2 chart',
    TrackMap.detectAndDrawTurns track_two_dips (two_dips 100)
    = Ok ([m1; m2], [c1; c2], chart') /\
    TrackMap.turn_index m1 = 1%nat /\ TrackMap.turn_distance m1 == 300 /\
    TrackMap.turn_index m2 = 2%nat /\ TrackMap.turn_distance m2 == 600 /\
    TrackMap.marker_text c1 = 1%nat /\ TrackMap.marker_text c2 = 2%nat /\
    TrackMap.turnMarkers chart' = [m1; m2].
Proof.
  eexists _, _, _, _, _. split; [vm_compute; reflexivity|].
  repeat split; vm_compute; reflexivity.
Qed.

(** The dip of [one_dip] is found once, at its first sample: the following
    samples of the dip are as slow but less than 200 further on. *)
Example one_dip_one_marker :
  exists m,
    TrackMap.detectTurns (TrackMap.track_points (one_dip 100)) = Ok [m] /\
    TrackMap.turn_index m = 1%nat /\
    TrackMap.turn_distance m == 450 /\ TrackMap.turn_speed m == 200.
Proof.
  eexists. split; [vm_compute; reflexivity|].
  repeat split; vm_compute; reflexivity.
Qed.

(** On a chart whose scales were never set, drawing the circle of the first
    corner raises, and [turnMarkers] is not assigned. *)
Example corner_on_null_scales_raises :
  TrackMap.detectAndDrawTurns trackQ (one_dip 100) = TypeError.
Proof. vm_compute. reflexivity. Qed.

(** *** Profiles without a corner *)

Lemma fold_sum_constant (c : Q) (speeds : list Q) :
  Forall (fun s => s == c) speeds ->
  forall acc, fold_left Qplus speeds acc == acc + c * count speeds.
Proof.
  induction 1 as [|s speeds Hs _ IH]; intros acc.
  - unfold count. cbn [fold_left List.length Z.of_nat]. unfold inject_Z. lra.
  - cbn [fold_left]. rewrite IH, count_cons, Hs. lra.
Qed.

Lemma count_pos {A : Type} (l : list A) : l <> [] -> 0 < count l.
Proof.
  intros Hne. destruct l as [|a l]; [contradiction|].
  rewrite count_cons. unfold count.
  assert (0 <= inject_Z (Z.of_nat (List.length l))).
  { change 0 with (inject_Z 0). rewrite <- Zle_Qle. lia. }
  lra.
Qed.

Lemma average_constant (c : Q) (speeds : list Q) :
  speeds <> [] -> Forall (fun s => s == c) speeds ->
  TrackMap.average speeds == c.
Proof.
  intros Hne Hall. unfold TrackMap.average. qnum.
  rewrite (fold_sum_constant c speeds Hall). fold (count speeds).
  pose proof (count_pos speeds Hne). unfold inject_Z at 1. field. lra.
Qed.

Lemma speedThreshold_value : TrackMap.speedThreshold == 17 # 20.
Proof. reflexivity. Qed.

(** On a constant, non-negative profile no sample is below 85% of its
    surroundings. *)
Lemma turn_step_constant (c : Q) (points : list TrackPointQ) (turns : list TurnQ)
    (i : nat) :
  0 <= c -> constant_speed c points ->
  window_in_range points i ->
  TrackMap.turn_step points turns i = Ok turns.
Proof.
  intros Hc Hconst Hwin. unfold constant_speed in Hconst.
  rewrite Forall_forall in Hconst.
  destruct (surrounding_ok points i Hwin) as (speeds & Hsur & Hne & Hfrom).
  destruct Hwin as [Hlo Hhi].
  destruct (at_index_in_range points i ltac:(lia)) as (pi & Hnth & Hat).
  unfold TrackMap.turn_step. rewrite Hat, Hsur. cbn [bind].
  assert (Havg : TrackMap.average speeds == c).
  { apply average_constant; [exact Hne|]. apply Forall_forall.
    intros s Hs. destruct (Hfrom s Hs) as (p & Hp & ->). auto. }
  assert (Hpi : TrackMap.tp_speed pi == c)
    by (apply Hconst; eapply nth_error_In; eassumption).
  replace (nltb (TrackMap.tp_speed pi)
                (nmul (TrackMap.average speeds) TrackMap.speedThreshold))
    with false; [reflexivity|].
  symmetry. qnum. apply Qltb_ge.
  fold (@TrackMap.speedThreshold Q _).
  rewrite Havg, Hpi, speedThreshold_value. lra.
Qed.

(** A strictly slower sample next to [i] makes [isMinimum] fail. *)
Lemma isMinimum_slower_neighbour (points : list TrackPointQ) (i j : nat)
    (pi pj : TrackPointQ) :
  In j (seq (i - 5) 11) -> j <> i ->
  nth_error points j = Some pj ->
  TrackMap.tp_speed pj < TrackMap.tp_speed pi ->
  TrackMap.isMinimum points i (TrackMap.tp_speed pi) = false.
Proof.
  intros Hj Hji Hpj Hlt. unfold TrackMap.isMinimum.
  destruct (forallb _ _) eqn:E; [|reflexivity].
  rewrite forallb_forall in E. specialize (E j Hj). rewrite Hpj in E.
  apply Nat.eqb_neq in Hji. rewrite Hji in E.
  qnum. apply Qltb_lt in Hlt. rewrite Hlt in E. discriminate.
Qed.

(** On a strictly increasing or decreasing profile every sample has a
    strictly slower neighbour. *)
Lemma turn_step_monotonic (points : list TrackPointQ) (turns : list TurnQ) (i : nat) :
  strictly_increasing_speed points \/ strictly_decreasing_speed points ->
  window_in_range points i ->
  TrackMap.turn_step points turns i = Ok turns.
Proof.
  intros Hmono Hwin.
  destruct (surrounding_ok points i Hwin) as (speeds & Hsur & _).
  unfold window_in_range, TrackMap.windowSize in Hwin. destruct Hwin as [Hlo Hhi].
  destruct (at_index_in_range points i ltac:(lia)) as (pi & Hnth & Hat).
  unfold TrackMap.turn_step. rewrite Hat, Hsur. cbn [bind].
  assert (Hmin : TrackMap.isMinimum points i (TrackMap.tp_speed pi) = false).
  { destruct Hmono as [Hinc | Hdec].
    - destruct (at_index_in_range points (i - 1) ltac:(lia)) as (pj & Hpj & _).
      apply (isMinimum_slower_neighbour points i (i - 1) pi pj).
      + apply in_seq. lia.
      + lia.
      + exact Hpj.
      + apply (Hinc (i - 1)%nat); [exact Hpj|].
        replace (S (i - 1)) with i by lia. exact Hnth.
    - destruct (at_index_in_range points (S i) ltac:(lia)) as (pj & Hpj & _).
      apply (isMinimum_slower_neighbour points i (S i) pi pj).
      + apply in_seq. lia.
      + lia.
      + exact Hpj.
      + apply (Hdec i); assumption. }
  rewrite Hmin. destruct (nltb _ _); reflexivity.
Qed.

(** A loop whose rounds all leave the markers alone draws none. *)
Lemma detectTurns_none (points : list TrackPointQ) :
  (forall i turns, window_in_range points i ->
                   TrackMap.turn_step points turns i = Ok turns) ->
  TrackMap.detectTurns points = Ok [].
Proof.
  intros Hstep. unfold TrackMap.detectTurns.
  destruct (for_each_seq_invariant (TrackMap.turn_step points)
              (fun _ turns => turns = [])
              (List.length points - TrackMap.windowSize - TrackMap.windowSize)
              TrackMap.windowSize [] eq_refl)
    as (markers & Hrun & ->); [|exact Hrun].
  intros i turns Hi ->. exists []. split; [|reflexivity].
  apply Hstep. unfold window_in_range. lia.
Qed.

Lemma detectTurns_short (points : list TrackPointQ) :
  (List.length points < 41)%nat -> TrackMap.detectTurns points = Ok [].
Proof.
  intros Hlen. unfold TrackMap.detectTurns, TrackMap.windowSize.
  replace (List.length points - 20 - 20)%nat with 0%nat by lia. reflexivity.
Qed.

(** C7: on a profile that is constant (at a speed that is not negative), or
    strictly increasing, or strictly decreasing, and on any input of fewer
    than 41 samples, the detector runs to completion, finds no corner and
    draws no marker, whatever the state of the chart. *)
Theorem no_corner_without_a_dip (chart : TrackMap.Chart Q) (tel : list PointQ) :
  (exists c, 0 <= c /\ constant_speed c (TrackMap.track_points tel)) \/
  strictly_increasing_speed (TrackMap.track_points tel) \/
  strictly_decreasing_speed (TrackMap.track_points tel) \/
  (List.length tel < 41)%nat ->
  exists chart', TrackMap.detectAndDrawTurns chart tel = Ok ([], [], chart').
Proof.
  intros Hprofile. unfold TrackMap.detectAndDrawTurns.
  destruct (List.length (TrackMap.track_points tel) <? 10)%nat;
    [exists chart; reflexivity|].
  assert (Hnone : TrackMap.detectTurns (TrackMap.track_points tel) = Ok []).
  { destruct Hprofile as [(c & Hc & Hconst) | [Hinc | [Hdec | Hshort]]].
    - apply detectTurns_none. intros i turns.
      now apply turn_step_constant with (c := c).
    - apply detectTurns_none. intros i turns.
      apply turn_step_monotonic. now left.
    - apply detectTurns_none. intros i turns.
      apply turn_step_monotonic. now right.
    - apply detectTurns_short. pose proof (track_points_length tel). lia. }
  rewrite Hnone. cbn [bind TrackMap.drawTurnMarkers map_outcome].
  eexists. reflexivity.
Qed.

Lemma flat_profile_constant (v : Q) (n : nat) :
  constant_speed v (TrackMap.track_points (flat_profile v n)).
Proof.
  unfold constant_speed, flat_profile. apply Forall_forall. intros t Ht.
  destruct (in_track_points _ t Ht) as (p & Hp & _ & Hs).
  apply in_map_iff in Hp. destruct Hp as (k & <- & _).
  cbn in Hs. injection Hs as <-. reflexivity.
Qed.

Lemma no_corner_without_a_dip_witness :
  exists chart',
    TrackMap.detectAndDrawTurns trackQ (flat_profile 300 60) = Ok ([], [], chart').
Proof.
  apply (no_corner_without_a_dip trackQ (flat_profile 300 60)).
  left. exists 300. split; [vm_compute; discriminate|].
  apply flat_profile_constant.
Defined.

(** A strictly increasing profile of 60 samples. *)
Example rising_profile_no_marker :
  exists chart',
    TrackMap.detectAndDrawTurns track_two_dips
      (map (fun k => let d := inject_Z (Z.of_nat k) * 10 in sample_at d (100 + d) d d)
           (seq 0 60))
    = Ok ([], [], chart').
Proof. eexists. vm_compute. reflexivity. Qed.

(** The constant case needs a speed that is not negative: on the rationals
    [-100] is below 85% of the average [-100] of its surroundings, and the
    detection loop marks the sample in the middle of 41.  Speeds are
    measured in km/h and are not negative. *)
Example negative_flat_profile_is_marked :
  exists m,
    TrackMap.detectTurns (TrackMap.track_points (flat_profile (-100) 41)) = Ok [m] /\
    TrackMap.turn_index m = 1%nat /\ TrackMap.turn_distance m == 200.
Proof.
  eexists. split; [vm_compute; reflexivity|].
  split; vm_compute; reflexivity.
Qed.

(** * Further properties of the charts *)

(** ** Nearest-sample lookup, continued *)

Lemma nearestPoint_first_min (target : Q) (tel : list PointQ) :
  tel <> [] ->
  exists i p, nearestPoint target tel = Ok p /\ first_min (gap target) tel i p.
Proof.
  intros Hne. destruct tel as [|a rest]; [contradiction|].
  unfold nearestPoint, reduce1. rewrite closer_keep_lower.
  destruct (fold_keep_lower_first_min (gap target) rest a) as (i & Hi).
  eauto.
Qed.

Lemma lapPointAt_cases (target : Q) (lap : LapQ) :
  (lapPointAt target lap = None /\
   (telemetry lap = None \/ telemetry lap = Some [])) \/
  (exists tel p,
     telemetry lap = Some tel /\ tel <> [] /\
     lapPointAt target lap = Some (Ok p) /\ In p tel).
Proof.
  unfold lapPointAt. destruct (telemetry lap) as [[|a rest]|] eqn:E.
  - left. auto.
  - right.
    destruct (nearestPoint_first_min target (a :: rest) ltac:(discriminate))
      as (i & p & Hp & Hi & _).
    exists (a :: rest), p. repeat split; try discriminate.
    + now rewrite Hp.
    + eapply nth_error_In; eassumption.
  - left. auto.
Qed.

(** X1: the per-lap lookup of the crosshair handlers and of the distance
    marker never raises: a lap without samples (missing or empty array) is
    skipped, and every other lap yields one of its own samples. *)
Theorem lapPointAt_never_raises (target : Q) (lap : LapQ) :
  (lapPointAt target lap = None /\
   (telemetry lap = None \/ telemetry lap = Some [])) \/
  (exists tel p,
     telemetry lap = Some tel /\ tel <> [] /\
     lapPointAt target lap = Some (Ok p) /\ In p tel).
Proof. exact (lapPointAt_cases target lap). Qed.

Lemma nearestPoint_hits_first (tel : list PointQ) (target : Q) (i : nat) (q : PointQ) :
  nth_error tel i = Some q -> distance q == target ->
  exists j p,
    nearestPoint target tel = Ok p /\
    (j <= i)%nat /\ nth_error tel j = Some p /\ distance p == target /\
    forall k r, (k < j)%nat -> nth_error tel k = Some r -> ~ distance r == target.
Proof.
  intros Hq Hd.
  assert (Hne : tel <> []) by (intros ->; destruct i; discriminate).
  destruct (nearestPoint_first_min target tel Hne) as (j & p & Hp & Hj & Hmin & Hfirst).
  assert (Hgq : gap target q == 0).
  { unfold gap. rewrite Hd. setoid_replace (target - target) with 0 by ring.
    reflexivity. }
  assert (Hgp : gap target p == 0).
  { pose proof (Hmin _ _ Hq) as Hle. pose proof (Qabs_nonneg (distance p - target)).
    unfold gap in *. lra. }
  exists j, p. split; [exact Hp|]. split; [|split; [exact Hj|split]].
  - destruct (Nat.le_gt_cases j i) as [Hle|Hgt]; [exact Hle|].
    pose proof (Hfirst _ _ Hgt Hq). lra.
  - unfold gap in Hgp.
    assert (Hle : Qabs (distance p - target) <= 0) by lra.
    apply Qabs_Qle_condition in Hle. lra.
  - intros k r Hk Hr Heq. pose proof (Hfirst _ _ Hk Hr) as Hlt.
    assert (gap target r == 0).
    { unfold gap. rewrite Heq. setoid_replace (target - target) with 0 by ring.
      reflexivity. }
    lra.
Qed.

(** X2: when some sample lies exactly at the target distance, the lookup
    returns the first sample that does. *)
Theorem nearestPoint_exact_hit (tel : list PointQ) (target : Q) (i : nat) (q : PointQ) :
  nth_error tel i = Some q -> distance q == target ->
  exists j p,
    nearestPoint target tel = Ok p /\
    (j <= i)%nat /\ nth_error tel j = Some p /\ distance p == target /\
    forall k r, (k < j)%nat -> nth_error tel k = Some r -> ~ distance r == target.
Proof. exact (nearestPoint_hits_first tel target i q). Qed.

Lemma nearestPoint_exact_hit_witness :
  exists j p,
    nearestPoint 20 (map (fun d => sample d 300) [0; 10; 20; 20; 30]) = Ok p /\
    (j <= 3)%nat /\
    nth_error (map (fun d => sample d 300) [0; 10; 20; 20; 30]) j = Some p /\
    distance p == 20 /\
    forall k r, (k < j)%nat ->
      nth_error (map (fun d => sample d 300) [0; 10; 20; 20; 30]) k = Some r ->
      ~ distance r == 20.
Proof.
  apply (nearestPoint_exact_hit (map (fun d => sample d 300) [0; 10; 20; 20; 30])
           20 3 (sample 20 300)); reflexivity.
Defined.

Lemma sorted_by_distance_nth (tel : list PointQ) :
  sorted_by_distance tel ->
  forall j k a b, (j <= k)%nat ->
    nth_error tel j = Some a -> nth_error tel k = Some b ->
    distance a <= distance b.
Proof.
  intros Hs j k a b Hjk Ha Hb.
  apply Sorted_StronglySorted in Hs; [|intros u v w Huv Hvw; lra].
  destruct (Nat.eq_dec j k) as [->|Hne].
  - assert (a = b) by congruence. subst. apply Qle_refl.
  - apply (StronglySorted_nth_error _ tel Hs j k a b); [lia | assumption | assumption].
Qed.

(** X3: on samples sorted by distance, a target at or before the first
    sample selects the first sample. *)
Theorem nearestPoint_before_first (first : PointQ) (rest : list PointQ) (target : Q) :
  sorted_by_distance (first :: rest) -> target <= distance first ->
  nearestPoint target (first :: rest) = Ok first.
Proof.
  intros Hs Ht.
  destruct (nearestPoint_first_min target (first :: rest) ltac:(discriminate))
    as (i & p & Hp & Hi & Hmin & Hfirst).
  rewrite Hp. f_equal.
  destruct i as [|i]; [cbn in Hi; congruence|].
  exfalso.
  pose proof (Hfirst 0%nat first ltac:(lia) eq_refl) as Hlt.
  pose proof (sorted_by_distance_nth _ Hs 0%nat (S i) first p ltac:(lia) eq_refl Hi) as Hle.
  unfold gap in Hlt. rewrite !Qabs_pos in Hlt by lra. lra.
Qed.

Lemma nearestPoint_before_first_witness :
  nearestPoint (-5) (sample 0 300 :: map (fun d => sample d 300) [10; 20; 30])
  = Ok (sample 0 300).
Proof.
  apply (nearestPoint_before_first (sample 0 300)
           (map (fun d => sample d 300) [10; 20; 30]) (-5)).
  - unfold sorted_by_distance. cbn [map].
    repeat (apply Sorted_cons || apply Sorted_nil
            || apply HdRel_cons || apply HdRel_nil); vm_compute; discriminate.
  - vm_compute. discriminate.
Defined.

(** X4: on samples sorted by distance, a target at or beyond the last sample
    selects the first of the samples that share the last distance. *)
Theorem nearestPoint_after_last (tel : list PointQ) (lst : PointQ) (target : Q) :
  sorted_by_distance tel -> last_element tel = Some lst -> distance lst <= target ->
  exists j p,
    nearestPoint target tel = Ok p /\ nth_error tel j = Some p /\
    distance p == distance lst /\
    forall k r, (k < j)%nat -> nth_error tel k = Some r ->
                distance r < distance lst.
Proof.
  intros Hs Hlast Ht.
  assert (Hne : tel <> []) by (intros ->; discriminate).
  assert (Hall : forall k r, nth_error tel k = Some r -> distance r <= distance lst).
  { intros k r Hr. unfold last_element in Hlast.
    apply (sorted_by_distance_nth _ Hs k (List.length tel - 1) r lst);
      [|assumption|assumption].
    assert (k < List.length tel)%nat by (apply nth_error_Some; congruence). lia. }
  assert (Hgap : forall k r, nth_error tel k = Some r ->
                             gap target r == target - distance r).
  { intros k r Hr. specialize (Hall _ _ Hr). unfold gap.
    rewrite Qabs_neg by lra. ring. }
  destruct (nearestPoint_first_min target tel Hne) as (j & p & Hp & Hj & Hmin & Hfirst).
  exists j, p. split; [exact Hp|]. split; [exact Hj|]. split.
  - pose proof (Hmin _ _ Hlast) as Hle.
    rewrite (Hgap _ _ Hj), (Hgap _ _ Hlast) in Hle.
    pose proof (Hall _ _ Hj). lra.
  - intros k r Hk Hr. pose proof (Hfirst _ _ Hk Hr) as Hlt.
    rewrite (Hgap _ _ Hj), (Hgap _ _ Hr) in Hlt.
    pose proof (Hall _ _ Hj). lra.
Qed.

Lemma nearestPoint_after_last_witness :
  exists j p,
    nearestPoint 99 (map (fun d => sample d 300) [0; 10; 30; 30]) = Ok p /\
    nth_error (map (fun d => sample d 300) [0; 10; 30; 30]) j = Some p /\
    distance p == distance (sample 30 300) /\
    forall k r, (k < j)%nat ->
      nth_error (map (fun d => sample d 300) [0; 10; 30; 30]) k = Some r ->
      distance r < distance (sample 30 300).
Proof.
  apply (nearestPoint_after_last (map (fun d => sample d 300) [0; 10; 30; 30])
           (sample 30 300) 99).
  - unfold sorted_by_distance. cbn [map].
    repeat (apply Sorted_cons || apply Sorted_nil
            || apply HdRel_cons || apply HdRel_nil); vm_compute; discriminate.
  - reflexivity.
  - vm_compute. discriminate.
Defined.

(** ** Delta estimation, continued *)

Lemma calculateDelta_error_cases
    (chart : MultiTelemetry.Chart Q) (point : PointQ) (lap : LapQ) :
  MultiTelemetry.calculateDelta chart point lap = TypeError <->
  exists ref,
    MultiTelemetry.referenceLap chart = Some ref /\
    telemetry ref = Some [] /\ same_object lap ref = false.
Proof.
  unfold MultiTelemetry.calculateDelta. split.
  - destruct (MultiTelemetry.referenceLap chart) as [ref|]; [|discriminate].
    destruct (telemetry ref) as [[|a rest]|] eqn:Etel; [| |discriminate].
    + destruct (same_object lap ref) eqn:Esame; [discriminate|].
      intros _. exists ref. auto.
    + destruct (same_object lap ref); [discriminate|].
      destruct (nearestPoint_first_min (distance point) (a :: rest) ltac:(discriminate))
        as (i & p & -> & _).
      cbn [bind]. destruct (_ && _); discriminate.
  - intros (ref & -> & -> & ->). reflexivity.
Qed.

(** X5: the estimator raises exactly when a reference lap is set whose
    telemetry is an empty array and the target lap is another lap; in every
    other case it returns a number. *)
Theorem calculateDelta_raises_iff
    (chart : MultiTelemetry.Chart Q) (point : PointQ) (lap : LapQ) :
  MultiTelemetry.calculateDelta chart point lap = TypeError <->
  exists ref,
    MultiTelemetry.referenceLap chart = Some ref /\
    telemetry ref = Some [] /\ same_object lap ref = false.
Proof. exact (calculateDelta_error_cases chart point lap). Qed.

Lemma truthy_opt_no_offset (p : PointQ) :
  no_time_offset p -> truthy_opt (time_ms p) = false.
Proof.
  unfold no_time_offset, truthy_opt. intros Hno.
  destruct (time_ms p) as [t|]; [|reflexivity].
  destruct (truthy t) eqn:E; [|reflexivity].
  apply truthy_Q in E. specialize (Hno t eq_refl). contradiction.
Qed.

(** X6: when the target sample or the matched reference sample has no time
    offset (missing, or 0), the estimate is a hundredth of the speed
    difference, reference minus target: positive exactly when the target is
    slower than the reference at that distance. *)
Theorem calculateDelta_heuristic
    (chart : MultiTelemetry.Chart Q) (point refPoint : PointQ) (lap ref : LapQ)
    (refTelemetry : list PointQ) (s rs : Q) :
  MultiTelemetry.referenceLap chart = Some ref ->
  telemetry ref = Some refTelemetry ->
  same_object lap ref = false ->
  nearestPoint (distance point) refTelemetry = Ok refPoint ->
  no_time_offset point \/ no_time_offset refPoint ->
  speed point = Some s -> speed refPoint = Some rs ->
  exists delta,
    MultiTelemetry.calculateDelta chart point lap = Ok delta /\
    delta == (rs - s) / 100 /\
    (0 < delta <-> s < rs).
Proof.
  intros Href Htel Hne Hnear Hno Hs Hrs.
  unfold MultiTelemetry.calculateDelta.
  rewrite Href, Htel, Hne, Hnear. cbn [bind].
  assert (Hcond : truthy_opt (time_ms point) && truthy_opt (time_ms refPoint) = false).
  { destruct Hno as [Hno|Hno]; rewrite (truthy_opt_no_offset _ Hno);
      [reflexivity | apply andb_false_r]. }
  rewrite Hcond, Hs, Hrs. cbn [to_number]. eexists. split; [reflexivity|].
  qnum. unfold inject_Z.
  assert (Hval : (rs - s) * ((1 # 1) / (100 # 1)) == (rs - s) / 100) by field.
  split; [exact Hval|]. rewrite Hval.
  setoid_replace ((rs - s) / 100) with ((rs - s) * (1 # 100)) by field.
  split; intros; lra.
Qed.

Lemma calculateDelta_heuristic_witness :
  exists delta,
    MultiTelemetry.calculateDelta chartAB (timed_sample 0 300 0) lapB = Ok delta /\
    delta == (280 - 300) / 100 /\
    (0 < delta <-> 300 < 280).
Proof.
  apply (calculateDelta_heuristic chartAB (timed_sample 0 300 0)
           (timed_sample 5 280 100) lapB lapA
           [timed_sample 5 280 100; timed_sample 60 290 900] 300 280);
    try reflexivity.
  left. intros t Ht. injection Ht as <-. reflexivity.
Defined.

(** X7: a comparison sample that repeats a reference sample [c] milliseconds
    later reads a delta of [c / 1000] seconds, provided the reference
    samples have distinct distances and neither time offset is 0. *)
Theorem calculateDelta_constant_shift
    (chart : MultiTelemetry.Chart Q) (lap ref : LapQ) (refTelemetry : list PointQ)
    (c : Q) (i : nat) (orig : PointQ) (t : Q) :
  MultiTelemetry.referenceLap chart = Some ref ->
  telemetry ref = Some refTelemetry ->
  same_object lap ref = false ->
  distinct_distances refTelemetry ->
  nth_error refTelemetry i = Some orig ->
  time_ms orig = Some t -> ~ t == 0 -> ~ t + c == 0 ->
  exists delta,
    MultiTelemetry.calculateDelta chart (shift_time c orig) lap = Ok delta /\
    delta == c / 1000.
Proof.
  intros Href Htel Hne Hdist Hi Ht Ht0 Htc.
  destruct (nearestPoint_hits_first refTelemetry (distance orig) i orig Hi
              ltac:(reflexivity))
    as (j & p & Hnear & _ & Hj & Hd & _).
  assert (j = i) by (apply (Hdist j i p orig); assumption). subst j.
  assert (p = orig) by congruence. subst p.
  unfold MultiTelemetry.calculateDelta.
  rewrite Href, Htel, Hne.
  change (distance (shift_time c orig)) with (distance orig).
  rewrite Hnear. cbn [bind].
  change (time_ms (shift_time c orig))
    with (option_map (fun u => u + c) (time_ms orig)).
  rewrite Ht. cbn [option_map truthy_opt to_number].
  apply truthy_Q in Ht0, Htc. rewrite Ht0, Htc. cbn [andb].
  eexists. split; [reflexivity|]. qnum. unfold inject_Z. field.
Qed.

Lemma calculateDelta_constant_shift_witness :
  exists delta,
    MultiTelemetry.calculateDelta chartAB
      (shift_time 250 (timed_sample 60 290 900)) lapB = Ok delta /\
    delta == 250 / 1000.
Proof.
  apply (calculateDelta_constant_shift chartAB lapB lapA
           [timed_sample 5 280 100; timed_sample 60 290 900]
           250 1 (timed_sample 60 290 900) 900);
    try reflexivity.
  - intros j k a b Ha Hb Hd.
    destruct j as [|[|[|j]]]; destruct k as [|[|[|k]]]; cbn in Ha, Hb;
      try discriminate; try reflexivity;
      injection Ha as <-; injection Hb as <-; vm_compute in Hd; discriminate.
  - intros E. vm_compute in E. discriminate.
  - intros E. vm_compute in E. discriminate.
Defined.

(** ** DRS regions, continued *)

Lemma active_app1 (tel : list PointQ) (p : PointQ) (k : nat) :
  (k < List.length tel)%nat -> active (tel ++ [p]) k = active tel k.
Proof. intros Hk. unfold active. now rewrite nth_error_app1. Qed.

Lemma active_app_last (tel : list PointQ) (p : PointQ) :
  active (tel ++ [p]) (List.length tel) = MultiTelemetry.drsOn p.
Proof.
  unfold active. rewrite nth_error_app2 by lia. now rewrite Nat.sub_diag.
Qed.

Lemma active_in_range (tel : list PointQ) (k : nat) :
  active tel k = true -> (k < List.length tel)%nat.
Proof.
  unfold active. intros H. apply nth_error_Some.
  destruct (nth_error tel k); [discriminate | discriminate].
Qed.

Lemma closed_run_snoc (tel : list PointQ) (p : PointQ) (i j : nat) :
  closed_run tel i j -> closed_run (tel ++ [p]) i j.
Proof.
  intros (Hij & Hj & Hact & Hoff & Hbefore).
  unfold closed_run. rewrite length_app. cbn [List.length].
  split; [exact Hij|]. split; [lia|]. split; [|split].
  - intros k Hk. rewrite active_app1 by lia. auto.
  - rewrite active_app1 by lia. exact Hoff.
  - destruct Hbefore as [->|Hb]; [now left|]. right.
    rewrite active_app1 by lia. exact Hb.
Qed.

Lemma closed_run_inside (tel : list PointQ) (p : PointQ) (i j : nat) :
  closed_run (tel ++ [p]) i j -> (j < List.length tel)%nat -> closed_run tel i j.
Proof.
  intros (Hij & _ & Hact & Hoff & Hbefore) Hj.
  split; [exact Hij|]. split; [exact Hj|]. split; [|split].
  - intros k Hk. rewrite <- (active_app1 tel p) by lia. auto.
  - rewrite <- (active_app1 tel p) by lia. exact Hoff.
  - destruct Hbefore as [->|Hb]; [now left|]. right.
    rewrite <- (active_app1 tel p) by lia. exact Hb.
Qed.

Lemma closed_run_at_end (tel : list PointQ) (p : PointQ) (i j : nat) :
  closed_run (tel ++ [p]) i j -> ~ (j < List.length tel)%nat ->
  j = List.length tel /\ MultiTelemetry.drsOn p = false /\ pending_run tel i.
Proof.
  intros (Hij & Hj & Hact & Hoff & Hbefore) Hout.
  rewrite length_app in Hj. cbn [List.length] in Hj.
  assert (j = List.length tel) by lia. subst j.
  rewrite active_app_last in Hoff.
  split; [reflexivity|]. split; [exact Hoff|].
  split; [exact Hij|]. split.
  - intros k Hk. rewrite <- (active_app1 tel p) by lia. apply Hact. lia.
  - destruct Hbefore as [->|Hb]; [now left|]. right.
    rewrite <- (active_app1 tel p) by lia. exact Hb.
Qed.

Lemma pending_run_unique (tel : list PointQ) (i i' : nat) :
  pending_run tel i -> pending_run tel i' -> i = i'.
Proof.
  intros (Hi & Hact & Hb) (Hi' & Hact' & Hb').
  destruct (Nat.lt_trichotomy i i') as [Hlt|[Heq|Hgt]]; [|exact Heq|].
  - destruct Hb' as [->|Hoff]; [lia|].
    rewrite Hact in Hoff by lia. discriminate.
  - destruct Hb as [->|Hoff]; [lia|].
    rewrite Hact' in Hoff by lia. discriminate.
Qed.

Lemma rect_of_run_snoc (xs : LinearScale Q) (scale : BandQ) (tel : list PointQ)
    (p : PointQ) (r : MultiTelemetry.Rect Q) (i j : nat) :
  (j < List.length tel)%nat -> (i < j)%nat ->
  (rect_of_run xs scale (tel ++ [p]) r i j <-> rect_of_run xs scale tel r i j).
Proof.
  intros Hj Hij. unfold rect_of_run.
  rewrite !nth_error_app1 by lia. reflexivity.
Qed.

(** The DRS loop keeps [drs_state_ok]. *)
Lemma drs_loop_state (xs : LinearScale Q) (scale : BandQ) (tel : list PointQ) :
  drs_state_ok xs scale tel
    (fold_left (MultiTelemetry.drs_step xs scale) tel (None, [])).
Proof.
  induction tel as [|p tel IH] using rev_ind.
  - split; [|now left]. cbn. intros r. split; [intros []|].
    intros (i & j & (_ & Hj & _) & _). cbn in Hj. lia.
  - rewrite fold_left_app. cbn [fold_left].
    set (st := fold_left (MultiTelemetry.drs_step xs scale) tel (None, [])) in *.
    destruct IH as [Hrects Hpend].
    assert (Hkeep : MultiTelemetry.drsOn p = true ->
              forall r, In r (snd st) <->
                exists i j, closed_run (tel ++ [p]) i j /\
                            rect_of_run xs scale (tel ++ [p]) r i j).
    { intros Hon r. rewrite Hrects. split.
      - intros (i & j & Hrun & Hr). exists i, j.
        split; [now apply closed_run_snoc|].
        destruct Hrun as (Hij & Hj & _). now apply rect_of_run_snoc.
      - intros (i & j & Hrun & Hr).
        destruct (Nat.lt_ge_cases j (List.length tel)) as [Hin|Hout].
        + exists i, j. split; [now apply closed_run_inside with p|].
          destruct Hrun as (Hij & _). now apply (rect_of_run_snoc xs scale tel p).
        + destruct (closed_run_at_end tel p i j Hrun ltac:(lia)) as (_ & Hoff & _).
          congruence. }
    unfold MultiTelemetry.drs_step.
    destruct (MultiTelemetry.drsOn p) eqn:Ep; destruct (fst st) as [drsStart|] eqn:Es;
      unfold drs_state_ok; cbn [fst snd].
    + (* still open *)
      split; [now apply Hkeep|]. rewrite Es.
      destruct Hpend as (i & o & (Hi & Hact & Hb) & Ho & Hd).
      exists i, o. split; [|split; [|exact Hd]].
      * unfold pending_run. rewrite length_app. cbn [List.length].
        split; [lia|]. split.
        -- intros k Hk. destruct (Nat.lt_ge_cases k (List.length tel)) as [Hin|Hout].
           ++ rewrite active_app1 by lia. apply Hact. lia.
           ++ replace k with (List.length tel) by lia.
              now rewrite active_app_last.
        -- destruct Hb as [->|Hoff]; [now left|]. right.
           rewrite active_app1 by lia. exact Hoff.
      * rewrite nth_error_app1 by lia. exact Ho.
    + (* opens here *)
      cbn [fst snd]. split; [now apply Hkeep|].
      exists (List.length tel), p. split; [|split; [|reflexivity]].
      * unfold pending_run. rewrite length_app. cbn [List.length].
        split; [lia|]. split.
        -- intros k Hk. replace k with (List.length tel) by lia.
           now rewrite active_app_last.
        -- destruct Hpend as [->|Hoff]; [now left|].
           destruct tel as [|a tel'] eqn:Etel; [now left|]. right.
           rewrite <- Etel in *. rewrite active_app1; [exact Hoff|].
           rewrite Etel. cbn [List.length]. lia.
      * rewrite nth_error_app2 by lia. now rewrite Nat.sub_diag.
    + (* closes here *)
      cbn [fst snd]. split.
      * destruct Hpend as (i0 & o & Hpending & Ho & Hd).
        intros r. rewrite in_app_iff, Hrects. split.
        -- intros [(i & j & Hrun & Hr) | [<- | []]].
           ++ exists i, j. split; [now apply closed_run_snoc|].
              destruct Hrun as (Hij & Hj & _). now apply rect_of_run_snoc.
           ++ exists i0, (List.length tel).
              destruct Hpending as (Hi0 & Hact & Hb). split.
              ** unfold closed_run. rewrite length_app. cbn [List.length].
                 split; [lia|]. split; [lia|]. split; [|split].
                 --- intros k Hk. rewrite active_app1 by lia. apply Hact. lia.
                 --- now rewrite active_app_last.
                 --- destruct Hb as [->|Hoff]; [now left|]. right.
                     rewrite active_app1 by lia. exact Hoff.
              ** exists o, p. split; [rewrite nth_error_app1 by lia; exact Ho|].
                 split; [rewrite nth_error_app2 by lia; now rewrite Nat.sub_diag|].
                 subst drsStart. reflexivity.
        -- intros (i & j & Hrun & Hr).
           destruct (Nat.lt_ge_cases j (List.length tel)) as [Hin|Hout].
           ++ left. exists i, j. split; [now apply closed_run_inside with p|].
              destruct Hrun as (Hij & _). now apply (rect_of_run_snoc xs scale tel p).
           ++ right. left.
              destruct (closed_run_at_end tel p i j Hrun ltac:(lia)) as (-> & _ & Hpi).
              assert (i = i0) by (eapply pending_run_unique; eassumption). subst i.
              destruct Hr as (o' & c' & Ho' & Hc' & ->).
              destruct Hpending as (Hi0 & _).
              rewrite nth_error_app1 in Ho' by lia.
              rewrite nth_error_app2, Nat.sub_diag in Hc' by lia.
              cbn in Hc'. assert (o' = o) by congruence.
              assert (c' = p) by congruence. subst. reflexivity.
      * right. rewrite length_app. cbn [List.length].
        replace (List.length tel + 1 - 1)%nat with (List.length tel) by lia.
        now rewrite active_app_last.
    + (* still closed *)
      split.
      * intros r. rewrite Hrects. split.
        -- intros (i & j & Hrun & Hr). exists i, j.
           split; [now apply closed_run_snoc|].
           destruct Hrun as (Hij & Hj & _). now apply rect_of_run_snoc.
        -- intros (i & j & Hrun & Hr).
           destruct (Nat.lt_ge_cases j (List.length tel)) as [Hin|Hout].
           ++ exists i, j. split; [now apply closed_run_inside with p|].
              destruct Hrun as (Hij & _). now apply (rect_of_run_snoc xs scale tel p).
           ++ exfalso.
              destruct (closed_run_at_end tel p i j Hrun ltac:(lia))
                as (-> & _ & (Hi & Hact & _)).
              destruct Hpend as [->|Hoff]; [cbn in Hi; lia|].
              rewrite Hact in Hoff by lia. discriminate.
      * rewrite Es. right. rewrite length_app. cbn [List.length].
        replace (List.length tel + 1 - 1)%nat with (List.length tel) by lia.
        now rewrite active_app_last.
Qed.

Lemma Forall2_impl_in {A B : Type} (R R' : A -> B -> Prop) (l : list A) (l' : list B) :
  Forall2 R l l' -> (forall a b, In b l' -> R a b -> R' a b) -> Forall2 R' l l'.
Proof.
  induction 1 as [|a b l l' Hab _ IH]; intros Himpl; constructor.
  - apply Himpl; [now left | exact Hab].
  - apply IH. intros a' b' Hb'. apply Himpl. now right.
Qed.

Lemma StronglySorted_snoc {A : Type} (R : A -> A -> Prop) (l : list A) (x : A) :
  StronglySorted R l -> (forall a, In a l -> R a x) -> StronglySorted R (l ++ [x]).
Proof.
  induction 1 as [|a l Hs IH Hall]; intros Hx; cbn [app].
  - constructor; constructor.
  - constructor.
    + apply IH. intros b Hb. apply Hx. now right.
    + apply Forall_app. split; [exact Hall|].
      constructor; [apply Hx; now left | constructor].
Qed.

(** The rectangles of the DRS loop, as a list: one for every closed opening
    of the samples seen so far, in their order. *)
Lemma drs_loop_runs (xs : LinearScale Q) (scale : BandQ) (tel : list PointQ) :
  exists runs,
    closed_runs_of tel runs /\
    rects_of_runs xs scale tel
      (snd (fold_left (MultiTelemetry.drs_step xs scale) tel (None, []))) runs.
Proof.
  induction tel as [|p tel IH] using rev_ind.
  - exists []. split; [split|constructor].
    + intros i j. split; [intros []|]. intros (_ & Hj & _). cbn in Hj. lia.
    + constructor.
  - destruct IH as (runs & [Hiff Hsorted] & Hrects).
    pose proof (drs_loop_state xs scale tel) as [_ Hpend].
    rewrite fold_left_app. cbn [fold_left].
    set (st := fold_left (MultiTelemetry.drs_step xs scale) tel (None, [])) in *.
    assert (Hold : rects_of_runs xs scale (tel ++ [p]) (snd st) runs).
    { refine (Forall2_impl_in _ _ _ _ Hrects _). intros r [i j] Hin Hr.
      apply Hiff in Hin. destruct Hin as (Hij & Hj & _). cbn [fst snd] in *.
      now apply rect_of_run_snoc. }
    assert (Hkeep : (forall i, pending_run tel i -> MultiTelemetry.drsOn p = true) ->
              closed_runs_of (tel ++ [p]) runs).
    { intros Hnone. split; [|exact Hsorted]. intros i j. rewrite Hiff. split.
      - apply closed_run_snoc.
      - intros Hrun.
        destruct (Nat.lt_ge_cases j (List.length tel)) as [Hin|Hout].
        + now apply closed_run_inside with p.
        + destruct (closed_run_at_end tel p i j Hrun ltac:(lia)) as (_ & Hoff & Hpi).
          rewrite (Hnone i Hpi) in Hoff. discriminate. }
    unfold MultiTelemetry.drs_step.
    destruct (MultiTelemetry.drsOn p) eqn:Ep; destruct (fst st) as [drsStart|] eqn:Es.
    + exists runs. split; [apply Hkeep; reflexivity | exact Hold].
    + exists runs. cbn [snd]. split; [apply Hkeep; reflexivity | exact Hold].
    + destruct Hpend as (i0 & o & Hpending & Ho & Hd).
      exists (runs ++ [(i0, List.length tel)]). cbn [snd]. split; [split|].
      * intros i j. rewrite in_app_iff, Hiff. split.
        -- intros [Hrun | [Heq | []]]; [now apply closed_run_snoc|].
           injection Heq as <- <-.
           destruct Hpending as (Hi0 & Hact & Hb).
           unfold closed_run. rewrite length_app. cbn [List.length].
           split; [lia|]. split; [lia|]. split; [|split].
           ++ intros k Hk. rewrite active_app1 by lia. apply Hact. lia.
           ++ now rewrite active_app_last.
           ++ destruct Hb as [->|Hoff]; [now left|]. right.
              rewrite active_app1 by lia. exact Hoff.
        -- intros Hrun.
           destruct (Nat.lt_ge_cases j (List.length tel)) as [Hin|Hout].
           ++ left. now apply closed_run_inside with p.
           ++ right. left.
              destruct (closed_run_at_end tel p i j Hrun ltac:(lia)) as (-> & _ & Hpi).
              now rewrite (pending_run_unique tel i i0 Hpi Hpending).
      * apply StronglySorted_snoc; [exact Hsorted|].
        intros [i j] Hin. apply Hiff in Hin. cbn [fst snd].
        destruct Hin as (_ & Hj & _ & Hoff & _).
        destruct Hpending as (_ & Hact & _).
        destruct (Nat.lt_ge_cases j i0) as [Hlt|Hge]; [exact Hlt|].
        rewrite Hact in Hoff by lia. discriminate.
      * apply Forall2_app; [exact Hold|]. constructor; [|constructor].
        cbn [fst snd]. exists o, p.
        destruct Hpending as (Hi0 & _).
        split; [rewrite nth_error_app1 by lia; exact Ho|].
        split; [rewrite nth_error_app2 by lia; now rewrite Nat.sub_diag|].
        subst drsStart. reflexivity.
    + exists runs. split; [|exact Hold]. apply Hkeep.
      intros i (Hi & Hact & _).
      destruct Hpend as [->|Hoff]; [cbn in Hi; lia|].
      rewrite Hact in Hoff by lia. discriminate.
Qed.

(** X8: the rectangles of the DRS channel are exactly the closed openings of
    the lap, as a list: there is one rectangle for every maximal run of
    active samples that is followed by an inactive sample, from the first
    sample of the run to that inactive sample, the rectangles come in the
    order of the runs, and there is no other rectangle and none twice. *)
Theorem drs_rectangles_are_closed_runs (xs : LinearScale Q) (scale : BandQ)
    (tel : list PointQ) :
  exists runs,
    closed_runs_of tel runs /\
    rects_of_runs xs scale tel (MultiTelemetry.drawDrs xs scale tel) runs /\
    List.length (MultiTelemetry.drawDrs xs scale tel) = List.length runs /\
    forall r, In r (MultiTelemetry.drawDrs xs scale tel) <->
              exists i j, closed_run tel i j /\ rect_of_run xs scale tel r i j.
Proof.
  destruct (drs_loop_runs xs scale tel) as (runs & Hruns & Hrects).
  exists runs. split; [exact Hruns|]. split; [exact Hrects|].
  split; [exact (Forall2_length Hrects)|].
  unfold MultiTelemetry.drawDrs. apply (drs_loop_state xs scale tel).
Qed.

Lemma Qeq_bool_false (a b : Q) : ~ a == b -> Qeq_bool a b = false.
Proof.
  intros Hne. destruct (Qeq_bool a b) eqn:E; [|reflexivity].
  apply Qeq_bool_iff in E. contradiction.
Qed.

(** On a domain of positive width the scale is the line through the two
    ends of domain and range. *)
Lemma scale_apply_linear (s : LinearScale Q) (v : Q) :
  domain0 s < domain1 s ->
  scale_apply s v
  == range0 s
     + (v - domain0 s) * ((range1 s - range0 s) / (domain1 s - domain0 s)).
Proof.
  intros Hd. unfold scale_apply. qnum.
  rewrite (Qeq_bool_false (domain1 s - domain0 s) 0) by lra.
  cbn [negb]. unfold inject_Z. field. lra.
Qed.

Lemma scale_apply_monotone (s : LinearScale Q) (v v' : Q) :
  increasing_scale s -> v <= v' -> scale_apply s v <= scale_apply s v'.
Proof.
  intros [Hd Hr] Hv. rewrite !scale_apply_linear by exact Hd.
  set (k := (range1 s - range0 s) / (domain1 s - domain0 s)).
  assert (Hk : 0 <= k).
  { unfold k. apply Qle_shift_div_l; lra. }
  assert (0 <= (v' - v) * k) by (apply Qmult_le_0_compat; lra).
  setoid_replace ((v' - domain0 s) * k)
    with ((v - domain0 s) * k + (v' - v) * k) by ring.
  lra.
Qed.

(** X9: on samples sorted by distance and under an x scale that grows with
    the distance, every DRS rectangle has a width that is not negative, lies
    between the x positions of the first and the last sample, and fills its
    band from top to bottom. *)
Theorem drs_rectangles_geometry (xs : LinearScale Q) (scale : BandQ)
    (tel : list PointQ) (first lst : PointQ) (r : MultiTelemetry.Rect Q) :
  increasing_scale xs -> sorted_by_distance tel ->
  nth_error tel 0 = Some first -> last_element tel = Some lst ->
  In r (MultiTelemetry.drawDrs xs scale tel) ->
  0 <= MultiTelemetry.rect_width r /\
  scale_apply xs (distance first) <= MultiTelemetry.rect_x r /\
  MultiTelemetry.rect_x r + MultiTelemetry.rect_width r
  <= scale_apply xs (distance lst) /\
  MultiTelemetry.rect_y r = MultiTelemetry.band_offset scale /\
  MultiTelemetry.rect_height r = MultiTelemetry.band_height scale.
Proof.
  intros Hxs Hs Hfirst Hlast Hr.
  apply (drs_loop_state xs scale tel) in Hr.
  destruct Hr as (i & j & (Hij & Hj & _) & o & c & Ho & Hc & ->).
  unfold drs_rect.
  cbn [MultiTelemetry.rect_x MultiTelemetry.rect_y MultiTelemetry.rect_width
       MultiTelemetry.rect_height].
  pose proof (scale_apply_monotone xs _ _ Hxs
                (sorted_by_distance_nth tel Hs i j o c ltac:(lia) Ho Hc)) as Hoc.
  pose proof (scale_apply_monotone xs _ _ Hxs
                (sorted_by_distance_nth tel Hs 0%nat i first o ltac:(lia) Hfirst Ho))
    as Hfo.
  unfold last_element in Hlast.
  pose proof (scale_apply_monotone xs _ _ Hxs
                (sorted_by_distance_nth tel Hs j (List.length tel - 1) c lst
                   ltac:(lia) Hc Hlast)) as Hcl.
  repeat split; try reflexivity; lra.
Qed.

Lemma drs_rectangles_geometry_witness :
  0 <= MultiTelemetry.rect_width (drs_rect drs_xScale drs_band
                                    (drs_sample 10 12) (drs_sample 30 0)) /\
  scale_apply drs_xScale (distance (drs_sample 0 0))
  <= MultiTelemetry.rect_x (drs_rect drs_xScale drs_band
                              (drs_sample 10 12) (drs_sample 30 0)) /\
  MultiTelemetry.rect_x (drs_rect drs_xScale drs_band
                           (drs_sample 10 12) (drs_sample 30 0))
  + MultiTelemetry.rect_width (drs_rect drs_xScale drs_band
                                 (drs_sample 10 12) (drs_sample 30 0))
  <= scale_apply drs_xScale (distance drs_final) /\
  MultiTelemetry.rect_y (drs_rect drs_xScale drs_band
                           (drs_sample 10 12) (drs_sample 30 0))
  = MultiTelemetry.band_offset drs_band /\
  MultiTelemetry.rect_height (drs_rect drs_xScale drs_band
                                (drs_sample 10 12) (drs_sample 30 0))
  = MultiTelemetry.band_height drs_band.
Proof.
  apply (drs_rectangles_geometry drs_xScale drs_band (drs_body ++ [drs_final])
           (drs_sample 0 0) drs_final).
  - split; vm_compute; [reflexivity | discriminate].
  - unfold sorted_by_distance, drs_body. cbn [app].
    repeat (apply Sorted_cons || apply Sorted_nil
            || apply HdRel_cons || apply HdRel_nil); vm_compute; discriminate.
  - reflexivity.
  - reflexivity.
  - vm_compute. left. reflexivity.
Defined.

(** ** Scales of the telemetry charts *)

(** On numbers [d3_max] is the greatest value, or undefined on no values. *)
Lemma d3_max_spec {A : Type} (f : A -> option Q) (arr : list A) :
  (d3_max f arr = None /\ forall a, In a arr -> f a = None) \/
  (exists m,
     d3_max f arr = Some m /\
     (exists a, In a arr /\ f a = Some m) /\
     forall a v, In a arr -> f a = Some v -> v <= m).
Proof.
  induction arr as [|a arr IH] using rev_ind.
  - left. split; [reflexivity | intros a []].
  - unfold d3_max in *. rewrite fold_left_app. cbn [fold_left].
    destruct IH as [[-> Hnone] | (m & -> & (a0 & Ha0 & Hfa0) & Hmax)].
    + destruct (f a) as [v|] eqn:Efa.
      * right. qnum.
        replace (Qle_bool v v) with true
          by (symmetry; apply Qle_bool_iff; apply Qle_refl).
        exists v. split; [reflexivity|]. split.
        -- exists a. split; [apply in_or_app; right; now left | exact Efa].
        -- intros b u Hb Hu. apply in_app_or in Hb.
           destruct Hb as [Hb | [<- | []]].
           ++ rewrite (Hnone _ Hb) in Hu. discriminate.
           ++ assert (u = v) by congruence. subst. apply Qle_refl.
      * left. split; [reflexivity|]. intros b Hb. apply in_app_or in Hb.
        destruct Hb as [Hb | [<- | []]]; auto.
    + right. destruct (f a) as [v|] eqn:Efa.
      * qnum. destruct (Qltb m v) eqn:E.
        -- apply Qltb_lt in E. exists v. split; [reflexivity|]. split.
           ++ exists a. split; [apply in_or_app; right; now left | exact Efa].
           ++ intros b u Hb Hu. apply in_app_or in Hb.
              destruct Hb as [Hb | [<- | []]].
              ** specialize (Hmax _ _ Hb Hu). lra.
              ** assert (u = v) by congruence. subst. apply Qle_refl.
        -- apply Qltb_ge in E. exists m. split; [reflexivity|]. split.
           ++ exists a0. split; [apply in_or_app; now left | exact Hfa0].
           ++ intros b u Hb Hu. apply in_app_or in Hb.
              destruct Hb as [Hb | [<- | []]].
              ** eauto.
              ** assert (u = v) by congruence. subst. exact E.
      * exists m. split; [reflexivity|]. split.
        -- exists a0. split; [apply in_or_app; now left | exact Hfa0].
        -- intros b u Hb Hu. apply in_app_or in Hb.
           destruct Hb as [Hb | [<- | []]]; [eauto | congruence].
Qed.

(** [d3.max(...) || dflt] with a positive default is never 0, bounds every
    value, is the default when there is no value, and is positive as soon as
    one value is not negative. *)
Lemma or_default_bound {A : Type} (f : A -> option Q) (arr : list A) (dflt : Q) :
  0 < dflt ->
  ~ or_default (d3_max f arr) dflt == 0 /\
  (forall a v, In a arr -> f a = Some v -> v <= or_default (d3_max f arr) dflt) /\
  ((forall a, In a arr -> f a = None) -> or_default (d3_max f arr) dflt = dflt) /\
  (forall a v, In a arr -> f a = Some v -> 0 <= v ->
               0 < or_default (d3_max f arr) dflt).
Proof.
  intros Hd. unfold or_default.
  destruct (d3_max_spec f arr) as [[-> Hnone] | (m & -> & (a0 & Ha0 & Hfa0) & Hmax)].
  - split; [lra|]. split; [|split; [reflexivity|]].
    + intros a v Ha Hv. rewrite (Hnone _ Ha) in Hv. discriminate.
    + intros a v Ha Hv. rewrite (Hnone _ Ha) in Hv. discriminate.
  - destruct (truthy m) eqn:Et.
    + apply truthy_Q in Et. split; [exact Et|]. split; [exact Hmax|]. split.
      * intros Hnone. rewrite (Hnone _ Ha0) in Hfa0. discriminate.
      * intros a v Ha Hv Hpos. specialize (Hmax _ _ Ha Hv).
        destruct (Qlt_le_dec 0 m) as [Hlt|Hle]; [exact Hlt|].
        exfalso. apply Et. lra.
    + assert (Hm : m == 0).
      { destruct (Qeq_dec m 0) as [E|E]; [exact E|].
        apply truthy_Q in E. congruence. }
      split; [lra|]. split; [|split].
      * intros a v Ha Hv. specialize (Hmax _ _ Ha Hv). lra.
      * intros Hnone. rewrite (Hnone _ Ha0) in Hfa0. discriminate.
      * intros. exact Hd.
Qed.

(** A scale with a domain of positive width and a range that runs downwards
    maps the domain into the range. *)
Lemma scale_apply_inverted_within (s : LinearScale Q) (v : Q) :
  domain0 s < domain1 s -> range1 s <= range0 s ->
  domain0 s <= v <= domain1 s ->
  range1 s <= scale_apply s v <= range0 s.
Proof.
  intros Hd Hr [Hlo Hhi]. rewrite scale_apply_linear by exact Hd.
  set (k := (range0 s - range1 s) / (domain1 s - domain0 s)).
  assert (Hk : 0 <= k) by (unfold k; apply Qle_shift_div_l; lra).
  assert (Hfull : (domain1 s - domain0 s) * k == range0 s - range1 s)
    by (unfold k; field; lra).
  assert (H1 : 0 <= (v - domain0 s) * k) by (apply Qmult_le_0_compat; lra).
  assert (H2 : 0 <= (domain1 s - v) * k) by (apply Qmult_le_0_compat; lra).
  setoid_replace ((v - domain0 s) * ((range1 s - range0 s) / (domain1 s - domain0 s)))
    with (- ((v - domain0 s) * k)) by (unfold k; field; lra).
  setoid_replace ((domain1 s - v) * k)
    with ((domain1 s - domain0 s) * k - (v - domain0 s) * k) in H2 by ring.
  set (t := (v - domain0 s) * k) in *. clearbody t. lra.
Qed.

(** A scale that grows maps its domain into its range. *)
Lemma scale_apply_within (s : LinearScale Q) (v : Q) :
  increasing_scale s -> domain0 s <= v <= domain1 s ->
  range0 s <= scale_apply s v <= range1 s.
Proof.
  intros Hinc [Hlo Hhi].
  assert (E0 : scale_apply s (domain0 s) == range0 s).
  { rewrite scale_apply_linear by apply Hinc. ring. }
  assert (E1 : scale_apply s (domain1 s) == range1 s).
  { rewrite scale_apply_linear by apply Hinc. field. destruct Hinc. lra. }
  pose proof (scale_apply_monotone s _ _ Hinc Hlo).
  pose proof (scale_apply_monotone s _ _ Hinc Hhi). lra.
Qed.

Lemma dec_105_100 : dec 105 100 == (21 # 20)%Q.
Proof. reflexivity. Qed.

Lemma in_all_points (ls : list LapQ) (lap : LapQ) (p : PointQ) :
  In lap ls -> In p (telemetry_or_empty lap) ->
  In p (flat_map (@telemetry_or_empty Q) ls).
Proof. intros Hl Hp. apply in_flat_map. eauto. Qed.

(** X10: after [setupScales] of the speed trace chart on loaded laps, every
    sample with a distance and a speed that are not negative is drawn inside
    the plot: its x position lies between 0 and the width, its y position
    between 0 and the height. *)
Theorem speed_trace_inside_plot (chart : TelemetryChart.Chart Q)
    (data : option (ChartData Q)) (ls : list LapQ) (lap : LapQ) (p : PointQ) (s : Q) :
  loaded_laps data = Some ls ->
  0 <= width (TelemetryChart.base chart) ->
  0 <= height (TelemetryChart.base chart) ->
  In lap ls -> In p (telemetry_or_empty lap) ->
  0 <= distance p -> speed p = Some s -> 0 <= s ->
  exists xs ys,
    TelemetryChart.xScale (TelemetryChart.setupScales chart data) = Some xs /\
    TelemetryChart.ySpeedScale (TelemetryChart.setupScales chart data) = Some ys /\
    0 <= scale_apply xs (distance p) <= width (TelemetryChart.base chart) /\
    0 <= scale_apply ys s <= height (TelemetryChart.base chart).
Proof.
  intros Hl Hw Hh Hlap Hp Hd Hs Hs0.
  unfold TelemetryChart.setupScales. rewrite Hl.
  cbn [TelemetryChart.xScale TelemetryChart.ySpeedScale].
  pose proof (in_all_points ls lap p Hlap Hp) as Hin.
  set (pts := flat_map (@telemetry_or_empty Q) ls) in *.
  assert (H5000 : 0 < @num Q _ 5000) by reflexivity.
  assert (H350 : 0 < @num Q _ 350) by reflexivity.
  destruct (or_default_bound (fun d : PointQ => Some (distance d)) pts _ H5000)
    as (_ & Hdmax & _ & Hdpos).
  destruct (or_default_bound (@speed Q) pts _ H350) as (_ & Hsmax & _ & Hspos).
  specialize (Hdmax p _ Hin eq_refl). specialize (Hdpos p _ Hin eq_refl Hd).
  specialize (Hsmax p _ Hin Hs). specialize (Hspos p _ Hin Hs Hs0).
  set (maxDistance := or_default _ _) in Hdmax, Hdpos |- *.
  set (maxSpeed := or_default _ _) in Hsmax, Hspos |- *.
  exists (mkScale 0 maxDistance 0 (width (TelemetryChart.base chart))),
         (mkScale 0 (maxSpeed * dec 105 100) (height (TelemetryChart.base chart)) 0).
  split; [reflexivity|]. split; [reflexivity|]. split.
  - apply (scale_apply_within
             (mkScale 0 maxDistance 0 (width (TelemetryChart.base chart)))).
    + split; cbn [domain0 domain1 range0 range1]; [exact Hdpos | exact Hw].
    + cbn [domain0 domain1]. split; [exact Hd | exact Hdmax].
  - apply (scale_apply_inverted_within
             (mkScale 0 (maxSpeed * dec 105 100)
                      (height (TelemetryChart.base chart)) 0));
      cbn [domain0 domain1 range0 range1].
    + rewrite dec_105_100. lra.
    + exact Hh.
    + rewrite dec_105_100. split; lra.
Qed.

Lemma speed_trace_inside_plot_witness :
  exists xs ys,
    TelemetryChart.xScale (TelemetryChart.setupScales speedAB (Some two_laps))
    = Some xs /\
    TelemetryChart.ySpeedScale (TelemetryChart.setupScales speedAB (Some two_laps))
    = Some ys /\
    0 <= scale_apply xs (distance (timed_sample 55 310 800))
      <= width (TelemetryChart.base speedAB) /\
    0 <= scale_apply ys 310 <= height (TelemetryChart.base speedAB).
Proof.
  apply (speed_trace_inside_plot speedAB (Some two_laps) [lapA; lapB] lapB
           (timed_sample 55 310 800) 310);
    try reflexivity; try (vm_compute; discriminate).
  - right. left. reflexivity.
  - right. left. reflexivity.
Defined.

(** *** Loops that may raise *)

Lemma map_outcome_error_iff {A B : Type} (f : A -> outcome B) (arr : list A) :
  map_outcome f arr = TypeError <-> exists a, In a arr /\ f a = TypeError.
Proof.
  induction arr as [|a arr IH]; cbn [map_outcome].
  - split; [discriminate | intros (a & [] & _)].
  - destruct (f a) as [b|] eqn:Efa; cbn [bind].
    + destruct (map_outcome f arr) as [bs|] eqn:Erest; cbn [bind].
      * split; [discriminate|]. intros (a' & [<- | Hin] & Hf); [congruence|].
        assert (Hex : exists a0, In a0 arr /\ f a0 = TypeError) by eauto.
        apply IH in Hex. discriminate.
      * split; [|reflexivity]. intros _.
        destruct (proj1 IH eq_refl) as (a' & Hin & Hf).
        exists a'. split; [now right | exact Hf].
    + split; [|reflexivity]. intros _. exists a. split; [now left | exact Efa].
Qed.

Lemma map_outcome_Ok {A B : Type} (f : A -> outcome B) (arr : list A) (bs : list B) :
  map_outcome f arr = Ok bs -> Forall2 (fun a b => f a = Ok b) arr bs.
Proof.
  revert bs. induction arr as [|a arr IH]; cbn [map_outcome]; intros bs Hbs.
  - injection Hbs as <-. constructor.
  - destruct (f a) as [b|] eqn:Efa; cbn [bind] in Hbs; [|discriminate].
    destruct (map_outcome f arr) as [bs'|]; cbn [bind] in Hbs; [|discriminate].
    injection Hbs as <-. constructor; [exact Efa | now apply IH].
Qed.

Lemma map_outcome_total {A B : Type} (f : A -> outcome B) (arr : list A) :
  (forall a, In a arr -> exists b, f a = Ok b) ->
  exists bs, map_outcome f arr = Ok bs.
Proof.
  intros Hall. destruct (map_outcome f arr) as [bs|] eqn:E; [now exists bs|].
  apply map_outcome_error_iff in E. destruct E as (a & Hin & Hf).
  destruct (Hall a Hin) as (b & Hb). congruence.
Qed.

Lemma Forall2_in_left {A B : Type} (R : A -> B -> Prop) (l : list A) (l' : list B)
    (a : A) :
  Forall2 R l l' -> In a l -> exists b, In b l' /\ R a b.
Proof.
  induction 1 as [|a0 b0 l l' Hab _ IH]; intros Hin; [contradiction|].
  destruct Hin as [<- | Hin].
  - exists b0. split; [now left | exact Hab].
  - destruct (IH Hin) as (b & Hb & Hr). exists b. split; [now right | exact Hr].
Qed.

Lemma Forall2_in_right {A B : Type} (R : A -> B -> Prop) (l : list A) (l' : list B)
    (b : B) :
  Forall2 R l l' -> In b l' -> exists a, In a l /\ R a b.
Proof.
  induction 1 as [|a0 b0 l l' Hab _ IH]; intros Hin; [contradiction|].
  destruct Hin as [<- | Hin].
  - exists a0. split; [now left | exact Hab].
  - destruct (IH Hin) as (a & Ha & Hr). exists a. split; [now right | exact Hr].
Qed.

Lemma in_indexed {A : Type} (arr : list A) (i : nat) (a : A) :
  In (i, a) (indexed arr) <-> nth_error arr i = Some a.
Proof.
  unfold indexed.
  assert (Hgen : forall start, In (i, a) (combine (seq start (List.length arr)) arr)
                   <-> (start <= i)%nat /\ nth_error arr (i - start) = Some a).
  { induction arr as [|b arr IH]; intros start; cbn [List.length seq combine].
    - split; [intros [] | intros [_ H]; destruct (i - start)%nat; discriminate].
    - cbn [In]. rewrite IH. split.
      + intros [E | [Hle Hn]].
        * injection E as <- <-. split; [lia|]. now rewrite Nat.sub_diag.
        * split; [lia|]. replace (i - start)%nat with (S (i - S start)) by lia.
          exact Hn.
      + intros [Hle Hn]. destruct (Nat.eq_dec start i) as [->|Hne].
        * left. rewrite Nat.sub_diag in Hn. cbn in Hn. congruence.
        * right. split; [lia|].
          replace (i - start)%nat with (S (i - S start)) in Hn by lia. exact Hn. }
  rewrite Hgen, Nat.sub_0_r. split; [intros [_ H]; exact H | intros H; split; [lia | exact H]].
Qed.

(** *** The speed trace chart *)

Lemma speedLine_vertices (chart : TelemetryChart.Chart Q) (xs ys : LinearScale Q)
    (tel : list PointQ) :
  TelemetryChart.xScale chart = Some xs ->
  TelemetryChart.ySpeedScale chart = Some ys ->
  TelemetryChart.speedLine chart tel
  = Ok (map (fun d => (scale_apply xs (distance d),
                       option_map (scale_apply ys) (speed d))) tel).
Proof.
  intros Hx Hy. unfold TelemetryChart.speedLine. rewrite Hx, Hy.
  induction tel as [|d tel IH]; [reflexivity|].
  cbn [map_outcome call_scale call_scale_opt bind map] in *.
  rewrite IH. reflexivity.
Qed.

Lemma speed_lines_of_laps (chart : TelemetryChart.Chart Q) (xs ys : LinearScale Q)
    (ls : list LapQ) :
  TelemetryChart.xScale chart = Some xs ->
  TelemetryChart.ySpeedScale chart = Some ys ->
  exists paths,
    map_outcome
      (fun lap : LapQ =>
         match telemetry lap with
         | None | Some [] => Ok []
         | Some tel => bind (TelemetryChart.speedLine chart tel)
                            (fun path => Ok [path])
         end) ls = Ok paths /\
    concat paths
    = map (map (fun d => (scale_apply xs (distance d),
                          option_map (scale_apply ys) (speed d)))) (sampled ls).
Proof.
  intros Hx Hy. induction ls as [|lap ls (paths & Hpaths & Hconcat)].
  - exists []. split; reflexivity.
  - cbn [map_outcome sampled flat_map]. fold (sampled ls). rewrite Hpaths.
    destruct (telemetry lap) as [[|a rest]|]; cbn [bind].
    + exists ([] :: paths). split; [reflexivity | exact Hconcat].
    + rewrite (speedLine_vertices chart xs ys (a :: rest) Hx Hy). cbn [bind].
      eexists. split; [reflexivity|]. cbn [concat app map]. now rewrite Hconcat.
    + exists ([] :: paths). split; [reflexivity | exact Hconcat].
Qed.

Lemma speed_update_renders (chart : TelemetryChart.Chart Q)
    (data : option (ChartData Q)) :
  match loaded_laps data with
  | None =>
      TelemetryChart.render (TelemetryChart.update chart data) data
      = Ok (@TelemetryChart.NoData Q)
  | Some ls =>
      exists xs ys,
        TelemetryChart.xScale (TelemetryChart.update chart data) = Some xs /\
        TelemetryChart.ySpeedScale (TelemetryChart.update chart data) = Some ys /\
        TelemetryChart.render (TelemetryChart.update chart data) data
        = Ok (TelemetryChart.Lines
                (map (map (fun d => (scale_apply xs (distance d),
                                     option_map (scale_apply ys) (speed d))))
                     (sampled ls)))
  end.
Proof.
  destruct (loaded_laps data) as [ls|] eqn:Hl.
  - unfold TelemetryChart.render. rewrite Hl.
    unfold TelemetryChart.update, TelemetryChart.setupScales. rewrite Hl.
    cbn [TelemetryChart.xScale TelemetryChart.ySpeedScale].
    eexists _, _. split; [reflexivity|]. split; [reflexivity|].
    match goal with
    | |- bind (map_outcome ?f ls) _ = _ =>
        destruct (speed_lines_of_laps
                    (TelemetryChart.setupScales
                       (TelemetryChart.mkChart
                          (init (set_lastData (TelemetryChart.base chart) data))
                          (TelemetryChart.xScale chart)
                          (TelemetryChart.ySpeedScale chart)) data)
                    _ _ ls
                    ltac:(unfold TelemetryChart.setupScales; rewrite Hl; reflexivity)
                    ltac:(unfold TelemetryChart.setupScales; rewrite Hl; reflexivity))
          as (paths & Hpaths & Hconcat)
    end.
    unfold TelemetryChart.setupScales in Hpaths. rewrite Hl in Hpaths.
    rewrite Hpaths. cbn [bind]. rewrite Hconcat. reflexivity.
  - unfold TelemetryChart.render. rewrite Hl. reflexivity.
Qed.

(** X11: [update] of the speed trace chart never raises.  Without laps it
    shows the no-data message; with laps it installs both scales and draws
    one line per lap that has samples, in lap order, with one vertex per
    sample, at the scaled distance and speed of the sample. *)
Theorem speed_trace_update_draws (chart : TelemetryChart.Chart Q)
    (data : option (ChartData Q)) :
  match loaded_laps data with
  | None =>
      TelemetryChart.render (TelemetryChart.update chart data) data
      = Ok (@TelemetryChart.NoData Q)
  | Some ls =>
      exists xs ys,
        TelemetryChart.xScale (TelemetryChart.update chart data) = Some xs /\
        TelemetryChart.ySpeedScale (TelemetryChart.update chart data) = Some ys /\
        TelemetryChart.render (TelemetryChart.update chart data) data
        = Ok (TelemetryChart.Lines
                (map (map (fun d => (scale_apply xs (distance d),
                                     option_map (scale_apply ys) (speed d))))
                     (sampled ls)))
  end.
Proof.
  exact (speed_update_renders chart data).
Qed.

Lemma scale_apply_linear_ne (s : LinearScale Q) (v : Q) :
  ~ domain1 s == domain0 s ->
  scale_apply s v
  == range0 s
     + (v - domain0 s) * ((range1 s - range0 s) / (domain1 s - domain0 s)).
Proof.
  intros Hd. unfold scale_apply. qnum.
  rewrite (Qeq_bool_false (domain1 s - domain0 s) 0) by (intros E; apply Hd; lra).
  cbn [negb]. unfold inject_Z. field. intros E. apply Hd. lra.
Qed.

(** Inverting the scale at the position of a value gives the value back,
    when neither the domain nor the range is a single point. *)
Lemma scale_invert_apply (s : LinearScale Q) (v : Q) :
  ~ domain1 s == domain0 s -> ~ range1 s == range0 s ->
  scale_invert s (scale_apply s v) == v.
Proof.
  intros Hd Hr. unfold scale_invert.
  rewrite scale_apply_linear_ne by exact Hr. cbn [domain0 domain1 range0 range1].
  rewrite (scale_apply_linear_ne s v Hd). field.
  split; intros E; [apply Hd | apply Hr]; lra.
Qed.

Lemma lapPointAt_none_iff (target : Q) (lap : LapQ) :
  lapPointAt target lap = None <-> telemetry_or_empty lap = [].
Proof.
  unfold lapPointAt, telemetry_or_empty.
  destruct (telemetry lap) as [[|a rest]|]; split; try reflexivity; discriminate.
Qed.

Lemma telemetry_or_empty_some (lap : LapQ) (tel : list PointQ) :
  telemetry lap = Some tel -> telemetry_or_empty lap = tel.
Proof. unfold telemetry_or_empty. now intros ->. Qed.

Lemma speed_update_scales (chart : TelemetryChart.Chart Q)
    (data : option (ChartData Q)) (ls : list LapQ) :
  loaded_laps data = Some ls ->
  exists xs ys,
    TelemetryChart.xScale (TelemetryChart.update chart data) = Some xs /\
    TelemetryChart.ySpeedScale (TelemetryChart.update chart data) = Some ys /\
    domain0 xs = 0 /\ ~ domain1 xs == 0 /\ range0 xs = 0 /\
    range1 xs = width (TelemetryChart.base (TelemetryChart.update chart data)).
Proof.
  intros Hl. unfold TelemetryChart.update, TelemetryChart.setupScales. rewrite Hl.
  cbn [TelemetryChart.xScale TelemetryChart.ySpeedScale TelemetryChart.base].
  eexists _, _. split; [reflexivity|]. split; [reflexivity|].
  cbn [domain0 domain1 range0 range1].
  split; [reflexivity|]. split; [|split; reflexivity].
  assert (H5000 : 0 < @num Q _ 5000) by reflexivity.
  apply (or_default_bound (fun d : PointQ => Some (distance d)) _ _ H5000).
Qed.

Lemma speed_crosshair_on (c : TelemetryChart.Chart Q) (xs ys : LinearScale Q)
    (ls : list LapQ) (mouseX : Q) :
  TelemetryChart.xScale c = Some xs -> TelemetryChart.ySpeedScale c = Some ys ->
  exists markers,
    TelemetryChart.handleMouseMove c ls mouseX = Ok markers /\
    (forall m, In m markers ->
       exists lap,
         nth_error ls (TelemetryChart.marker_lap m) = Some lap /\
         In (TelemetryChart.marker_point m) (telemetry_or_empty lap) /\
         lapPointAt (scale_invert xs mouseX) lap
         = Some (Ok (TelemetryChart.marker_point m)) /\
         TelemetryChart.marker_cx m = mouseX) /\
    (forall i lap,
       nth_error ls i = Some lap -> telemetry_or_empty lap <> [] ->
       exists m, In m markers /\ TelemetryChart.marker_lap m = i).
Proof.
  intros Hx Hy. unfold TelemetryChart.handleMouseMove. rewrite Hx, Hy.
  match goal with
  | |- exists markers, bind (map_outcome ?f ?l) _ = _ /\ _ => set (perLap := f)
  end.
  assert (Hcase : forall il,
            (lapPointAt (scale_invert xs mouseX) (snd il) = None
             /\ perLap il = Ok []) \/
            (exists point cy ly,
               lapPointAt (scale_invert xs mouseX) (snd il) = Some (Ok point) /\
               In point (telemetry_or_empty (snd il)) /\
               perLap il = Ok [TelemetryChart.mkMarker (fst il) point mouseX cy
                                 (mouseX + 10) ly])).
  { intros il. unfold perLap.
    destruct (lapPointAt_cases (scale_invert xs mouseX) (snd il))
      as [[-> _] | (tel & p & Htel & _ & -> & Hin)].
    - left. split; reflexivity.
    - right. cbn [bind call_scale_opt]. eexists p, _, _.
      split; [reflexivity|]. split; [|reflexivity].
      now rewrite (telemetry_or_empty_some _ _ Htel). }
  destruct (map_outcome_total perLap (indexed ls)) as (bs & Hbs).
  { intros il _. destruct (Hcase il) as [[_ ->] | (p & cy & ly & _ & _ & ->)]; eauto. }
  exists (concat bs). rewrite Hbs. cbn [bind].
  split; [reflexivity|].
  pose proof (map_outcome_Ok _ _ _ Hbs) as Hall. split.
  - intros m Hm. apply in_concat in Hm. destruct Hm as (b & Hb & Hmb).
    destruct (Forall2_in_right _ _ _ b Hall Hb) as ([i lap] & Hil & Hf).
    apply in_indexed in Hil.
    destruct (Hcase (i, lap)) as [[_ Hnil] | (p & cy & ly & Hfound & Hin & Hone)];
      rewrite Hf in *.
    + injection Hnil as ->. contradiction.
    + injection Hone as ->. destruct Hmb as [<- | []].
      exists lap. cbn. auto.
  - intros i lap Hi Hne. apply in_indexed in Hi.
    destruct (Forall2_in_left _ _ _ _ Hall Hi) as (b & Hb & Hf).
    destruct (Hcase (i, lap)) as [[Hnone _] | (p & cy & ly & _ & _ & Hone)].
    + apply lapPointAt_none_iff in Hnone. contradiction.
    + rewrite Hf in Hone. injection Hone as ->.
      eexists. split; [apply in_concat; eexists; split; [exact Hb | now left]|].
      reflexivity.
Qed.

Lemma map_outcome_concat_filter {A B : Type} (f : A -> outcome (list B))
    (keep : A -> bool) (R : B -> A -> Prop) (arr : list A) :
  (forall a, In a arr ->
     (keep a = false /\ f a = Ok []) \/
     (keep a = true /\ exists b, f a = Ok [b] /\ R b a)) ->
  exists bs, map_outcome f arr = Ok bs /\ Forall2 R (concat bs) (filter keep arr).
Proof.
  induction arr as [|a arr IH]; intros Hcase.
  - exists []. split; [reflexivity | constructor].
  - destruct IH as (bs & Hbs & Hall).
    { intros a' Ha'. apply Hcase. now right. }
    cbn [map_outcome filter].
    destruct (Hcase a (or_introl eq_refl)) as [[Hk Hf] | (Hk & b & Hf & Hb)];
      rewrite Hf, Hk, Hbs; cbn [bind].
    + exists ([] :: bs). split; [reflexivity | exact Hall].
    + exists ([b] :: bs). split; [reflexivity|]. cbn [concat app].
      constructor; assumption.
Qed.

Lemma has_samples_lookup (target : Q) (lap : LapQ) :
  (has_samples lap = false /\ lapPointAt target lap = None) \/
  (has_samples lap = true /\
   exists p, lapPointAt target lap = Some (Ok p)).
Proof.
  destruct (lapPointAt_cases target lap)
    as [[Hnone _] | (tel & p & Htel & Hne & Hfound & _)].
  - left. split; [|exact Hnone]. apply lapPointAt_none_iff in Hnone.
    unfold has_samples. now rewrite Hnone.
  - right. split; [|eauto]. unfold has_samples.
    rewrite (telemetry_or_empty_some _ _ Htel).
    destruct tel; [contradiction | reflexivity].
Qed.

(** The markers of the speed trace chart as a list: one for every lap with
    samples, in lap order. *)
Lemma speed_crosshair_list (c : TelemetryChart.Chart Q) (xs ys : LinearScale Q)
    (ls : list LapQ) (mouseX : Q) :
  TelemetryChart.xScale c = Some xs -> TelemetryChart.ySpeedScale c = Some ys ->
  exists markers,
    TelemetryChart.handleMouseMove c ls mouseX = Ok markers /\
    Forall2 (speed_marker_of xs ys mouseX) markers (laps_with_samples ls).
Proof.
  intros Hx Hy. unfold TelemetryChart.handleMouseMove. rewrite Hx, Hy.
  match goal with
  | |- exists markers, bind (map_outcome ?f ?l) _ = _ /\ _ => set (perLap := f)
  end.
  destruct (map_outcome_concat_filter perLap (fun il => has_samples (snd il))
              (speed_marker_of xs ys mouseX) (indexed ls)) as (bs & Hbs & Hall).
  { intros il _. unfold perLap.
    destruct (has_samples_lookup (scale_invert xs mouseX) (snd il))
      as [[Hk ->] | (Hk & p & Hfound)].
    - left. split; [exact Hk | reflexivity].
    - right. split; [exact Hk|]. rewrite Hfound. cbn [bind call_scale_opt].
      eexists. split; [reflexivity|].
      unfold speed_marker_of.
      cbn [TelemetryChart.marker_lap TelemetryChart.marker_point
           TelemetryChart.marker_cx TelemetryChart.marker_cy
           TelemetryChart.label_x TelemetryChart.label_y].
      repeat split; try reflexivity. exact Hfound. }
  exists (concat bs). rewrite Hbs. cbn [bind]. split; [reflexivity | exact Hall].
Qed.

(** X12: on the speed trace chart that shows the laps [ls], moving the
    pointer never raises.  The markers it puts on the crosshair are, as a
    list, those of the laps that have samples, one for one and in lap order,
    so there is exactly one marker per lap with samples and none for the
    others; the circle of a lap sits at the pointer's x and at the scaled
    speed of a sample of that lap, the one the lookup returns for the
    distance under the pointer, and its label 10 to the right, 15 lower for
    every lap before it. *)
Theorem speed_crosshair_markers (chart : TelemetryChart.Chart Q)
    (data : option (ChartData Q)) (ls : list LapQ) (mouseX : Q) :
  loaded_laps data = Some ls ->
  exists xs ys markers,
    TelemetryChart.xScale (TelemetryChart.update chart data) = Some xs /\
    TelemetryChart.ySpeedScale (TelemetryChart.update chart data) = Some ys /\
    TelemetryChart.handleMouseMove (TelemetryChart.update chart data) ls mouseX
    = Ok markers /\
    Forall2 (speed_marker_of xs ys mouseX) markers (laps_with_samples ls) /\
    List.length markers = List.length (laps_with_samples ls) /\
    (forall m, In m markers ->
       exists lap,
         nth_error ls (TelemetryChart.marker_lap m) = Some lap /\
         In (TelemetryChart.marker_point m) (telemetry_or_empty lap) /\
         lapPointAt (scale_invert xs mouseX) lap
         = Some (Ok (TelemetryChart.marker_point m)) /\
         TelemetryChart.marker_cx m = mouseX) /\
    (forall i lap,
       nth_error ls i = Some lap -> telemetry_or_empty lap <> [] ->
       exists m, In m markers /\ TelemetryChart.marker_lap m = i).
Proof.
  intros Hl.
  destruct (speed_update_scales chart data ls Hl) as (xs & ys & Hx & Hy & _).
  destruct (speed_crosshair_on _ xs ys ls mouseX Hx Hy) as (markers & Hrun & Hm).
  destruct (speed_crosshair_list _ xs ys ls mouseX Hx Hy) as (markers' & Hrun' & Hall).
  assert (markers' = markers) by congruence. subst markers'.
  exists xs, ys, markers. split; [exact Hx|]. split; [exact Hy|].
  split; [exact Hrun|]. split; [exact Hall|].
  split; [exact (Forall2_length Hall) | exact Hm].
Qed.

Lemma speed_crosshair_markers_witness :
  exists xs ys markers,
    TelemetryChart.xScale (TelemetryChart.update speedAB (Some two_laps)) = Some xs /\
    TelemetryChart.ySpeedScale (TelemetryChart.update speedAB (Some two_laps))
    = Some ys /\
    TelemetryChart.handleMouseMove (TelemetryChart.update speedAB (Some two_laps))
      [lapA; lapB] 100
    = Ok markers /\
    Forall2 (speed_marker_of xs ys 100) markers (laps_with_samples [lapA; lapB]) /\
    List.length markers = List.length (laps_with_samples [lapA; lapB]) /\
    (forall m, In m markers ->
       exists lap,
         nth_error [lapA; lapB] (TelemetryChart.marker_lap m) = Some lap /\
         In (TelemetryChart.marker_point m) (telemetry_or_empty lap) /\
         lapPointAt (scale_invert xs 100) lap
         = Some (Ok (TelemetryChart.marker_point m)) /\
         TelemetryChart.marker_cx m = 100) /\
    (forall i lap,
       nth_error [lapA; lapB] i = Some lap -> telemetry_or_empty lap <> [] ->
       exists m, In m markers /\ TelemetryChart.marker_lap m = i).
Proof.
  apply (speed_crosshair_markers speedAB (Some two_laps) [lapA; lapB] 100).
  reflexivity.
Defined.

(** X13: with the pointer exactly over a sample of a lap, on a plot that is
    not 0 wide, the marker of that lap sits at a sample with that very
    distance. *)
Theorem speed_crosshair_over_sample (chart : TelemetryChart.Chart Q)
    (data : option (ChartData Q)) (ls : list LapQ) (i : nat) (lap : LapQ) (q : PointQ) :
  loaded_laps data = Some ls ->
  ~ width (TelemetryChart.base (TelemetryChart.update chart data)) == 0 ->
  nth_error ls i = Some lap -> In q (telemetry_or_empty lap) ->
  exists xs markers m,
    TelemetryChart.xScale (TelemetryChart.update chart data) = Some xs /\
    TelemetryChart.handleMouseMove (TelemetryChart.update chart data) ls
      (scale_apply xs (distance q)) = Ok markers /\
    In m markers /\ TelemetryChart.marker_lap m = i /\
    distance (TelemetryChart.marker_point m) == distance q.
Proof.
  intros Hl Hw Hi Hq.
  destruct (speed_update_scales chart data ls Hl)
    as (xs & ys & Hx & Hy & Hd0 & Hd1 & Hr0 & Hr1).
  destruct (speed_crosshair_on _ xs ys ls (scale_apply xs (distance q)) Hx Hy)
    as (markers & Hrun & Hfrom & Hevery).
  assert (Hne : telemetry_or_empty lap <> []) by (intros E; rewrite E in Hq; contradiction).
  destruct (Hevery i lap Hi Hne) as (m & Hm & Hmi).
  exists xs, markers, m. repeat split; try assumption.
  destruct (Hfrom m Hm) as (lap' & Hlap' & _ & Hfound & _).
  rewrite Hmi in Hlap'. assert (lap' = lap) by congruence. subst lap'.
  assert (Hback : scale_invert xs (scale_apply xs (distance q)) == distance q).
  { apply scale_invert_apply; [rewrite Hd0; exact Hd1 | rewrite Hr0, Hr1; exact Hw]. }
  unfold lapPointAt in Hfound. unfold telemetry_or_empty in Hq.
  destruct (telemetry lap) as [[|a rest]|]; try contradiction.
  destruct (In_nth_error _ _ Hq) as (k & Hk).
  destruct (nearestPoint_hits_first (a :: rest) _ k q Hk ltac:(symmetry; exact Hback))
    as (j & p & Hnear & _ & _ & Hp & _).
  rewrite Hnear in Hfound. injection Hfound as <-. rewrite Hp. exact Hback.
Qed.

Lemma speed_crosshair_over_sample_witness :
  exists xs markers m,
    TelemetryChart.xScale (TelemetryChart.update speedAB (Some two_laps)) = Some xs /\
    TelemetryChart.handleMouseMove (TelemetryChart.update speedAB (Some two_laps))
      [lapA; lapB] (scale_apply xs (distance (timed_sample 55 310 800)))
    = Ok markers /\
    In m markers /\ TelemetryChart.marker_lap m = 1%nat /\
    distance (TelemetryChart.marker_point m) == distance (timed_sample 55 310 800).
Proof.
  apply (speed_crosshair_over_sample speedAB (Some two_laps) [lapA; lapB] 1 lapB
           (timed_sample 55 310 800)).
  - reflexivity.
  - intros E. vm_compute in E. discriminate.
  - reflexivity.
  - right. left. reflexivity.
Defined.

(** *** The multi-channel chart *)

Lemma Channel_eqb_eq (a b : MultiTelemetry.Channel) :
  MultiTelemetry.Channel_eqb a b = true <-> a = b.
Proof. destruct a, b; cbn; split; congruence. Qed.

Lemma layout_band_shape (H : Q) (w : MultiTelemetry.Channel -> Q) (pts : list PointQ)
    (chans : list MultiTelemetry.Channel) (cb : MultiTelemetry.Channel * BandQ) :
  In cb (MultiTelemetry.layoutBands H w chans pts) -> band_shape H w pts cb.
Proof.
  unfold MultiTelemetry.layoutBands.
  assert (Hgen : forall st,
            (forall cb', In cb' (snd st) -> band_shape H w pts cb') ->
            forall cb', In cb' (snd (fold_left (MultiTelemetry.layout_step H w pts)
                                       chans st)) ->
                        band_shape H w pts cb').
  { induction chans as [|c chans IH]; intros st Hst cb' Hin; [auto|].
    cbn [fold_left] in Hin. apply (IH _) in Hin; [exact Hin|].
    intros cb'' Hin'. unfold MultiTelemetry.layout_step in Hin'. cbn [snd] in Hin'.
    apply in_app_or in Hin'. destruct Hin' as [Hin' | [<- | []]]; [auto|].
    split; reflexivity. }
  apply Hgen. intros cb' [].
Qed.

Lemma layoutBands_channels (H : Q) (w : MultiTelemetry.Channel -> Q)
    (pts : list PointQ) (chans : list MultiTelemetry.Channel) :
  map fst (MultiTelemetry.layoutBands H w chans pts) = chans.
Proof.
  unfold MultiTelemetry.layoutBands.
  destruct (layout_fold H w pts chans (@num Q _ 0, []) 0)
    as (new & Hsnd & Hch & _); [reflexivity|].
  rewrite Hsnd. exact Hch.
Qed.

(** What [channelScales] holds for [c] after the assignments of [bands]. *)
Lemma assign_scales_lookup (bands : list (MultiTelemetry.Channel * BandQ))
    (m : MultiTelemetry.Channel -> option BandQ) (c : MultiTelemetry.Channel) :
  (~ In c (map fst bands) -> fold_left MultiTelemetry.assign_scale bands m c = m c) /\
  (In c (map fst bands) ->
   exists b, In (c, b) bands /\
             fold_left MultiTelemetry.assign_scale bands m c = Some b).
Proof.
  induction bands as [|[c' b'] bands IH] using rev_ind.
  - split; [reflexivity | intros []].
  - rewrite fold_left_app, map_app. cbn [fold_left map fst].
    unfold MultiTelemetry.assign_scale at 1 3. cbn [fst snd].
    destruct (MultiTelemetry.Channel_eqb c c') eqn:E.
    + apply Channel_eqb_eq in E. subst c'. split.
      * intros Hnot. exfalso. apply Hnot. apply in_or_app. right. now left.
      * intros _. exists b'. split; [apply in_or_app; right; now left | reflexivity].
    + assert (Hne : c <> c').
      { intros ->. assert (MultiTelemetry.Channel_eqb c' c' = true)
          by now apply Channel_eqb_eq. congruence. }
      destruct IH as [IHout IHin]. split.
      * intros Hnot. apply IHout. intros Hin. apply Hnot. apply in_or_app. now left.
      * intros Hin. apply in_app_or in Hin. destruct Hin as [Hin | [Heq | []]];
          [|congruence].
        destruct (IHin Hin) as (b & Hb & Hlook). exists b.
        split; [apply in_or_app; now left | exact Hlook].
Qed.

(** X14: after [setupScales] on loaded laps every channel of the chart has
    an entry in [channelScales], so that drawing a channel never reads an
    unassigned entry; the band is [height * weight - 10] high, its y scale
    runs from the channel's domain onto the band, bottom to top; entries of
    other channels are left as they were. *)
Theorem setupScales_assigns_bands (chart : MultiTelemetry.Chart Q)
    (data : option (ChartData Q)) (ls : list LapQ) (c : MultiTelemetry.Channel) :
  loaded_laps data = Some ls ->
  (In c (MultiTelemetry.channels chart) ->
   exists b,
     MultiTelemetry.channelScales (MultiTelemetry.setupScales chart data) c = Some b /\
     MultiTelemetry.band_height b
     = height (MultiTelemetry.base chart) * MultiTelemetry.channelHeights chart c - 10 /\
     range0 (MultiTelemetry.band_y b)
     = MultiTelemetry.band_offset b + MultiTelemetry.band_height b /\
     range1 (MultiTelemetry.band_y b) = MultiTelemetry.band_offset b /\
     (domain0 (MultiTelemetry.band_y b), domain1 (MultiTelemetry.band_y b))
     = MultiTelemetry.getChannelDomain c (flat_map (@telemetry_or_empty Q) ls)) /\
  (~ In c (MultiTelemetry.channels chart) ->
   MultiTelemetry.channelScales (MultiTelemetry.setupScales chart data) c
   = MultiTelemetry.channelScales chart c).
Proof.
  intros Hl. unfold MultiTelemetry.setupScales. rewrite Hl.
  cbn [MultiTelemetry.channelScales].
  set (pts := flat_map (@telemetry_or_empty Q) ls).
  set (bands := MultiTelemetry.layoutBands _ _ _ pts).
  destruct (assign_scales_lookup bands (MultiTelemetry.channelScales chart) c)
    as [Hout Hin].
  pose proof (layoutBands_channels (height (MultiTelemetry.base chart))
                (MultiTelemetry.channelHeights chart) pts
                (MultiTelemetry.channels chart)) as Hch.
  fold bands in Hch. rewrite Hch in Hout, Hin. split; [|exact Hout].
  intros Hc. destruct (Hin Hc) as (b & Hb & Hlook). exists b.
  split; [exact Hlook|].
  destruct (layout_band_shape _ _ _ _ _ Hb) as [Hh Hy]. cbn [fst snd] in Hh, Hy.
  rewrite Hy. cbn [range0 range1 domain0 domain1].
  split; [exact Hh|]. split; [reflexivity|]. split; [reflexivity|].
  now destruct (MultiTelemetry.getChannelDomain c pts).
Qed.

Lemma setupScales_assigns_bands_witness :
  (In MultiTelemetry.Gear (MultiTelemetry.channels chartAB) ->
   exists b,
     MultiTelemetry.channelScales
       (MultiTelemetry.setupScales chartAB (Some two_laps)) MultiTelemetry.Gear
     = Some b /\
     MultiTelemetry.band_height b
     = height (MultiTelemetry.base chartAB)
       * MultiTelemetry.channelHeights chartAB MultiTelemetry.Gear - 10 /\
     range0 (MultiTelemetry.band_y b)
     = MultiTelemetry.band_offset b + MultiTelemetry.band_height b /\
     range1 (MultiTelemetry.band_y b) = MultiTelemetry.band_offset b /\
     (domain0 (MultiTelemetry.band_y b), domain1 (MultiTelemetry.band_y b))
     = MultiTelemetry.getChannelDomain MultiTelemetry.Gear
         (flat_map (@telemetry_or_empty Q) [lapA; lapB])) /\
  (~ In MultiTelemetry.Gear (MultiTelemetry.channels chartAB) ->
   MultiTelemetry.channelScales
     (MultiTelemetry.setupScales chartAB (Some two_laps)) MultiTelemetry.Gear
   = MultiTelemetry.channelScales chartAB MultiTelemetry.Gear).
Proof.
  apply (setupScales_assigns_bands chartAB (Some two_laps) [lapA; lapB]
           MultiTelemetry.Gear).
  reflexivity.
Defined.

Lemma setupScales_band_of (chart : MultiTelemetry.Chart Q)
    (data : option (ChartData Q)) (ls : list LapQ) (c : MultiTelemetry.Channel) :
  loaded_laps data = Some ls -> In c (MultiTelemetry.channels chart) ->
  exists b,
    MultiTelemetry.channelScales (MultiTelemetry.setupScales chart data) c = Some b /\
    band_shape (height (MultiTelemetry.base chart))
               (MultiTelemetry.channelHeights chart)
               (flat_map (@telemetry_or_empty Q) ls) (c, b).
Proof.
  intros Hl Hc. unfold MultiTelemetry.setupScales. rewrite Hl.
  cbn [MultiTelemetry.channelScales].
  set (pts := flat_map (@telemetry_or_empty Q) ls).
  set (bands := MultiTelemetry.layoutBands _ _ _ pts).
  destruct (assign_scales_lookup bands (MultiTelemetry.channelScales chart) c)
    as [_ Hin].
  pose proof (layoutBands_channels (height (MultiTelemetry.base chart))
                (MultiTelemetry.channelHeights chart) pts
                (MultiTelemetry.channels chart)) as Hch.
  fold bands in Hch. rewrite Hch in Hin.
  destruct (Hin Hc) as (b & Hb & Hlook). exists b. split; [exact Hlook|].
  exact (layout_band_shape _ _ _ _ _ Hb).
Qed.

(** X15: when the speed band is not squeezed below its padding, every speed
    that is not negative is drawn inside the speed band of the multi-channel
    chart. *)
Theorem speed_inside_band (chart : MultiTelemetry.Chart Q)
    (data : option (ChartData Q)) (ls : list LapQ) (lap : LapQ) (p : PointQ) (s : Q) :
  loaded_laps data = Some ls ->
  In MultiTelemetry.Speed (MultiTelemetry.channels chart) ->
  10 <= height (MultiTelemetry.base chart)
        * MultiTelemetry.channelHeights chart MultiTelemetry.Speed ->
  In lap ls -> In p (telemetry_or_empty lap) -> speed p = Some s -> 0 <= s ->
  exists b,
    MultiTelemetry.channelScales (MultiTelemetry.setupScales chart data)
      MultiTelemetry.Speed = Some b /\
    MultiTelemetry.band_offset b
    <= scale_apply (MultiTelemetry.band_y b) s
    <= MultiTelemetry.band_offset b + MultiTelemetry.band_height b.
Proof.
  intros Hl Hc Hroom Hlap Hp Hs Hs0.
  destruct (setupScales_band_of chart data ls MultiTelemetry.Speed Hl Hc)
    as (b & Hb & Hh & Hy).
  cbn [fst snd] in Hh, Hy. exists b. split; [exact Hb|].
  pose proof (in_all_points ls lap p Hlap Hp) as Hin.
  set (pts := flat_map (@telemetry_or_empty Q) ls) in *.
  assert (H350 : 0 < @num Q _ 350) by reflexivity.
  destruct (or_default_bound (@speed Q) pts _ H350) as (_ & Hsmax & _ & Hspos).
  specialize (Hsmax p _ Hin Hs). specialize (Hspos p _ Hin Hs Hs0).
  cbn [MultiTelemetry.getChannelDomain fst snd] in Hy.
  set (maxSpeed := or_default _ _) in Hsmax, Hspos, Hy.
  assert (Hwithin :
            range1 (MultiTelemetry.band_y b)
            <= scale_apply (MultiTelemetry.band_y b) s
            <= range0 (MultiTelemetry.band_y b)).
  { apply scale_apply_inverted_within; rewrite Hy;
      cbn [domain0 domain1 range0 range1].
    - change (num 0) with 0. change (nmul maxSpeed (dec 105 100))
        with (maxSpeed * dec 105 100). rewrite dec_105_100. lra.
    - rewrite Hh. lra.
    - change (num 0) with 0. change (nmul maxSpeed (dec 105 100))
        with (maxSpeed * dec 105 100). rewrite dec_105_100. split; lra. }
  rewrite Hy in Hwithin |- *. cbn [range0 range1] in Hwithin. exact Hwithin.
Qed.

Lemma speed_inside_band_witness :
  exists b,
    MultiTelemetry.channelScales (MultiTelemetry.setupScales chartAB (Some two_laps))
      MultiTelemetry.Speed = Some b /\
    MultiTelemetry.band_offset b
    <= scale_apply (MultiTelemetry.band_y b) 310
    <= MultiTelemetry.band_offset b + MultiTelemetry.band_height b.
Proof.
  apply (speed_inside_band chartAB (Some two_laps) [lapA; lapB] lapB
           (timed_sample 55 310 800) 310);
    try reflexivity; try (vm_compute; discriminate).
  - left. reflexivity.
  - right. left. reflexivity.
  - right. left. reflexivity.
Defined.

Lemma bind_Ok_error {A B : Type} (m : outcome A) (g : A -> B) :
  bind m (fun a => Ok (g a)) = TypeError <-> m = TypeError.
Proof. destruct m; cbn; split; congruence. Qed.

Lemma x_vertices_ok {B : Type} (c : MultiTelemetry.Chart Q) (xs : LinearScale Q)
    (g : PointQ -> B) (tel : list PointQ) :
  MultiTelemetry.xScale c = Some xs ->
  exists vs,
    map_outcome
      (fun d => bind (call_scale (MultiTelemetry.xScale c) (distance d))
                     (fun px => Ok (px, g d))) tel = Ok vs.
Proof.
  intros Hx. apply map_outcome_total. intros d _. rewrite Hx. cbn. eauto.
Qed.

Lemma lineVertices_error_iff (c : MultiTelemetry.Chart Q) (xs : LinearScale Q)
    (channel : MultiTelemetry.Channel) (scale : BandQ) (lap : LapQ)
    (tel : list PointQ) :
  MultiTelemetry.xScale c = Some xs ->
  (MultiTelemetry.lineVertices c channel scale lap tel = TypeError <->
   channel = MultiTelemetry.Delta /\
   exists d, In d tel /\ MultiTelemetry.calculateDelta c d lap = TypeError).
Proof.
  intros Hx. unfold MultiTelemetry.lineVertices.
  rewrite map_outcome_error_iff. rewrite Hx. cbn [call_scale bind]. split.
  - intros (d & Hd & Herr). rewrite bind_Ok_error in Herr.
    unfold MultiTelemetry.lineY in Herr.
    destruct channel; try discriminate.
    rewrite bind_Ok_error in Herr. eauto.
  - intros (-> & d & Hd & Herr). exists d. split; [exact Hd|].
    cbn [MultiTelemetry.lineY]. rewrite Herr. reflexivity.
Qed.

Lemma drawChannelData_error_iff (c : MultiTelemetry.Chart Q) (xs : LinearScale Q)
    (channel : MultiTelemetry.Channel) (scale : BandQ) (lap : LapQ)
    (tel : list PointQ) :
  MultiTelemetry.xScale c = Some xs ->
  (MultiTelemetry.drawChannelData c channel scale lap tel = TypeError <->
   channel = MultiTelemetry.Delta /\
   exists d, In d tel /\ MultiTelemetry.calculateDelta c d lap = TypeError).
Proof.
  intros Hx. unfold MultiTelemetry.drawChannelData.
  destruct channel;
    try (rewrite bind_Ok_error; apply (lineVertices_error_iff c xs); exact Hx).
  - destruct (x_vertices_ok c xs
                (fun d => scale_apply (MultiTelemetry.band_y scale) (throttle d))
                tel Hx) as (vs & ->).
    destruct (x_vertices_ok c xs
                (fun d => scale_apply (MultiTelemetry.band_y scale)
                            (if brake d then num 100 else num 0))
                tel Hx) as (vs' & ->).
    cbn [bind]. split; [discriminate | intros [E _]; discriminate].
  - rewrite Hx. split; [discriminate | intros [E _]; discriminate].
Qed.

Lemma drawChannel_error_iff (c : MultiTelemetry.Chart Q) (xs : LinearScale Q)
    (scale : BandQ) (ls : list LapQ) (channel : MultiTelemetry.Channel) :
  MultiTelemetry.xScale c = Some xs ->
  MultiTelemetry.channelScales c channel = Some scale ->
  (MultiTelemetry.drawChannel c ls channel = TypeError <->
   channel = MultiTelemetry.Delta /\
   exists lap d,
     In lap ls /\ In d (telemetry_or_empty lap) /\
     MultiTelemetry.calculateDelta c d lap = TypeError).
Proof.
  intros Hx Hscale. unfold MultiTelemetry.drawChannel. rewrite Hscale.
  rewrite bind_Ok_error, map_outcome_error_iff. split.
  - intros (lap & Hlap & Herr). unfold telemetry_or_empty.
    destruct (telemetry lap) as [[|a rest]|] eqn:Etel; try discriminate.
    rewrite bind_Ok_error in Herr.
    apply (drawChannelData_error_iff c xs) in Herr; [|exact Hx].
    destruct Herr as (Hch & d & Hd & Hcalc). split; [exact Hch|].
    exists lap, d. rewrite Etel. auto.
  - intros (Hch & lap & d & Hlap & Hd & Hcalc). exists lap. split; [exact Hlap|].
    unfold telemetry_or_empty in Hd.
    destruct (telemetry lap) as [[|a rest]|] eqn:Etel; try contradiction.
    rewrite bind_Ok_error. apply (drawChannelData_error_iff c xs); [exact Hx|].
    eauto.
Qed.

Lemma multi_update_error_cases (chart : MultiTelemetry.Chart Q)
    (data : option (ChartData Q)) :
  MultiTelemetry.render (MultiTelemetry.update chart data) data = TypeError <->
  exists first rest lap,
    loaded_laps data = Some (first :: rest) /\
    In MultiTelemetry.Delta (MultiTelemetry.channels chart) /\
    telemetry first = Some [] /\
    In lap rest /\ same_object lap first = false /\ telemetry_or_empty lap <> [].
Proof.
  unfold MultiTelemetry.render.
  destruct (loaded_laps data) as [ls|] eqn:Hl.
  2:{ split; [discriminate | intros (f & r & l & E & _); discriminate]. }
  assert (Hls : exists first rest, ls = first :: rest).
  { unfold loaded_laps in Hl. destruct data as [d|]; [|discriminate].
    destruct (laps d) as [[|f r]|]; try discriminate.
    injection Hl as <-. eauto. }
  destruct Hls as (first & rest & ->).
  set (c := MultiTelemetry.update chart data).
  assert (Hx : exists xs, MultiTelemetry.xScale c = Some xs).
  { unfold c, MultiTelemetry.update, MultiTelemetry.setupScales. rewrite Hl.
    cbn [MultiTelemetry.xScale]. eauto. }
  destruct Hx as (xs & Hx).
  assert (Href : MultiTelemetry.referenceLap c = Some first).
  { unfold c, MultiTelemetry.update, MultiTelemetry.setupScales. rewrite Hl.
    reflexivity. }
  assert (Hchannels : MultiTelemetry.channels c = MultiTelemetry.channels chart).
  { unfold c, MultiTelemetry.update, MultiTelemetry.setupScales. rewrite Hl.
    reflexivity. }
  assert (Hscales : forall ch, In ch (MultiTelemetry.channels c) ->
                      exists b, MultiTelemetry.channelScales c ch = Some b).
  { intros ch Hch. rewrite Hchannels in Hch. unfold c, MultiTelemetry.update.
    destruct (setupScales_band_of
                (MultiTelemetry.mkChart
                   (init (set_lastData (MultiTelemetry.base chart) data))
                   (MultiTelemetry.channels chart)
                   (MultiTelemetry.channelHeights chart)
                   (MultiTelemetry.xScale chart)
                   (MultiTelemetry.channelScales chart)
                   (MultiTelemetry.referenceLap chart))
                data (first :: rest) ch Hl Hch) as (b & Hb & _).
    eauto. }
  rewrite bind_Ok_error, map_outcome_error_iff. rewrite Hchannels in *.
  split.
  - intros (ch & Hch & Herr). rewrite bind_Ok_error in Herr.
    destruct (Hscales ch Hch) as (b & Hb).
    apply (drawChannel_error_iff c xs b) in Herr; [|exact Hx|exact Hb].
    destruct Herr as (-> & lap & d & Hlap & Hd & Hcalc).
    apply calculateDelta_error_cases in Hcalc.
    destruct Hcalc as (ref & Href' & Htel & Hsame).
    rewrite Href in Href'. injection Href' as <-.
    exists first, rest, lap. split; [reflexivity|]. split; [exact Hch|].
    split; [exact Htel|].
    assert (Hne : telemetry_or_empty lap <> [])
      by (intros E; rewrite E in Hd; contradiction).
    destruct Hlap as [<- | Hlap].
    + unfold same_object in Hsame. rewrite Nat.eqb_refl in Hsame. discriminate.
    + auto.
  - intros (f & r & lap & E & Hdelta & Htel & Hlap & Hsame & Hne).
    injection E as <- <-.
    exists MultiTelemetry.Delta. split; [exact Hdelta|]. rewrite bind_Ok_error.
    destruct (Hscales _ Hdelta) as (b & Hb).
    apply (drawChannel_error_iff c xs b); [exact Hx | exact Hb|].
    split; [reflexivity|].
    destruct (telemetry_or_empty lap) as [|d tel] eqn:Etel; [contradiction|].
    exists lap, d. split; [now right|]. split; [rewrite Etel; now left|].
    apply calculateDelta_error_cases. exists first. auto.
Qed.

(** X16: [update] of the multi-channel chart raises in exactly one
    situation: the delta channel is shown, the telemetry of the first lap is
    an empty array, and another lap has samples.  The first lap is then the
    reference, and reducing its empty array raises while the delta trace of
    the other lap is drawn. *)
Theorem multi_update_raises_iff (chart : MultiTelemetry.Chart Q)
    (data : option (ChartData Q)) :
  MultiTelemetry.render (MultiTelemetry.update chart data) data = TypeError <->
  exists first rest lap,
    loaded_laps data = Some (first :: rest) /\
    In MultiTelemetry.Delta (MultiTelemetry.channels chart) /\
    telemetry first = Some [] /\
    In lap rest /\ same_object lap first = false /\ telemetry_or_empty lap <> [].
Proof.
  exact (multi_update_error_cases chart data).
Qed.

(** ** Track projection, continued *)

Lemma cross_multiply_lt (a b c d : Q) :
  0 < b -> 0 < d -> a / b < c / d -> a * d < c * b.
Proof.
  intros Hb Hd H.
  assert (Hbd : 0 < b * d) by (apply Qmult_lt_0_compat; assumption).
  apply (Qmult_lt_r _ _ (b * d) Hbd) in H.
  setoid_replace (a / b * (b * d)) with (a * d) in H by (field; lra).
  setoid_replace (c / d * (b * d)) with (c * b) in H by (field; lra).
  exact H.
Qed.

Lemma cross_multiply_le (a b c d : Q) :
  0 < b -> 0 < d -> a / b <= c / d -> a * d <= c * b.
Proof.
  intros Hb Hd H.
  assert (Hbd : 0 < b * d) by (apply Qmult_lt_0_compat; assumption).
  apply (Qmult_le_r _ _ (b * d) Hbd) in H.
  setoid_replace (a / b * (b * d)) with (a * d) in H by (field; lra).
  setoid_replace (c / d * (b * d)) with (c * b) in H by (field; lra).
  exact H.
Qed.

(** The projected box fits the drawing area and touches two opposite
    sides. *)
Lemma project_offsets (w h x0 x1 y0 y1 : Q) :
  0 < w -> 0 < h -> x0 < x1 -> y0 < y1 ->
  let p := TrackMap.project w h (x0, x1) (y0, y1) in
  0 <= TrackMap.offsetX p /\ 0 <= TrackMap.offsetY p /\
  (TrackMap.offsetX p == 0 \/ TrackMap.offsetY p == 0) /\
  TrackMap.offsetX p == (w - (x1 - x0) * TrackMap.scale p) * (1 # 2) /\
  TrackMap.offsetY p == (h - (y1 - y0) * TrackMap.scale p) * (1 # 2).
Proof.
  intros Hw Hh Hx Hy p.
  destruct (project_scale_cases w h x0 x1 y0 y1 Hw Hh Hx Hy) as (Hwide & Htall & Hs).
  fold p in Hwide, Htall, Hs.
  assert (HoX : TrackMap.offsetX p == (w - (x1 - x0) * TrackMap.scale p) * (1 # 2)).
  { change (TrackMap.offsetX p) with ((w - (x1 - x0) * TrackMap.scale p) / 2). field. }
  assert (HoY : TrackMap.offsetY p == (h - (y1 - y0) * TrackMap.scale p) * (1 # 2)).
  { change (TrackMap.offsetY p) with ((h - (y1 - y0) * TrackMap.scale p) / 2). field. }
  set (dw := x1 - x0) in *. set (dh := y1 - y0) in *.
  assert (Hdw : 0 < dw) by (unfold dw; lra).
  assert (Hdh : 0 < dh) by (unfold dh; lra).
  destruct (Qlt_le_dec (w / h) (dw / dh)) as [Hlt|Hge].
  - specialize (Hwide Hlt). pose proof (cross_multiply_lt _ _ _ _ Hh Hdh Hlt) as Hx'.
    assert (E1 : dw * TrackMap.scale p == w) by (rewrite Hwide; field; lra).
    assert (E2 : dh * TrackMap.scale p <= h).
    { rewrite Hwide.
      setoid_replace (dh * (w / dw)) with ((w * dh) / dw) by (field; lra).
      apply Qle_shift_div_r; lra. }
    rewrite HoX, HoY. set (a := dw * TrackMap.scale p) in *.
    set (b := dh * TrackMap.scale p) in *. clearbody a b.
    repeat split; lra.
  - assert (Hnot : ~ w / h < dw / dh) by lra. specialize (Htall Hnot).
    pose proof (cross_multiply_le _ _ _ _ Hdh Hh Hge) as Hx'.
    assert (E1 : dh * TrackMap.scale p == h) by (rewrite Htall; field; lra).
    assert (E2 : dw * TrackMap.scale p <= w).
    { rewrite Htall.
      setoid_replace (dw * (h / dh)) with ((dw * h) / dh) by (field; lra).
      apply Qle_shift_div_r; lra. }
    rewrite HoX, HoY. set (a := dw * TrackMap.scale p) in *.
    set (b := dh * TrackMap.scale p) in *. clearbody a b.
    repeat split; lra.
Qed.

Lemma setup_fits_area (chart : TrackMap.Chart Q)
    (data : option (ChartData Q)) (ls : list LapQ) :
  loaded_laps data = Some ls ->
  spans_x ls -> spans_y ls ->
  0 < width (TrackMap.base chart) -> 0 < height (TrackMap.base chart) ->
  exists p,
    TrackMap.setup chart data = TrackMap.Projected p /\
    0 <= TrackMap.offsetX p /\ 0 <= TrackMap.offsetY p /\
    (TrackMap.offsetX p == 0 \/ TrackMap.offsetY p == 0) /\
    forall q vx vy,
      In q (positioned ls) -> x q = Some vx -> y q = Some vy ->
      0 <= scale_apply (TrackMap.proj_x p) vx <= width (TrackMap.base chart) /\
      0 <= scale_apply (TrackMap.proj_y p) vy <= height (TrackMap.base chart).
Proof.
  intros Hl (a & b & va & vb & Ha & Hb & Hva & Hvb & Hab)
         (c & d & vc & vd & Hc & Hd & Hvc & Hvd & Hcd) Hw Hh.
  assert (Hne : positioned ls <> []).
  { intros E. rewrite E in Ha. contradiction. }
  destruct (setup_projects chart data ls Hl Hne)
    as ([x0 x1] & [y0 y1] & Hsetup & (_ & _ & Hxs) & (_ & _ & Hys)).
  cbn [fst snd] in Hxs, Hys.
  assert (Hx : x0 < x1).
  { pose proof (Hxs _ _ Ha Hva). pose proof (Hxs _ _ Hb Hvb). lra. }
  assert (Hy : y0 < y1).
  { pose proof (Hys _ _ Hc Hvc). pose proof (Hys _ _ Hd Hvd). lra. }
  set (w := width (TrackMap.base chart)) in *.
  set (h := height (TrackMap.base chart)) in *.
  eexists. split; [exact Hsetup|].
  destruct (project_scale_cases w h x0 x1 y0 y1 Hw Hh Hx Hy) as (_ & _ & Hs).
  destruct (project_geometry w h x0 x1 y0 y1 Hw Hh Hx Hy)
    as (_ & _ & _ & _ & _ & _ & Hmx & Hmy).
  destruct (project_offsets w h x0 x1 y0 y1 Hw Hh Hx Hy)
    as (HoX & HoY & Hzero & HeX & HeY).
  set (p := TrackMap.project w h (x0, x1) (y0, y1)) in *.
  split; [exact HoX|]. split; [exact HoY|]. split; [exact Hzero|].
  intros q vx vy Hq Hqx Hqy.
  specialize (Hxs _ _ Hq Hqx). specialize (Hys _ _ Hq Hqy).
  rewrite (Hmx vx), (Hmy vy).
  change (range0 (TrackMap.proj_x p)) with (TrackMap.offsetX p).
  change (range0 (TrackMap.proj_y p)) with (h - TrackMap.offsetY p).
  assert (H1 : 0 <= (vx - x0) * TrackMap.scale p) by (apply Qmult_le_0_compat; lra).
  assert (H2 : 0 <= (x1 - vx) * TrackMap.scale p) by (apply Qmult_le_0_compat; lra).
  assert (H3 : 0 <= (vy - y0) * TrackMap.scale p) by (apply Qmult_le_0_compat; lra).
  assert (H4 : 0 <= (y1 - vy) * TrackMap.scale p) by (apply Qmult_le_0_compat; lra).
  setoid_replace ((x1 - vx) * TrackMap.scale p)
    with ((x1 - x0) * TrackMap.scale p - (vx - x0) * TrackMap.scale p) in H2 by ring.
  setoid_replace ((y1 - vy) * TrackMap.scale p)
    with ((y1 - y0) * TrackMap.scale p - (vy - y0) * TrackMap.scale p) in H4 by ring.
  set (ox := TrackMap.offsetX p) in *. set (oy := TrackMap.offsetY p) in *.
  set (tx := (vx - x0) * TrackMap.scale p) in *.
  set (ty := (vy - y0) * TrackMap.scale p) in *.
  set (fx := (x1 - x0) * TrackMap.scale p) in *.
  set (fy := (y1 - y0) * TrackMap.scale p) in *.
  clearbody ox oy tx ty fx fy. split; split; lra.
Qed.

(** X17: under the conditions of the aspect-ratio theorem the projected
    track fits the drawing area: both margins are non-negative, one of them
    is 0 (the track touches two opposite sides), and every positioned sample
    of every lap is mapped inside the drawing area. *)
Theorem projection_fits_drawing_area (chart : TrackMap.Chart Q)
    (data : option (ChartData Q)) (ls : list LapQ) :
  loaded_laps data = Some ls ->
  spans_x ls -> spans_y ls ->
  0 < width (TrackMap.base chart) -> 0 < height (TrackMap.base chart) ->
  exists p,
    TrackMap.setup chart data = TrackMap.Projected p /\
    0 <= TrackMap.offsetX p /\ 0 <= TrackMap.offsetY p /\
    (TrackMap.offsetX p == 0 \/ TrackMap.offsetY p == 0) /\
    forall q vx vy,
      In q (positioned ls) -> x q = Some vx -> y q = Some vy ->
      0 <= scale_apply (TrackMap.proj_x p) vx <= width (TrackMap.base chart) /\
      0 <= scale_apply (TrackMap.proj_y p) vy <= height (TrackMap.base chart).
Proof.
  exact (setup_fits_area chart data ls).
Qed.

Lemma projection_fits_drawing_area_witness :
  exists p,
    TrackMap.setup trackQ box_dataQ = TrackMap.Projected p /\
    0 <= TrackMap.offsetX p /\ 0 <= TrackMap.offsetY p /\
    (TrackMap.offsetX p == 0 \/ TrackMap.offsetY p == 0) /\
    forall q vx vy,
      In q (positioned [box_lapQ]) -> x q = Some vx -> y q = Some vy ->
      0 <= scale_apply (TrackMap.proj_x p) vx <= width (TrackMap.base trackQ) /\
      0 <= scale_apply (TrackMap.proj_y p) vy <= height (TrackMap.base trackQ).
Proof.
  apply (projection_fits_drawing_area trackQ box_dataQ [box_lapQ]).
  - reflexivity.
  - exists (sample_at 0 100 0 0), (sample_at 400 100 400 0), 0, 400.
    cbn. repeat split; auto.
  - exists (sample_at 0 100 0 0), (sample_at 500 100 400 100), 0, 100.
    cbn. repeat split; auto.
  - reflexivity.
  - reflexivity.
Defined.

(** ** Corner detection, continued *)

Lemma isMinimum_spec (points : list TrackPointQ) (i : nat) (v : Q) :
  TrackMap.isMinimum points i v = true ->
  forall j pj, (i - 5 <= j <= i + 5)%nat -> j <> i ->
               nth_error points j = Some pj -> v <= TrackMap.tp_speed pj.
Proof.
  unfold TrackMap.isMinimum. rewrite forallb_forall. intros Hall j pj Hj Hne Hpj.
  specialize (Hall j ltac:(apply in_seq; lia)). rewrite Hpj in Hall.
  apply Nat.eqb_neq in Hne. rewrite Hne in Hall. cbn [negb andb] in Hall.
  apply negb_true_iff in Hall. qnum. now apply Qltb_ge in Hall.
Qed.

(** One round of the main loop, with the reasons for a new marker. *)
Lemma turn_step_corner (points : list TrackPointQ) (turns : list TurnQ) (i : nat) :
  window_in_range points i ->
  TrackMap.turn_step points turns i = Ok turns \/
  exists m,
    TrackMap.turn_step points turns i = Ok (turns ++ [m]) /\
    corner_at points i m /\ TrackMap.turn_index m = S (List.length turns) /\
    forall lastTurn,
      last_element turns = Some lastTurn ->
      200 < Qabs (TrackMap.turn_distance m - TrackMap.turn_distance lastTurn).
Proof.
  intros Hwin.
  destruct (surrounding_ok points i Hwin) as (speeds & Hsur & _).
  pose proof Hwin as [Hlo Hhi].
  destruct (at_index_in_range points i ltac:(lia)) as (pi & Hnth & Hat).
  unfold TrackMap.turn_step. rewrite Hat, Hsur. cbn [bind].
  destruct (nltb (TrackMap.tp_speed pi) _) eqn:Ethr; [|now left].
  destruct (TrackMap.isMinimum points i (TrackMap.tp_speed pi)) eqn:Emin; [|now left].
  assert (Hcorner : corner_at points i
            (TrackMap.mkTurn (TrackMap.tp_x pi) (TrackMap.tp_y pi)
               (TrackMap.tp_distance pi) (TrackMap.tp_speed pi)
               (List.length turns + 1))).
  { exists pi, speeds. repeat split; try assumption.
    - qnum. now apply Qltb_lt in Ethr.
    - intros j pj Hj Hpj. destruct (Nat.eq_dec j i) as [->|Hne].
      + assert (pj = pi) by congruence. subst. apply Qle_refl.
      + eapply isMinimum_spec; eassumption. }
  destruct (last_element turns) as [lastTurn|] eqn:Elast.
  - destruct (nltb (num 200) _) eqn:Egap; [|now left].
    right. eexists. split; [reflexivity|]. split; [exact Hcorner|].
    split; [cbn; lia|].
    intros lt Hlt. injection Hlt as <-. qnum. apply Qltb_lt in Egap. exact Egap.
  - right. eexists. split; [reflexivity|]. split; [exact Hcorner|].
    split; [cbn; lia|]. intros lt Hlt. discriminate.
Qed.

Lemma corner_loop_invariant (points : list TrackPointQ) (i : nat) (turns : list TurnQ) :
  window_in_range points i ->
  corners_so_far points i turns ->
  exists turns',
    TrackMap.turn_step points turns i = Ok turns' /\
    corners_so_far points (S i) turns'.
Proof.
  intros Hwin (Hfrom & Hapart & Hnum & Hlen).
  destruct (turn_step_corner points turns i Hwin)
    as [Hsame | (m & Hpush & Hcorner & Hidx & Hgap)].
  - exists turns. split; [exact Hsame|]. split; [|split; [exact Hapart|split]].
    + intros m Hm. destruct (Hfrom m Hm) as (k & Hk & Hc). exists k. split; [lia|exact Hc].
    + exact Hnum.
    + lia.
  - exists (turns ++ [m]). split; [exact Hpush|]. split; [|split; [|split]].
    + intros m' Hm'. apply in_app_or in Hm'. destruct Hm' as [Hm' | [<- | []]].
      * destruct (Hfrom m' Hm') as (k & Hk & Hc). exists k. split; [lia|exact Hc].
      * exists i. split; [lia | exact Hcorner].
    + intros k a b Ha Hb.
      destruct (Nat.lt_ge_cases (S k) (List.length turns)) as [Hin|Hout].
      * rewrite nth_error_app1 in Ha, Hb by lia. eauto.
      * assert (Hk : S k = List.length turns).
        { assert (S k < List.length (turns ++ [m]))%nat
            by (apply nth_error_Some; congruence).
          rewrite length_app in H. cbn in H. lia. }
        rewrite nth_error_app1 in Ha by lia.
        rewrite nth_error_app2 in Hb by lia.
        rewrite Hk, Nat.sub_diag in Hb. injection Hb as <-.
        apply Hgap. unfold last_element. rewrite <- Hk. cbn.
        now rewrite Nat.sub_0_r.
    + intros k a Ha.
      destruct (Nat.lt_ge_cases k (List.length turns)) as [Hin|Hout].
      * rewrite nth_error_app1 in Ha by lia. auto.
      * rewrite nth_error_app2 in Ha by lia.
        destruct (k - List.length turns)%nat as [|n] eqn:En; cbn in Ha.
        -- injection Ha as <-. rewrite Hidx. lia.
        -- destruct n; discriminate.
    + rewrite length_app. cbn [List.length]. lia.
Qed.

Lemma detectTurns_corners (points : list TrackPointQ) :
  exists markers,
    TrackMap.detectTurns points = Ok markers /\
    corners_so_far points
      (TrackMap.windowSize
       + (List.length points - TrackMap.windowSize - TrackMap.windowSize))
      markers.
Proof.
  unfold TrackMap.detectTurns.
  apply (for_each_seq_invariant (TrackMap.turn_step points) (corners_so_far points)).
  - split; [intros m []|]. split; [|split].
    + intros k a b Ha. destruct k; discriminate.
    + intros k a Ha. destruct k; discriminate.
    + cbn. lia.
  - intros i turns Hi. apply corner_loop_invariant.
    unfold window_in_range. lia.
Qed.

(** X18: the detection loop of the corner detector never raises, on any
    telemetry, sorted or not.  Every corner it finds copies position,
    distance and speed of a kept sample whose whole window of 20 on either
    side is in range, that is strictly slower than 85% of the average of
    that window and not faster than any sample within 5 of it; consecutive
    corners are more than 200 apart in distance, they are numbered from 1,
    and there are at most as many as there are kept samples beyond the first
    and last 20. *)
Theorem detection_never_raises (tel : list PointQ) :
  exists corners,
    TrackMap.detectTurns (TrackMap.track_points tel) = Ok corners /\
    (forall m, In m corners -> exists i, corner_at (TrackMap.track_points tel) i m) /\
    apart corners /\ numbered_from_one corners /\
    (List.length corners + 40 <= Nat.max 40 (List.length (TrackMap.track_points tel)))%nat.
Proof.
  destruct (detectTurns_corners (TrackMap.track_points tel))
    as (corners & Hrun & Hfrom & Hapart & Hnum & Hlen).
  exists corners. split; [exact Hrun|]. split; [|split; [|split]].
  - intros m Hm. destruct (Hfrom m Hm) as (k & _ & Hc). eauto.
  - exact Hapart.
  - exact Hnum.
  - unfold TrackMap.windowSize in Hlen. lia.
Qed.


Lemma well_separated_chain (markers : list TurnQ) :
  well_separated markers ->
  forall k a b,
    nth_error markers 0 = Some a -> nth_error markers k = Some b ->
    inject_Z (Z.of_nat k) * 200
    <= TrackMap.turn_distance b - TrackMap.turn_distance a.
Proof.
  intros Hsep. induction k as [|k IH]; intros a b Ha Hb.
  - assert (a = b) by congruence. subst. cbn [Z.of_nat]. unfold inject_Z. lra.
  - assert (Hc : exists c, nth_error markers k = Some c).
    { destruct (nth_error markers k) as [c|] eqn:Hc; [now exists c|].
      apply nth_error_None in Hc.
      assert (Datatypes.S k < List.length markers)%nat
        by (apply nth_error_Some; congruence). lia. }
    destruct Hc as (c & Hc).
    pose proof (IH a c Ha Hc) as Hchain.
    pose proof (Hsep k c b Hc Hb) as Hgap.
    rewrite Nat2Z.inj_succ, <- Z.add_1_l, inject_Z_plus.
    change (inject_Z 1) with 1.
    set (n := inject_Z (Z.of_nat k)) in *. clearbody n.
    setoid_replace ((1 + n) * 200) with (200 + n * 200) by ring. lra.
Qed.

Lemma sample_within_span (tel : list PointQ) (first lst p : PointQ) :
  sorted_by_distance tel ->
  nth_error tel 0 = Some first -> last_element tel = Some lst -> In p tel ->
  distance first <= distance p <= distance lst.
Proof.
  intros Hs Hfirst Hlast Hin. apply In_nth_error in Hin. destruct Hin as (k & Hk).
  assert (k < List.length tel)%nat by (apply nth_error_Some; congruence).
  split.
  - apply (sorted_by_distance_nth tel Hs 0 k first p); [lia | exact Hfirst | exact Hk].
  - apply (sorted_by_distance_nth tel Hs k (List.length tel - 1) p lst);
      [lia | exact Hk | exact Hlast].
Qed.

(** X19: on telemetry sorted by distance the number of corners found is
    bounded by the length of the lap: 200 for every corner but one fits
    between the distance of the first and of the last sample. *)
Theorem corner_count_bounded (tel : list PointQ) (first lst : PointQ) :
  sorted_by_distance tel ->
  nth_error tel 0 = Some first -> last_element tel = Some lst ->
  exists corners,
    TrackMap.detectTurns (TrackMap.track_points tel) = Ok corners /\
    (count corners - 1) * 200 <= distance lst - distance first.
Proof.
  intros Hs Hfirst Hlast.
  destruct (detectTurns_ordered _ (track_points_sorted tel Hs))
    as (markers & Hrun & _ & Hsep & _).
  destruct (detectTurns_corners (TrackMap.track_points tel))
    as (markers' & Hrun' & Hfrom & _).
  assert (markers' = markers) by congruence. subst markers'.
  exists markers. split; [exact Hrun|].
  assert (Hwithin : forall m, In m markers ->
            distance first <= TrackMap.turn_distance m <= distance lst).
  { intros m Hm. destruct (Hfrom m Hm)
      as (k & _ & pi & speeds & _ & Hnth & _ & _ & Hd & _).
    apply nth_error_In in Hnth. apply in_track_points in Hnth.
    destruct Hnth as (p & Hp & Hdp & _). rewrite Hd, Hdp.
    eapply sample_within_span; eassumption. }
  destruct markers as [|a rest].
  - assert (Hin : In first tel) by (eapply nth_error_In; exact Hfirst).
    pose proof (sample_within_span tel first lst first Hs Hfirst Hlast Hin).
    unfold count. cbn [List.length Z.of_nat]. unfold inject_Z. lra.
  - assert (Hb : exists b, nth_error (a :: rest) (List.length rest) = Some b).
    { destruct (nth_error (a :: rest) (List.length rest)) as [b|] eqn:Hb;
        [now exists b|]. apply nth_error_None in Hb. cbn [List.length] in Hb. lia. }
    destruct Hb as (b & Hb).
    pose proof (well_separated_chain _ Hsep (List.length rest) a b eq_refl Hb) as Hchain.
    pose proof (Hwithin a (or_introl eq_refl)) as Ha'.
    pose proof (Hwithin b (nth_error_In _ _ Hb)) as Hb'.
    rewrite count_cons. unfold count.
    set (n := inject_Z (Z.of_nat (List.length rest))) in *. clearbody n.
    setoid_replace ((1 + n - 1) * 200) with (n * 200) by ring. lra.
Qed.

Lemma corner_count_bounded_witness :
  exists first lst,
    nth_error (one_dip 100) 0 = Some first /\
    last_element (one_dip 100) = Some lst /\
    exists corners,
      TrackMap.detectTurns (TrackMap.track_points (one_dip 100)) = Ok corners /\
      (count corners - 1) * 200 <= distance lst - distance first.
Proof.
  eexists _, _. split; [reflexivity|]. split; [reflexivity|].
  apply (corner_count_bounded (one_dip 100) _ _ one_dip_sorted eq_refl eq_refl).
Defined.


(** ** Drawing the track map *)

Lemma has_position_xy (q : PointQ) :
  TrackMap.has_position q = true <-> exists vx vy, x q = Some vx /\ y q = Some vy.
Proof.
  unfold TrackMap.has_position. split.
  - destruct (x q) as [vx|], (y q) as [vy|]; try discriminate. eauto.
  - intros (vx & vy & -> & ->). reflexivity.
Qed.

Lemma in_positioned (ls : list LapQ) (l : LapQ) (q : PointQ) :
  In l ls -> In q (telemetry_or_empty l) -> TrackMap.has_position q = true ->
  In q (positioned ls).
Proof.
  intros Hl Hq Hp. unfold positioned. apply in_flat_map. exists l.
  split; [exact Hl|]. apply filter_In. split; assumption.
Qed.

Lemma in_positions (tel : list PointQ) (v : Q * Q) :
  In v (TrackMap.positions tel) ->
  exists q, In q tel /\ x q = Some (fst v) /\ y q = Some (snd v).
Proof.
  unfold TrackMap.positions. intros Hin. apply in_flat_map in Hin.
  destruct Hin as (q & Hq & Hv). exists q. split; [exact Hq|].
  destruct (x q), (y q); try contradiction.
  destruct Hv as [<- | []]. split; reflexivity.
Qed.

Lemma positions_of_positioned (tel : list PointQ) :
  existsb TrackMap.has_position tel = true -> TrackMap.positions tel <> [].
Proof.
  intros Hex. apply existsb_exists in Hex. destruct Hex as (q & Hq & Hp).
  apply has_position_xy in Hp. destruct Hp as (vx & vy & Hx & Hy).
  intros Hnil.
  assert (Hin : In (vx, vy) (TrackMap.positions tel)).
  { unfold TrackMap.positions. apply in_flat_map. exists q. split; [exact Hq|].
    rewrite Hx, Hy. now left. }
  rewrite Hnil in Hin. contradiction.
Qed.

Lemma in_track_points_xy (tel : list PointQ) (t : TrackPointQ) :
  In t (TrackMap.track_points tel) ->
  exists q, In q tel /\ x q = Some (TrackMap.tp_x t) /\ y q = Some (TrackMap.tp_y t).
Proof.
  unfold TrackMap.track_points. intros Hin. apply in_flat_map in Hin.
  destruct Hin as (q & Hq & Ht). exists q. split; [exact Hq|].
  destruct (x q), (y q), (speed q); try contradiction.
  destruct Ht as [<- | []]. split; reflexivity.
Qed.

Lemma has_positions_positioned (ls : list LapQ) :
  existsb TrackMap.has_positions ls = true <-> positioned ls <> [].
Proof.
  split.
  - intros Hex. apply existsb_exists in Hex. destruct Hex as (l & Hl & Hp).
    unfold TrackMap.has_positions in Hp. apply existsb_exists in Hp.
    destruct Hp as (q & Hq & Hqp). intros Hnil.
    pose proof (in_positioned ls l q Hl Hq Hqp) as Hin.
    rewrite Hnil in Hin. contradiction.
  - intros Hne. destruct (positioned ls) as [|q rest] eqn:E; [contradiction|].
    assert (Hin : In q (positioned ls)) by (rewrite E; now left).
    unfold positioned in Hin. apply in_flat_map in Hin.
    destruct Hin as (l & Hl & Hq). apply filter_In in Hq. destruct Hq as [Hq Hp].
    apply existsb_exists. exists l. split; [exact Hl|].
    unfold TrackMap.has_positions. apply existsb_exists. exists q. now split.
Qed.

Lemma line_ok (chart : TrackMap.Chart Q) (sx sy : LinearScale Q) (points : list (Q * Q)) :
  TrackMap.xScale chart = Some sx -> TrackMap.yScale chart = Some sy ->
  TrackMap.line chart points
  = Ok (map (fun d => (scale_apply sx (fst d), scale_apply sy (snd d))) points).
Proof.
  intros Hx Hy. unfold TrackMap.line. rewrite Hx, Hy. cbn [call_scale bind].
  induction points as [|d points IH]; [reflexivity|].
  cbn [map_outcome bind map]. rewrite IH. reflexivity.
Qed.

Lemma line_missing (chart : TrackMap.Chart Q) (d : Q * Q) (points : list (Q * Q)) :
  scales_missing chart -> TrackMap.line chart (d :: points) = TypeError.
Proof.
  intros [Hx | Hy]; unfold TrackMap.line; cbn [map_outcome].
  - rewrite Hx. reflexivity.
  - rewrite Hy. destruct (TrackMap.xScale chart); reflexivity.
Qed.

Lemma in_projected_line (sx sy : LinearScale Q) (ls : list LapQ) (l : LapQ)
    (tel : list PointQ) (v : Q * Q) :
  In l ls -> telemetry l = Some tel ->
  In v (map (fun d => (scale_apply sx (fst d), scale_apply sy (snd d)))
            (TrackMap.positions tel)) ->
  projected_sample sx sy ls v.
Proof.
  intros Hl Htel Hv. apply in_map_iff in Hv. destruct Hv as (d & <- & Hd).
  apply in_positions in Hd. destruct Hd as (q & Hq & Hqx & Hqy).
  exists q, (fst d), (snd d). split; [|now repeat split].
  apply (in_positioned ls l q Hl).
  - unfold telemetry_or_empty. rewrite Htel. exact Hq.
  - apply has_position_xy. eauto.
Qed.

(** The detector on a chart with both scales: it returns, leaves the scales
    alone, and every corner sits on a kept sample. *)
Lemma detectAndDrawTurns_total (chart : TrackMap.Chart Q) (sx sy : LinearScale Q)
    (tel : list PointQ) :
  TrackMap.xScale chart = Some sx -> TrackMap.yScale chart = Some sy ->
  exists turns chart',
    TrackMap.detectAndDrawTurns chart tel = Ok (turns, circles_of sx sy turns, chart') /\
    TrackMap.xScale chart' = TrackMap.xScale chart /\
    TrackMap.yScale chart' = TrackMap.yScale chart /\
    TrackMap.base chart' = TrackMap.base chart /\
    forall m, In m turns ->
      exists q, In q tel /\ x q = Some (TrackMap.turn_x m) /\
                y q = Some (TrackMap.turn_y m).
Proof.
  intros Hx Hy. unfold TrackMap.detectAndDrawTurns.
  destruct (List.length (TrackMap.track_points tel) <? 10)%nat.
  - exists [], chart. repeat split. intros m [].
  - destruct (detectTurns_corners (TrackMap.track_points tel))
      as (turns & -> & Hfrom & _).
    cbn [bind]. rewrite (drawTurnMarkers_ok chart sx sy turns Hx Hy).
    cbn [bind]. eexists _, _. split; [reflexivity|].
    cbn [TrackMap.xScale TrackMap.yScale TrackMap.base]. repeat split.
    intros m Hm. destruct (Hfrom m Hm)
      as (k & _ & pi & speeds & _ & Hnth & Hmx & Hmy & _).
    apply nth_error_In in Hnth. apply in_track_points_xy in Hnth.
    destruct Hnth as (q & Hq & Hqx & Hqy). exists q.
    rewrite Hmx, Hmy. now repeat split.
Qed.

Lemma drawDistanceMarker_ok (chart : TrackMap.Chart Q) (sx sy : LinearScale Q)
    (ls : list LapQ) (distance : Q) :
  TrackMap.xScale chart = Some sx -> TrackMap.yScale chart = Some sy ->
  exists circles,
    TrackMap.drawDistanceMarker chart ls distance = Ok circles /\
    forall i cx cy, In (i, cx, cy) circles -> projected_sample sx sy ls (cx, cy).
Proof.
  intros Hx Hy. unfold TrackMap.drawDistanceMarker.
  match goal with
  | |- context [map_outcome ?f ?arr] =>
      set (body := f);
      assert (Hbody : forall il, In il arr ->
                exists cs, body il = Ok cs /\
                  forall i cx cy, In (i, cx, cy) cs -> projected_sample sx sy ls (cx, cy))
  end.
  { intros [i lap] Hil. apply in_indexed in Hil. apply nth_error_In in Hil.
    unfold body. cbn [fst snd].
    destruct (lapPointAt_cases distance lap)
      as [[-> _] | (tel & p & Htel & _ & -> & Hp)].
    - exists []. split; [reflexivity|]. intros ? ? ? [].
    - cbn [bind]. destruct (x p) as [px|] eqn:Epx, (y p) as [py|] eqn:Epy;
        try (exists []; split; [reflexivity | intros ? ? ? []]).
      rewrite Hx, Hy. cbn [call_scale bind]. eexists. split; [reflexivity|].
      intros j cx cy [Heq | []]. injection Heq as _ <- <-.
      exists p, px, py. split; [|now repeat split].
      apply (in_positioned ls lap p Hil).
      + unfold telemetry_or_empty. rewrite Htel. exact Hp.
      + apply has_position_xy. eauto. }
  destruct (map_outcome_total body (indexed ls)) as (circles & Hrun).
  { intros il Hil. destruct (Hbody il Hil) as (cs & Hcs & _). eauto. }
  rewrite Hrun. cbn [bind]. eexists. split; [reflexivity|].
  intros i cx cy Hin. apply in_concat in Hin. destruct Hin as (cs & Hcs & Hin).
  apply map_outcome_Ok in Hrun.
  destruct (Forall2_in_right _ _ _ cs Hrun Hcs) as (il & Hil & Hrun_il).
  destruct (Hbody il Hil) as (cs' & Hcs' & Hall).
  assert (cs' = cs) by congruence. subst cs'. eauto.
Qed.

Lemma lapTraces_ok (chart : TrackMap.Chart Q) (sx sy : LinearScale Q) (ls : list LapQ) :
  TrackMap.xScale chart = Some sx -> TrackMap.yScale chart = Some sy ->
  exists traces,
    map_outcome
      (fun lap =>
         match telemetry lap with
         | None | Some [] => Ok []
         | Some tel => TrackMap.drawLapTrace chart tel
         end) ls = Ok traces /\
    forall path v, In path (concat traces) -> In v path -> projected_sample sx sy ls v.
Proof.
  intros Hx Hy.
  match goal with
  | |- context [map_outcome ?f ?arr] =>
      set (body := f);
      assert (Hbody : forall lap, In lap arr ->
                exists ps, body lap = Ok ps /\
                  forall path v, In path ps -> In v path -> projected_sample sx sy ls v)
  end.
  { intros lap Hlap. unfold body.
    destruct (telemetry lap) as [[|p tel]|] eqn:Etel;
      try (exists []; split; [reflexivity | intros ? ? []]).
    unfold TrackMap.drawLapTrace.
    destruct (TrackMap.positions (p :: tel)) as [|d points] eqn:Epos.
    - exists []. split; [reflexivity | intros ? ? []].
    - rewrite (line_ok chart sx sy _ Hx Hy). cbn [bind].
      eexists. split; [reflexivity|].
      intros path v [<- | []] Hv. rewrite <- Epos in Hv.
      eapply in_projected_line; eassumption. }
  destruct (map_outcome_total body ls) as (traces & Hrun).
  { intros lap Hlap. destruct (Hbody lap Hlap) as (ps & Hps & _). eauto. }
  exists traces. split; [exact Hrun|].
  intros path v Hin Hv. apply in_concat in Hin. destruct Hin as (ps & Hps & Hin).
  apply map_outcome_Ok in Hrun.
  destruct (Forall2_in_right _ _ _ ps Hrun Hps) as (lap & Hlap & Hrun_lap).
  destruct (Hbody lap Hlap) as (ps' & Hps' & Hall).
  assert (ps' = ps) by congruence. subst ps'. eauto.
Qed.

(** The first lap with a position, which [render] draws the track from. *)
Lemma find_first_positioned (ls : list LapQ) :
  positioned ls <> [] ->
  exists firstLap tel d points,
    find TrackMap.has_positions ls = Some firstLap /\ In firstLap ls /\
    telemetry firstLap = Some tel /\ TrackMap.positions tel = d :: points.
Proof.
  intros Hne. apply has_positions_positioned in Hne.
  destruct (find TrackMap.has_positions ls) as [firstLap|] eqn:Efind.
  - apply find_some in Efind. destruct Efind as [Hin Hp].
    unfold TrackMap.has_positions, telemetry_or_empty in Hp.
    destruct (telemetry firstLap) as [tel|] eqn:Etel; [|discriminate].
    apply positions_of_positioned in Hp.
    destruct (TrackMap.positions tel) as [|d points] eqn:Epos; [contradiction|].
    exists firstLap, tel, d, points. repeat split; assumption.
  - apply existsb_exists in Hne. destruct Hne as (l & Hl & Hp).
    pose proof (find_none _ _ Efind l Hl) as Hnone. congruence.
Qed.

Lemma render_with_scales (chart : TrackMap.Chart Q) (sx sy : LinearScale Q)
    (data : option (ChartData Q)) (ls : list LapQ) :
  TrackMap.xScale chart = Some sx -> TrackMap.yScale chart = Some sy ->
  loaded_laps data = Some ls -> positioned ls <> [] ->
  exists d chart',
    TrackMap.render chart data = Ok (TrackMap.Drawn d, chart') /\
    every_drawn_point (projected_sample sx sy ls) d /\
    TrackMap.trackOutline d <> [] /\
    TrackMap.legend d = TrackMap.addLegend ls /\
    (forall sel, data = Some sel -> selectedDistance sel = None ->
                 TrackMap.positionMarkers d = []).
Proof.
  intros Hx Hy Hl Hne. unfold TrackMap.render. rewrite Hl.
  pose proof (proj2 (has_positions_positioned ls) Hne) as Hex. rewrite Hex.
  cbn [negb].
  destruct (find_first_positioned ls Hne)
    as (firstLap & tel & d0 & points & -> & Hfirst & Htel & Hpos).
  rewrite Htel. unfold TrackMap.drawTrackOutline. rewrite Hpos.
  rewrite (line_ok chart sx sy _ Hx Hy). cbn [bind].
  destruct (detectAndDrawTurns_total chart sx sy tel Hx Hy)
    as (turns & chart1 & -> & Hx1 & Hy1 & _ & Hturns).
  cbn [bind fst snd]. rewrite Hx in Hx1. rewrite Hy in Hy1.
  destruct (lapTraces_ok chart1 sx sy ls Hx1 Hy1) as (traces & -> & Htraces).
  cbn [bind].
  assert (Hsel : exists circlesAt,
            match data with
            | Some d =>
                match selectedDistance d with
                | Some distance => TrackMap.drawDistanceMarker chart1 ls distance
                | None => Ok []
                end
            | None => Ok []
            end = Ok circlesAt /\
            (forall i cx cy, In (i, cx, cy) circlesAt ->
                             projected_sample sx sy ls (cx, cy)) /\
            (forall sel, data = Some sel -> selectedDistance sel = None ->
                         circlesAt = [])).
  { destruct data as [sel|]; [|discriminate].
    destruct (selectedDistance sel) as [distance|] eqn:Esel.
    - destruct (drawDistanceMarker_ok chart1 sx sy ls distance Hx1 Hy1)
        as (circles & -> & Hcircles).
      exists circles. split; [reflexivity|]. split; [exact Hcircles|].
      intros sel' Heq Hnone. injection Heq as <-. congruence.
    - exists []. split; [reflexivity|]. split; [intros ? ? ? []|reflexivity]. }
  destruct Hsel as (circlesAt & -> & Hcircles & Hnone).
  cbn [bind]. eexists _, _. split; [reflexivity|].
  cbn [TrackMap.trackOutline TrackMap.legend TrackMap.positionMarkers].
  split; [|split; [discriminate | split; [reflexivity | exact Hnone]]].
  unfold every_drawn_point.
  cbn [TrackMap.trackOutline TrackMap.lapTraces TrackMap.turnCircles
       TrackMap.positionMarkers].
  split; [|split; [exact Htraces | split; [|exact Hcircles]]].
  - intros path v Hpath Hv.
    assert (path = map (fun d => (scale_apply sx (fst d), scale_apply sy (snd d)))
                       (TrackMap.positions tel)) as ->.
    { rewrite Hpos. destruct Hpath as [<- | [<- | []]]; reflexivity. }
    eapply in_projected_line; eassumption.
  - intros c Hc. apply in_map_iff in Hc. destruct Hc as (t & <- & Ht).
    cbn [TrackMap.marker_x TrackMap.marker_y].
    destruct (Hturns t Ht) as (q & Hq & Hqx & Hqy).
    exists q, (TrackMap.turn_x t), (TrackMap.turn_y t).
    split; [|now repeat split].
    apply (in_positioned ls firstLap q Hfirst).
    + unfold telemetry_or_empty. rewrite Htel. exact Hq.
    + apply has_position_xy. eauto.
Qed.


Lemma render_missing_scales (chart : TrackMap.Chart Q) (data : option (ChartData Q))
    (ls : list LapQ) :
  loaded_laps data = Some ls -> positioned ls <> [] -> scales_missing chart ->
  TrackMap.render chart data = TypeError.
Proof.
  intros Hl Hne Hmiss. unfold TrackMap.render. rewrite Hl.
  rewrite (proj2 (has_positions_positioned ls) Hne). cbn [negb].
  destruct (find_first_positioned ls Hne)
    as (firstLap & tel & d0 & points & -> & _ & -> & Hpos).
  unfold TrackMap.drawTrackOutline. rewrite Hpos.
  rewrite (line_missing chart d0 points Hmiss). reflexivity.
Qed.

Lemma render_without_positions (chart : TrackMap.Chart Q) (data : option (ChartData Q))
    (ls : list LapQ) :
  loaded_laps data = Some ls -> positioned ls = [] ->
  TrackMap.render chart data = Ok (TrackMap.NoPositionData, chart).
Proof.
  intros Hl Hnil. unfold TrackMap.render. rewrite Hl.
  destruct (existsb TrackMap.has_positions ls) eqn:Hex; [|reflexivity].
  apply has_positions_positioned in Hex. contradiction.
Qed.

Lemma positioned_dec (ls : list LapQ) : positioned ls = [] \/ positioned ls <> [].
Proof.
  destruct (positioned ls); [now left | right; discriminate].
Qed.

(** X20: drawing the track map raises exactly when the data holds a sample
    with a position while one of the two scales is still missing, as on a
    chart whose scales were never set up. *)
Theorem track_render_raises_iff (chart : TrackMap.Chart Q)
    (data : option (ChartData Q)) :
  TrackMap.render chart data = TypeError <->
  exists ls,
    loaded_laps data = Some ls /\ positioned ls <> [] /\ scales_missing chart.
Proof.
  split.
  - intros Herr. destruct (loaded_laps data) as [ls|] eqn:Hl.
    2:{ unfold TrackMap.render in Herr. rewrite Hl in Herr. discriminate. }
    exists ls. split; [reflexivity|].
    destruct (positioned_dec ls) as [Hnil | Hne].
    { rewrite (render_without_positions chart data ls Hl Hnil) in Herr.
      discriminate. }
    split; [exact Hne|].
    destruct (TrackMap.xScale chart) as [sx|] eqn:Hx; [|now left].
    destruct (TrackMap.yScale chart) as [sy|] eqn:Hy; [|now right].
    destruct (render_with_scales chart sx sy data ls Hx Hy Hl Hne)
      as (d & chart' & Hrun & _).
    congruence.
  - intros (ls & Hl & Hne & Hmiss).
    exact (render_missing_scales chart data ls Hl Hne Hmiss).
Qed.

Lemma update_base (chart : TrackMap.Chart Q) (data : option (ChartData Q)) :
  TrackMap.base (TrackMap.update chart data)
  = init (set_lastData (TrackMap.base chart) data).
Proof.
  unfold TrackMap.update, TrackMap.setupScales.
  destruct (TrackMap.setup _ data); reflexivity.
Qed.

Lemma update_scales (chart : TrackMap.Chart Q) (data : option (ChartData Q))
    (p : TrackMap.Projection Q) :
  TrackMap.setup
    (TrackMap.mkChart (init (set_lastData (TrackMap.base chart) data))
       (TrackMap.xScale chart) (TrackMap.yScale chart) (TrackMap.turnMarkers chart))
    data = TrackMap.Projected p ->
  TrackMap.xScale (TrackMap.update chart data) = Some (TrackMap.proj_x p) /\
  TrackMap.yScale (TrackMap.update chart data) = Some (TrackMap.proj_y p).
Proof.
  intros Hsetup. unfold TrackMap.update, TrackMap.setupScales.
  rewrite Hsetup. split; reflexivity.
Qed.

Lemma update_render_cases (chart : TrackMap.Chart Q) (data : option (ChartData Q)) :
  (loaded_laps data = None /\
   TrackMap.render (TrackMap.update chart data) data
   = Ok (TrackMap.NoTrackData, TrackMap.update chart data)) \/
  (exists ls, loaded_laps data = Some ls /\ positioned ls = [] /\
     TrackMap.render (TrackMap.update chart data) data
     = Ok (TrackMap.NoPositionData, TrackMap.update chart data)) \/
  (exists ls sx sy d chart',
     loaded_laps data = Some ls /\ positioned ls <> [] /\
     TrackMap.xScale (TrackMap.update chart data) = Some sx /\
     TrackMap.yScale (TrackMap.update chart data) = Some sy /\
     TrackMap.render (TrackMap.update chart data) data
     = Ok (TrackMap.Drawn d, chart') /\
     every_drawn_point (projected_sample sx sy ls) d /\
     TrackMap.trackOutline d <> [] /\
     TrackMap.legend d = TrackMap.addLegend ls /\
     (forall sel, data = Some sel -> selectedDistance sel = None ->
                  TrackMap.positionMarkers d = [])).
Proof.
  destruct (loaded_laps data) as [ls|] eqn:Hl.
  2:{ left. split; [reflexivity|]. unfold TrackMap.render. rewrite Hl. reflexivity. }
  right. destruct (positioned_dec ls) as [Hnil | Hne].
  - left. exists ls. split; [reflexivity|]. split; [exact Hnil|].
    exact (render_without_positions _ data ls Hl Hnil).
  - right.
    destruct (setup_projects
                (TrackMap.mkChart (init (set_lastData (TrackMap.base chart) data))
                   (TrackMap.xScale chart) (TrackMap.yScale chart)
                   (TrackMap.turnMarkers chart))
                data ls Hl Hne) as (xe & ye & Hsetup & _).
    destruct (update_scales chart data _ Hsetup) as [Hx Hy].
    destruct (render_with_scales _ _ _ data ls Hx Hy Hl Hne)
      as (d & chart' & Hrun & Hall & Hout & Hleg & Hsel).
    exists ls. eexists _, _, d, chart'.
    split; [reflexivity|]. split; [exact Hne|]. split; [exact Hx|].
    split; [exact Hy|]. split; [exact Hrun|]. split; [exact Hall|].
    split; [exact Hout|]. split; [exact Hleg | exact Hsel].
Qed.

(** X21: updating the track map never raises, whatever the data.  It shows
    the first message exactly when there are no laps, the second exactly
    when no sample of any lap has a position, and draws otherwise: the track
    outline, one legend entry per lap, and position markers only when a
    distance is selected. *)
Theorem track_update_never_raises (chart : TrackMap.Chart Q)
    (data : option (ChartData Q)) :
  exists r chart',
    TrackMap.render (TrackMap.update chart data) data = Ok (r, chart') /\
    (r = TrackMap.NoTrackData <-> loaded_laps data = None) /\
    (r = TrackMap.NoPositionData <->
     exists ls, loaded_laps data = Some ls /\ positioned ls = []) /\
    (forall d, r = TrackMap.Drawn d ->
       exists ls, loaded_laps data = Some ls /\ positioned ls <> [] /\
         TrackMap.trackOutline d <> [] /\
         List.length (TrackMap.legend d) = List.length ls /\
         (forall sel, data = Some sel -> selectedDistance sel = None ->
                      TrackMap.positionMarkers d = [])).
Proof.
  destruct (update_render_cases chart data)
    as [[Hl Hrun] | [(ls & Hl & Hnil & Hrun)
                    | (ls & sx & sy & d & chart' & Hl & Hne & _ & _ & Hrun
                       & _ & Hout & Hleg & Hsel)]].
  - eexists _, _. split; [exact Hrun|]. split; [tauto|]. split.
    + split; [discriminate|]. intros (ls & Hls & _). congruence.
    + intros d Hd. discriminate.
  - eexists _, _. split; [exact Hrun|]. split; [|split].
    + split; [discriminate | congruence].
    + split; [eauto | reflexivity].
    + intros d Hd. discriminate.
  - eexists _, _. split; [exact Hrun|]. split; [|split].
    + split; [discriminate | congruence].
    + split; [discriminate|]. intros (ls' & Hls' & Hnil).
      assert (ls' = ls) by congruence. subst. contradiction.
    + intros d' Hd'. injection Hd' as <-. exists ls.
      split; [exact Hl|]. split; [exact Hne|]. split; [exact Hout|].
      split; [|exact Hsel].
      rewrite Hleg. unfold TrackMap.addLegend, indexed.
      rewrite length_map, length_combine, length_seq. apply Nat.min_id.
Qed.

Lemma every_drawn_point_impl (P R : Q * Q -> Prop) (d : TrackMap.Drawing Q) :
  (forall v, P v -> R v) -> every_drawn_point P d -> every_drawn_point R d.
Proof.
  intros Himpl (H1 & H2 & H3 & H4). repeat split; eauto.
Qed.

(** X22: when the kept samples span a box of positive width and height and
    the drawing area is positive, an update draws the track map and puts
    every point of it inside the drawing area: the vertices of the outline
    and of every lap trace, the corner circles and the position markers. *)
Theorem track_drawn_inside_area (chart : TrackMap.Chart Q)
    (data : option (ChartData Q)) (ls : list LapQ) :
  loaded_laps data = Some ls ->
  spans_x ls -> spans_y ls ->
  0 < width (TrackMap.base (TrackMap.update chart data)) ->
  0 < height (TrackMap.base (TrackMap.update chart data)) ->
  exists d chart',
    TrackMap.render (TrackMap.update chart data) data
    = Ok (TrackMap.Drawn d, chart') /\
    every_drawn_point
      (inside_area (width (TrackMap.base (TrackMap.update chart data)))
                   (height (TrackMap.base (TrackMap.update chart data)))) d.
Proof.
  intros Hl Hsx Hsy Hw Hh. rewrite update_base in *.
  set (chart0 := TrackMap.mkChart (init (set_lastData (TrackMap.base chart) data))
                   (TrackMap.xScale chart) (TrackMap.yScale chart)
                   (TrackMap.turnMarkers chart)).
  destruct (setup_fits_area chart0 data ls Hl Hsx Hsy Hw Hh)
    as (p & Hsetup & _ & _ & _ & Hfit).
  destruct (update_scales chart data p Hsetup) as [Hx Hy].
  assert (Hne : positioned ls <> []).
  { destruct Hsx as (a & _ & _ & _ & Ha & _). intros E. rewrite E in Ha.
    contradiction. }
  destruct (render_with_scales _ _ _ data ls Hx Hy Hl Hne)
    as (d & chart' & Hrun & Hall & _).
  exists d, chart'. split; [exact Hrun|].
  refine (every_drawn_point_impl _ _ d _ Hall).
  intros v (q & vx & vy & Hq & Hqx & Hqy & ->).
  exact (Hfit q vx vy Hq Hqx Hqy).
Qed.

Lemma track_drawn_inside_area_witness :
  exists d chart',
    TrackMap.render (TrackMap.update trackQ box_dataQ) box_dataQ
    = Ok (TrackMap.Drawn d, chart') /\
    every_drawn_point
      (inside_area (width (TrackMap.base (TrackMap.update trackQ box_dataQ)))
                   (height (TrackMap.base (TrackMap.update trackQ box_dataQ)))) d.
Proof.
  apply (track_drawn_inside_area trackQ box_dataQ [box_lapQ]).
  - reflexivity.
  - exists (sample_at 0 100 0 0), (sample_at 400 100 400 0), 0, 400.
    cbn. repeat split; auto.
  - exists (sample_at 0 100 0 0), (sample_at 500 100 400 100), 0, 100.
    cbn. repeat split; auto.
  - reflexivity.
  - reflexivity.
Defined.


(** ** The crosshair of the multi-channel chart *)

Lemma multi_crosshair_per_lap (chart : MultiTelemetry.Chart Q) (xs : LinearScale Q)
    (mouseX : Q) (il : nat * LapQ) :
  let perLap := fun il : nat * LapQ =>
    match lapPointAt (scale_invert xs mouseX) (snd il) with
    | None => Ok []
    | Some found =>
        bind found (fun point =>
          match MultiTelemetry.channelScales chart MultiTelemetry.Speed with
          | None => TypeError
          | Some speedScale =>
              Ok [MultiTelemetry.mkMarker (fst il) point mouseX
                    (option_map (scale_apply (MultiTelemetry.band_y speedScale))
                                (speed point))
                    (MultiTelemetry.band_offset speedScale + 15
                     + inject_Z (Z.of_nat (fst il)) * 45)]
          end)
    end in
  (telemetry_or_empty (snd il) = [] /\ perLap il = Ok []) \/
  (exists point,
     telemetry_or_empty (snd il) <> [] /\
     lapPointAt (scale_invert xs mouseX) (snd il) = Some (Ok point) /\
     perLap il
     = match MultiTelemetry.channelScales chart MultiTelemetry.Speed with
       | None => TypeError
       | Some speedScale =>
           Ok [MultiTelemetry.mkMarker (fst il) point mouseX
                 (option_map (scale_apply (MultiTelemetry.band_y speedScale))
                             (speed point))
                 (MultiTelemetry.band_offset speedScale + 15
                  + inject_Z (Z.of_nat (fst il)) * 45)]
       end).
Proof.
  intros perLap. unfold perLap.
  destruct (lapPointAt_cases (scale_invert xs mouseX) (snd il))
    as [[Hnone _] | (tel & p & Htel & Hne & Hfound & _)].
  - left. rewrite Hnone. split; [|reflexivity].
    now apply lapPointAt_none_iff in Hnone.
  - right. exists p. rewrite Hfound. cbn [bind].
    split; [|split; reflexivity].
    now rewrite (telemetry_or_empty_some _ _ Htel).
Qed.

(** X23: moving the pointer over the multi-channel chart raises in exactly
    two situations: the x scale was never set up, or there is no band for
    the speed channel (it is not among the channels shown) while some lap
    has samples; the circle of every lap is drawn on the speed band. *)
Theorem multi_crosshair_raises_iff (chart : MultiTelemetry.Chart Q) (ls : list LapQ)
    (mouseX : Q) :
  MultiTelemetry.handleMouseMove chart ls mouseX = TypeError <->
  MultiTelemetry.xScale chart = None \/
  (MultiTelemetry.channelScales chart MultiTelemetry.Speed = None /\
   exists lap, In lap ls /\ telemetry_or_empty lap <> []).
Proof.
  unfold MultiTelemetry.handleMouseMove.
  destruct (MultiTelemetry.xScale chart) as [xs|]; [|split; [now left | reflexivity]].
  rewrite bind_Ok_error, map_outcome_error_iff. split.
  - intros ([i lap] & Hil & Herr). right.
    apply in_indexed in Hil. apply nth_error_In in Hil.
    destruct (multi_crosshair_per_lap chart xs mouseX (i, lap))
      as [[_ Hok] | (p & Hne & _ & Hrun)].
    + pose proof (eq_trans (eq_sym Hok) Herr) as E. discriminate E.
    + pose proof (eq_trans (eq_sym Hrun) Herr) as E.
      destruct (MultiTelemetry.channelScales chart MultiTelemetry.Speed);
        [discriminate E|].
      split; [reflexivity|]. exists lap. split; assumption.
  - intros [Hx | (Hs & lap & Hlap & Hne)]; [discriminate|].
    apply In_nth_error in Hlap. destruct Hlap as (i & Hi).
    exists (i, lap). split; [now apply in_indexed|].
    destruct (multi_crosshair_per_lap chart xs mouseX (i, lap))
      as [[Hnil _] | (p & _ & _ & Hrun)]; [contradiction|].
    rewrite Hs. rewrite Hs in Hrun. exact Hrun.
Qed.

Lemma multi_crosshair_on (chart : MultiTelemetry.Chart Q) (xs : LinearScale Q)
    (band : MultiTelemetry.Band Q) (ls : list LapQ) (mouseX : Q) :
  MultiTelemetry.xScale chart = Some xs ->
  MultiTelemetry.channelScales chart MultiTelemetry.Speed = Some band ->
  exists markers,
    MultiTelemetry.handleMouseMove chart ls mouseX = Ok markers /\
    (forall m, In m markers ->
       exists lap,
         nth_error ls (MultiTelemetry.marker_lap m) = Some lap /\
         lapPointAt (scale_invert xs mouseX) lap
         = Some (Ok (MultiTelemetry.marker_point m)) /\
         MultiTelemetry.marker_cx m = mouseX /\
         MultiTelemetry.marker_cy m
         = option_map (scale_apply (MultiTelemetry.band_y band))
                      (speed (MultiTelemetry.marker_point m)) /\
         MultiTelemetry.label_y m
         = MultiTelemetry.band_offset band + 15
           + inject_Z (Z.of_nat (MultiTelemetry.marker_lap m)) * 45) /\
    (forall i lap,
       nth_error ls i = Some lap -> telemetry_or_empty lap <> [] ->
       exists m, In m markers /\ MultiTelemetry.marker_lap m = i).
Proof.
  intros Hx Hs. unfold MultiTelemetry.handleMouseMove. rewrite Hx.
  match goal with
  | |- context [map_outcome ?f ?arr] => set (perLap := f)
  end.
  assert (Hcase : forall il,
            (telemetry_or_empty (snd il) = [] /\ perLap il = Ok []) \/
            (exists point,
               telemetry_or_empty (snd il) <> [] /\
               lapPointAt (scale_invert xs mouseX) (snd il) = Some (Ok point) /\
               perLap il
               = Ok [MultiTelemetry.mkMarker (fst il) point mouseX
                       (option_map (scale_apply (MultiTelemetry.band_y band))
                                   (speed point))
                       (MultiTelemetry.band_offset band + 15
                        + inject_Z (Z.of_nat (fst il)) * 45)])).
  { intros il.
    destruct (multi_crosshair_per_lap chart xs mouseX il)
      as [[H1 H2] | (p & H1 & H2 & H3)].
    - left. split; [exact H1 | exact H2].
    - right. exists p. rewrite Hs in H3.
      split; [exact H1|]. split; [exact H2|].
      unfold perLap. rewrite Hs. exact H3. }
  destruct (map_outcome_total perLap (indexed ls)) as (bs & Hbs).
  { intros il _. destruct (Hcase il) as [[_ ->] | (p & _ & _ & ->)]; eauto. }
  exists (concat bs). rewrite Hbs. cbn [bind]. split; [reflexivity|].
  pose proof (map_outcome_Ok _ _ _ Hbs) as Hall. split.
  - intros m Hm. apply in_concat in Hm. destruct Hm as (b & Hb & Hmb).
    destruct (Forall2_in_right _ _ _ b Hall Hb) as ([i lap] & Hil & Hf).
    apply in_indexed in Hil.
    destruct (Hcase (i, lap)) as [[_ Hnil] | (p & _ & Hfound & Hone)];
      rewrite Hf in *.
    + injection Hnil as ->. contradiction.
    + injection Hone as ->. destruct Hmb as [<- | []].
      exists lap. cbn. auto.
  - intros i lap Hi Hne. apply in_indexed in Hi.
    destruct (Forall2_in_left _ _ _ _ Hall Hi) as (b & Hb & Hf).
    destruct (Hcase (i, lap)) as [[Hnil _] | (p & _ & _ & Hone)].
    + contradiction.
    + rewrite Hf in Hone. injection Hone as ->.
      eexists. split; [apply in_concat; eexists; split; [exact Hb | now left]|].
      reflexivity.
Qed.

(** The markers of the multi-channel chart as a list: one for every lap
    with samples, in lap order. *)
Lemma multi_crosshair_list (chart : MultiTelemetry.Chart Q) (xs : LinearScale Q)
    (band : MultiTelemetry.Band Q) (ls : list LapQ) (mouseX : Q) :
  MultiTelemetry.xScale chart = Some xs ->
  MultiTelemetry.channelScales chart MultiTelemetry.Speed = Some band ->
  exists markers,
    MultiTelemetry.handleMouseMove chart ls mouseX = Ok markers /\
    Forall2 (band_marker_of xs band mouseX) markers (laps_with_samples ls).
Proof.
  intros Hx Hs. unfold MultiTelemetry.handleMouseMove. rewrite Hx.
  match goal with
  | |- context [map_outcome ?f ?arr] => set (perLap := f)
  end.
  destruct (map_outcome_concat_filter perLap (fun il => has_samples (snd il))
              (band_marker_of xs band mouseX) (indexed ls)) as (bs & Hbs & Hall).
  { intros il _. unfold perLap.
    destruct (has_samples_lookup (scale_invert xs mouseX) (snd il))
      as [[Hk ->] | (Hk & p & Hfound)].
    - left. split; [exact Hk | reflexivity].
    - right. split; [exact Hk|]. rewrite Hfound, Hs. cbn [bind].
      eexists. split; [reflexivity|].
      unfold band_marker_of.
      cbn [MultiTelemetry.marker_lap MultiTelemetry.marker_point
           MultiTelemetry.marker_cx MultiTelemetry.marker_cy
           MultiTelemetry.label_y].
      repeat split; try reflexivity. exact Hfound. }
  exists (concat bs). rewrite Hbs. cbn [bind]. split; [reflexivity | exact Hall].
Qed.

(** X24: after an update of a multi-channel chart that shows the speed
    channel, moving the pointer never raises.  The markers are, as a list,
    those of the laps that have samples, one for one and in lap order, so
    every lap with samples gets exactly one marker and the others none; the
    marker sits at the pointer's x, on the sample the lookup returns for the
    distance under the pointer, at the height the speed band gives that
    sample's speed, and its label is 45 lower for every lap before it. *)
Theorem multi_crosshair_markers (chart : MultiTelemetry.Chart Q)
    (data : option (ChartData Q)) (ls : list LapQ) (mouseX : Q) :
  loaded_laps data = Some ls ->
  In MultiTelemetry.Speed (MultiTelemetry.channels chart) ->
  exists xs band markers,
    MultiTelemetry.xScale (MultiTelemetry.update chart data) = Some xs /\
    MultiTelemetry.channelScales (MultiTelemetry.update chart data)
      MultiTelemetry.Speed = Some band /\
    MultiTelemetry.handleMouseMove (MultiTelemetry.update chart data) ls mouseX
    = Ok markers /\
    Forall2 (band_marker_of xs band mouseX) markers (laps_with_samples ls) /\
    List.length markers = List.length (laps_with_samples ls) /\
    (forall m, In m markers ->
       exists lap,
         nth_error ls (MultiTelemetry.marker_lap m) = Some lap /\
         lapPointAt (scale_invert xs mouseX) lap
         = Some (Ok (MultiTelemetry.marker_point m)) /\
         MultiTelemetry.marker_cx m = mouseX /\
         MultiTelemetry.marker_cy m
         = option_map (scale_apply (MultiTelemetry.band_y band))
                      (speed (MultiTelemetry.marker_point m)) /\
         MultiTelemetry.label_y m
         = MultiTelemetry.band_offset band + 15
           + inject_Z (Z.of_nat (MultiTelemetry.marker_lap m)) * 45) /\
    (forall i lap,
       nth_error ls i = Some lap -> telemetry_or_empty lap <> [] ->
       exists m, In m markers /\ MultiTelemetry.marker_lap m = i).
Proof.
  intros Hl Hspeed.
  assert (Hx : exists xs,
            MultiTelemetry.xScale (MultiTelemetry.update chart data) = Some xs).
  { unfold MultiTelemetry.update, MultiTelemetry.setupScales. rewrite Hl.
    eexists. reflexivity. }
  destruct Hx as (xs & Hx).
  destruct (setupScales_band_of
              (MultiTelemetry.mkChart
                 (init (set_lastData (MultiTelemetry.base chart) data))
                 (MultiTelemetry.channels chart)
                 (MultiTelemetry.channelHeights chart)
                 (MultiTelemetry.xScale chart)
                 (MultiTelemetry.channelScales chart)
                 (MultiTelemetry.referenceLap chart))
              data ls MultiTelemetry.Speed Hl Hspeed) as (band & Hband & _).
  change (MultiTelemetry.setupScales _ data)
    with (MultiTelemetry.update chart data) in Hband.
  destruct (multi_crosshair_on _ xs band ls mouseX Hx Hband) as (markers & Hrun & Hm).
  destruct (multi_crosshair_list _ xs band ls mouseX Hx Hband)
    as (markers' & Hrun' & Hall).
  assert (markers' = markers) by congruence. subst markers'.
  exists xs, band, markers. split; [exact Hx|]. split; [exact Hband|].
  split; [exact Hrun|]. split; [exact Hall|].
  split; [exact (Forall2_length Hall) | exact Hm].
Qed.

Lemma multi_crosshair_markers_witness :
  exists xs band markers,
    MultiTelemetry.xScale
      (MultiTelemetry.update (MultiTelemetry.new_chart 800 450) (Some two_laps))
    = Some xs /\
    MultiTelemetry.channelScales
      (MultiTelemetry.update (MultiTelemetry.new_chart 800 450) (Some two_laps))
      MultiTelemetry.Speed = Some band /\
    MultiTelemetry.handleMouseMove
      (MultiTelemetry.update (MultiTelemetry.new_chart 800 450) (Some two_laps))
      [lapA; lapB] 100
    = Ok markers /\
    Forall2 (band_marker_of xs band 100) markers (laps_with_samples [lapA; lapB]) /\
    List.length markers = List.length (laps_with_samples [lapA; lapB]) /\
    (forall m, In m markers ->
       exists lap,
         nth_error [lapA; lapB] (MultiTelemetry.marker_lap m) = Some lap /\
         lapPointAt (scale_invert xs 100) lap
         = Some (Ok (MultiTelemetry.marker_point m)) /\
         MultiTelemetry.marker_cx m = 100 /\
         MultiTelemetry.marker_cy m
         = option_map (scale_apply (MultiTelemetry.band_y band))
                      (speed (MultiTelemetry.marker_point m)) /\
         MultiTelemetry.label_y m
         = MultiTelemetry.band_offset band + 15
           + inject_Z (Z.of_nat (MultiTelemetry.marker_lap m)) * 45) /\
    (forall i lap,
       nth_error [lapA; lapB] i = Some lap -> telemetry_or_empty lap <> [] ->
       exists m, In m markers /\ MultiTelemetry.marker_lap m = i).
Proof.
  apply (multi_crosshair_markers (MultiTelemetry.new_chart 800 450) (Some two_laps)
           [lapA; lapB] 100).
  - reflexivity.
  - left. reflexivity.
Defined.


(** ** The three charts together *)

(** X25: when telemetry is loaded, the three charts are updated in a row
    inside one [try].  The speed trace chart is always updated.  The
    [catch] branch is taken in exactly one situation, the one in which the
    multi-channel chart raises (delta shown, first lap with an empty array,
    another lap with samples); the track map is then not reached and stays
    as it was.  Otherwise the track map is updated and drawn as well. *)
Theorem chart_updates_fail_iff (charts : App.Charts Q) (data : option (ChartData Q)) :
  (snd (App.updateCharts charts data) = true <->
   exists first rest lap,
     loaded_laps data = Some (first :: rest) /\
     In MultiTelemetry.Delta (MultiTelemetry.channels (App.multiTelemetry charts)) /\
     telemetry first = Some [] /\
     In lap rest /\ same_object lap first = false /\ telemetry_or_empty lap <> []) /\
  App.telemetry (fst (App.updateCharts charts data))
  = TelemetryChart.update (App.telemetry charts) data /\
  App.multiTelemetry (fst (App.updateCharts charts data))
  = MultiTelemetry.update (App.multiTelemetry charts) data /\
  (snd (App.updateCharts charts data) = true ->
   App.trackMap (fst (App.updateCharts charts data)) = App.trackMap charts) /\
  (snd (App.updateCharts charts data) = false ->
   exists r,
     TrackMap.render (TrackMap.update (App.trackMap charts) data) data
     = Ok (r, App.trackMap (fst (App.updateCharts charts data)))).
Proof.
  unfold App.updateCharts.
  assert (Hspeed : exists drawn,
            TelemetryChart.render
              (TelemetryChart.update (App.telemetry charts) data) data = Ok drawn).
  { pose proof (speed_update_renders (App.telemetry charts) data) as Hs.
    destruct (loaded_laps data); [|eauto].
    destruct Hs as (xs & ys & _ & _ & Hs). eauto. }
  destruct Hspeed as (drawn & ->).
  pose proof (multi_update_error_cases (App.multiTelemetry charts) data) as Hmulti.
  destruct (MultiTelemetry.render
              (MultiTelemetry.update (App.multiTelemetry charts) data) data)
    as [traces|] eqn:Emulti.
  - assert (Htrack : exists r chart',
              TrackMap.render (TrackMap.update (App.trackMap charts) data) data
              = Ok (r, chart')).
    { destruct (update_render_cases (App.trackMap charts) data)
        as [[_ Hrun] | [(ls & _ & _ & Hrun)
                       | (ls & sx & sy & d & chart' & _ & _ & _ & _ & Hrun & _)]];
        eauto. }
    destruct Htrack as (r & chart' & ->). cbn [fst snd App.telemetry
      App.multiTelemetry App.trackMap].
    split; [|split; [reflexivity|split; [reflexivity|split]]].
    + split; [discriminate|]. intros Hcond. apply Hmulti in Hcond. discriminate.
    + discriminate.
    + intros _. exists r. reflexivity.
  - cbn [fst snd App.telemetry App.multiTelemetry App.trackMap].
    split; [|split; [reflexivity|split; [reflexivity|split]]].
    + split; [intros _; apply Hmulti; reflexivity | reflexivity].
    + reflexivity.
    + discriminate.
Qed.
